(** * DataModel (cpa/datamodel.py): per-image object counts, weighted sampling
      and group maps, embedded in Rocq.

    The Python class [DataModel] is embedded shallowly: its attributes are the
    fields of a record, its methods are computations in a state-and-exception
    monad over that record, and the database singleton [db] it talks to is a
    record of query results.  Python dictionaries are stdpp [gmap]s; their
    iteration order is the (fixed, key-determined) order of [map_to_list],
    which plays the role of the hash order of a Python 2 dictionary: it is
    arbitrary but does not change while the dictionary is not modified. *)

From stdpp Require Import gmap strings list fin_maps pretty.
From Stdlib Require Import ZArith Lia.

(** ** Python values *)

(** Components of a group key: the columns of a group are integers or
    strings (e.g. [(3, 'A01')]). *)
Inductive pyval :=
  | PInt (z : Z)
  | PStr (s : string).

(** The result of [type(col)]. *)
Inductive pytype := TInt | TStr.

Definition type_of (v : pyval) : pytype :=
  match v with PInt _ => TInt | PStr _ => TStr end.

Global Instance pyval_eq_dec : EqDecision pyval.
Proof. solve_decision. Defined.

Global Instance pytype_eq_dec : EqDecision pytype.
Proof. solve_decision. Defined.

Global Instance pyval_countable : Countable pyval.
Proof.
  refine (inj_countable'
            (λ v, match v with PInt z => inl z | PStr s => inr s end)
            (λ x, match x with inl z => PInt z | inr s => PStr s end) _).
  by intros [].
Defined.

(** Image keys are int tuples [(TableNumber, ImageNumber)]: [list Z].  Group
    keys are tuples of column values: [list pyval].  Object keys are int
    tuples: [list Z]. *)

(** The wildcard of [GetImagesInGroupWithWildcards]. *)
Definition ANY : pyval := PStr "__ANY__".

(** ** Exceptions and results *)

Inductive exn :=
  | KeyError
  | IndexError
  | ValueError
  | AttributeError
  | DBError (msg : string)
  (* not a Python exception: the bound the model gives a while loop was
     reached (it never is, see [locate_object_total] and
     [locate_in_subset_total]) *)
  | LoopBound.

Inductive Res (A : Type) :=
  | Ok (a : A)
  | Raise (e : exn).
Arguments Ok {A} a.
Arguments Raise {A} e.

Global Instance Res_ret : MRet Res := λ A a, Ok a.
Global Instance Res_bind : MBind Res := λ A B f r,
  match r with Ok a => f a | Raise e => Raise e end.

(** ** Python and numpy primitives *)

Module Py.

(** [l[i]] on a list, tuple or one-dimensional array: a negative index counts
    from the end, an index out of range raises IndexError. *)
Definition getitem {A} (l : list A) (i : Z) : Res A :=
  let n := Z.of_nat (length l) in
  let j := (if i <? 0 then i + n else i)%Z in
  if ((j <? 0) || (n <=? j))%Z then Raise IndexError
  else match l !! Z.to_nat j with
       | Some x => Ok x
       | None => Raise IndexError
       end.

(** [l[i] = x], same index convention. *)
Definition setitem {A} (l : list A) (i : Z) (x : A) : Res (list A) :=
  let n := Z.of_nat (length l) in
  let j := (if i <? 0 then i + n else i)%Z in
  if ((j <? 0) || (n <=? j))%Z then Raise IndexError
  else Ok (<[Z.to_nat j := x]> l).

(** [d[k]] on a dictionary. *)
Definition dictitem `{Countable K} {V} (d : gmap K V) (k : K) : Res V :=
  match d !! k with
  | Some v => Ok v
  | None => Raise KeyError
  end.

(** [d.keys()], [d.values()], [d.items()]: one fixed order for all three. *)
Definition items `{Countable K} {V} (d : gmap K V) : list (K * V) :=
  map_to_list d.
Definition keys `{Countable K} {V} (d : gmap K V) : list K := (items d).*1.
Definition values `{Countable K} {V} (d : gmap K V) : list V := (items d).*2.

(** [r[:-1]]. *)
Definition but_last {A} (l : list A) : list A := removelast l.

(** [xrange(N)]. *)
Definition xrange (N : Z) : list nat := seq 0 (Z.to_nat N).

(** [enumerate(l)]. *)
Definition enumerate {A} (l : list A) : list (nat * A) :=
  imap (λ i x, (i, x)) l.

End Py.

Module Np.

(** The arrays of the model have numpy's default integer dtype: signed
    64-bit, arithmetic wraps around. *)
Definition wrap64 (z : Z) : Z := ((z + 2 ^ 63) mod 2 ^ 64 - 2 ^ 63)%Z.

(** [np.zeros(n, dtype='int')]. *)
Definition zeros (n : nat) : list Z := replicate n 0%Z.

(** [np.cumsum(l)]. *)
Fixpoint cumsum_from (acc : Z) (l : list Z) : list Z :=
  match l with
  | [] => []
  | x :: l' => let acc' := wrap64 (acc + x) in acc' :: cumsum_from acc' l'
  end.
Definition cumsum (l : list Z) : list Z := cumsum_from 0 l.

(** [np.searchsorted(a, key, 'left')]: numpy's binary search.  Each round
    halves the interval [min_idx, max_idx), so [length a] rounds are
    enough. *)
Fixpoint binsearch_left (fuel : nat) (a : list Z) (key : Z)
    (min_idx max_idx : nat) : nat :=
  match fuel with
  | O => min_idx
  | S fuel' =>
      if (min_idx <? max_idx)%nat then
        let mid := (min_idx + (max_idx - min_idx) / 2)%nat in
        if (nth mid a 0 <? key)%Z
        then binsearch_left fuel' a key (S mid) max_idx
        else binsearch_left fuel' a key min_idx mid
      else min_idx
  end.

Definition searchsorted_left (a : list Z) (key : Z) : nat :=
  binsearch_left (length a) a key 0 (length a).

End Np.

(** ** The database and the properties singletons *)

(** What the model reads from [db = DBConnect.getInstance()].  A query either
    returns its rows or raises. *)
Record DBConnect := mkDB {
  db_CheckTables : Res unit;
  (* rows of key components *)
  db_GetAllImageKeys : Res (list (list Z));
  (* rows (key components..., count) *)
  db_GetPerImageObjectCounts : Res (list (list Z));
  (* GetGroupMaps(): ({group: {imKey: groupKey}}, {group: [col_names]}) *)
  db_GetGroupMaps :
    Res (gmap string (gmap (list Z) (list pyval)) * gmap string (list string));
  (* GetGroupMaps(reverse=True): ({group: {groupKey: [imKeys]}}, names) *)
  db_GetGroupMaps_reverse :
    Res (gmap string (gmap (list pyval) (list (list Z)))
         * gmap string (list string));
  db_GetObjectIDAtIndex : list Z → Z → Res (list Z);
  db_execute : string → Res (list (list Z));
}.

(** What the model reads from [p = Properties.getInstance()]. *)
Record Properties := mkProps {
  check_tables : string;
  _filters : gmap string string;
}.

(** The calls made on [db], in order. *)
Inductive db_call :=
  | CallCheckTables
  | CallGetAllImageKeys
  | CallGetPerImageObjectCounts
  | CallGetGroupMaps (reverse : bool)
  | CallGetObjectIDAtIndex (imKey : list Z) (obIdx : Z)
  | CallExecute (query : string).

(** ** The model *)

Record DataModel := mkDataModel {
  data : gmap (list Z) Z;
  groupMaps : gmap string (gmap (list Z) (list pyval));
  revGroupMaps : gmap string (gmap (list pyval) (list (list Z)));
  groupColNames : gmap string (list string);
  groupColTypes : gmap string (list pytype);
  cumSums : list Z;
  obCount : Z;
  keylist : list (list Z);
  filterkeys : gmap string (gset (list Z));
}.

(** [DataModel.__init__]. *)
Definition DataModel_init : DataModel :=
  {| data := ∅; groupMaps := ∅; revGroupMaps := ∅; groupColNames := ∅;
     groupColTypes := ∅; cumSums := []; obCount := 0; keylist := [];
     filterkeys := ∅ |}.

(** The state a method runs in: the model instance, the source of the random
    module ([entropy] is the stream of raw random numbers, [drawn] how many
    were consumed) and the log of the calls made on [db]. *)
Record World := mkWorld {
  self : DataModel;
  entropy : nat → Z;
  drawn : nat;
  db_log : list db_call;
}.

Definition with_self (f : DataModel → DataModel) (w : World) : World :=
  {| self := f (self w); entropy := entropy w; drawn := drawn w;
     db_log := db_log w |}.

Definition set_data (d : gmap (list Z) Z) (s : DataModel) : DataModel :=
  {| data := d; groupMaps := groupMaps s; revGroupMaps := revGroupMaps s;
     groupColNames := groupColNames s; groupColTypes := groupColTypes s;
     cumSums := cumSums s; obCount := obCount s; keylist := keylist s;
     filterkeys := filterkeys s |}.

Definition set_groupMaps (g : gmap string (gmap (list Z) (list pyval)))
    (s : DataModel) : DataModel :=
  {| data := data s; groupMaps := g; revGroupMaps := revGroupMaps s;
     groupColNames := groupColNames s; groupColTypes := groupColTypes s;
     cumSums := cumSums s; obCount := obCount s; keylist := keylist s;
     filterkeys := filterkeys s |}.

Definition set_revGroupMaps
    (g : gmap string (gmap (list pyval) (list (list Z))))
    (s : DataModel) : DataModel :=
  {| data := data s; groupMaps := groupMaps s; revGroupMaps := g;
     groupColNames := groupColNames s; groupColTypes := groupColTypes s;
     cumSums := cumSums s; obCount := obCount s; keylist := keylist s;
     filterkeys := filterkeys s |}.

Definition set_groupColNames (g : gmap string (list string))
    (s : DataModel) : DataModel :=
  {| data := data s; groupMaps := groupMaps s; revGroupMaps := revGroupMaps s;
     groupColNames := g; groupColTypes := groupColTypes s;
     cumSums := cumSums s; obCount := obCount s; keylist := keylist s;
     filterkeys := filterkeys s |}.

Definition set_groupColTypes (g : gmap string (list pytype))
    (s : DataModel) : DataModel :=
  {| data := data s; groupMaps := groupMaps s; revGroupMaps := revGroupMaps s;
     groupColNames := groupColNames s; groupColTypes := g;
     cumSums := cumSums s; obCount := obCount s; keylist := keylist s;
     filterkeys := filterkeys s |}.

Definition set_cumSums (c : list Z) (s : DataModel) : DataModel :=
  {| data := data s; groupMaps := groupMaps s; revGroupMaps := revGroupMaps s;
     groupColNames := groupColNames s; groupColTypes := groupColTypes s;
     cumSums := c; obCount := obCount s; keylist := keylist s;
     filterkeys := filterkeys s |}.

Definition set_obCount (n : Z) (s : DataModel) : DataModel :=
  {| data := data s; groupMaps := groupMaps s; revGroupMaps := revGroupMaps s;
     groupColNames := groupColNames s; groupColTypes := groupColTypes s;
     cumSums := cumSums s; obCount := n; keylist := keylist s;
     filterkeys := filterkeys s |}.

Definition set_keylist (l : list (list Z)) (s : DataModel) : DataModel :=
  {| data := data s; groupMaps := groupMaps s; revGroupMaps := revGroupMaps s;
     groupColNames := groupColNames s; groupColTypes := groupColTypes s;
     cumSums := cumSums s; obCount := obCount s; keylist := l;
     filterkeys := filterkeys s |}.

Definition set_filterkeys (f : gmap string (gset (list Z)))
    (s : DataModel) : DataModel :=
  {| data := data s; groupMaps := groupMaps s; revGroupMaps := revGroupMaps s;
     groupColNames := groupColNames s; groupColTypes := groupColTypes s;
     cumSums := cumSums s; obCount := obCount s; keylist := keylist s;
     filterkeys := f |}.

(** ** The monad of methods

    A method maps the state to a result and the state it leaves behind; an
    exception keeps the mutations made before it was raised, as in Python. *)

Definition M (A : Type) : Type := World → Res A * World.

Definition retM {A} (a : A) : M A := λ w, (Ok a, w).

Definition bindM {A B} (f : A → M B) (m : M A) : M B := λ w,
  match m w with
  | (Ok a, w') => f a w'
  | (Raise e, w') => (Raise e, w')
  end.

Global Instance M_ret : MRet M := @retM.
Global Instance M_bind : MBind M := @bindM.

(** A pure computation that may raise. *)
Definition lift {A} (r : Res A) : M A := λ w, (r, w).

Definition get_self : M DataModel := λ w, (Ok (self w), w).

Definition modify_self (f : DataModel → DataModel) : M unit :=
  λ w, (Ok (), with_self f w).

(** A call on [db]: logged, then its result. *)
Definition call {A} (c : db_call) (r : Res A) : M A := λ w,
  (r, {| self := self w; entropy := entropy w; drawn := drawn w;
         db_log := db_log w ++ [c] |}).

(** [random.randint(a, b)]: ValueError on an empty range, otherwise the next
    raw random number reduced to [a, b]. *)
Definition randint (a b : Z) : M Z := λ w,
  if (b <? a)%Z then (Raise ValueError, w)
  else (Ok (a + entropy w (drawn w) mod (b - a + 1))%Z,
        {| self := self w; entropy := entropy w; drawn := S (drawn w);
           db_log := db_log w |}).

(** [for x in l: body(x)]. *)
Fixpoint for_ {A} (l : list A) (body : A → M unit) : M unit :=
  match l with
  | [] => mret ()
  | x :: l' => body x ;; for_ l' body
  end.

(** [for x in l: acc = step(acc, x)] in a computation that may raise. *)
Fixpoint foldlM {A B} (step : B → A → Res B) (acc : B) (l : list A) : Res B :=
  match l with
  | [] => Ok acc
  | x :: l' => acc' ← step acc x; foldlM step acc' l'
  end.

(** ** Weighted sampling: the index computation *)

(** [while sums[imIdx] == sums[imIdx-1]: imIdx -= 1].  Each round lowers
    [imIdx], and an index below [-len(sums)] raises IndexError, so the loop
    makes fewer than [2 * len(sums) + 2] rounds. *)
Fixpoint first_of_repeated (fuel : nat) (sums : list Z) (imIdx : Z) : Res Z :=
  match fuel with
  | O => Raise LoopBound
  | S fuel' =>
      a ← Py.getitem sums imIdx;
      b ← Py.getitem sums (imIdx - 1);
      if (a =? b)%Z then first_of_repeated fuel' sums (imIdx - 1)
      else Ok imIdx
  end.

Definition loop_bound (sums : list Z) : nat := 2 * length sums + 2.

(** Lines 97-105 of GetRandomObject: from the drawn [obIdx] to the image key
    and the object number relative to this image. *)
Definition locate_object (sums : list Z) (ks : list (list Z)) (obIdx : Z)
    : Res (list Z * Z) :=
  let imIdx := Z.of_nat (Np.searchsorted_left sums obIdx) in
  imIdx ← first_of_repeated (loop_bound sums) sums imIdx;
  imKey ← Py.getitem ks (imIdx - 1);
  prev ← Py.getitem sums (imIdx - 1);
  mret (imKey, Np.wrap64 (obIdx - prev)).

(** The same computation in GetRandomObjects, on the subset's sums: index 0 is
    taken as it is. *)
Definition locate_in_subset (sums : list Z) (imKeys : list (list Z))
    (obIdx : Z) : Res (list Z * Z) :=
  let index := Z.of_nat (Np.searchsorted_left sums obIdx) in
  '(index, obIdx) ←
    (if (index =? 0)%Z then mret (index, obIdx)
     else
       index ← first_of_repeated (loop_bound sums) sums index;
       prev ← Py.getitem sums (index - 1);
       mret (index, Np.wrap64 (obIdx - prev)));
  imKey ← Py.getitem imKeys index;
  mret (imKey, obIdx).

(** ** Group keys with wildcards *)

(** [matches(key1, key2)]: [zip] stops at the shorter key. *)
Definition matches (key1 key2 : list pyval) : bool :=
  forallb (λ ab, bool_decide (ab.1 = ab.2) || bool_decide (ab.2 = ANY))
          (zip key1 key2).

(** ['__ANY__' in groupKey]. *)
Definition has_wildcard (groupKey : list pyval) : bool :=
  existsb (λ b, bool_decide (b = ANY)) groupKey.

(** [self.revGroupMaps[group][groupKey]], the lookup inside
    [try: ... except KeyError] in GetImagesInGroup. *)
Definition reverse_lookup (s : DataModel) (group : string)
    (groupKey : list pyval) : Res (list (list Z)) :=
  rm ← Py.dictitem (revGroupMaps s) group; Py.dictitem rm groupKey.

(** GetImagesInGroup returns the stored list, or a set when a filter was
    applied. *)
Inductive imkeys :=
  | KeyList (l : list (list Z))
  | KeySet (s : gset (list Z)).

(** ** Summing vectors *)

Section Vectors.

(** The entries of the value arrays and their addition. *)
Context {F : Type} (fzero : F) (fadd : F → F → F).

(** [np.zeros(nvals)]. *)
Definition vzeros (nvals : nat) : list F := replicate nvals fzero.

(** [a += b] on one-dimensional arrays: [b] must have the shape of [a], or
    length 1, in which case it is broadcast over [a]; otherwise numpy raises
    ValueError. *)
Definition iadd (a b : list F) : Res (list F) :=
  if decide (length b = length a) then Ok (zip_with fadd a b)
  else match b with
       | [y] => Ok ((λ x, fadd x y) <$> a)
       | _ => Raise ValueError
       end.

End Vectors.

(** ** The methods of [DataModel] *)

Section Methods.

(** The module globals [db] ([None] when there is no connection) and [p]. *)
Variable db : option DBConnect.
Variable p : Properties.

(** A method call on [db] outside of the [db is None] test. *)
Definition on_db {A} (c : db_call) (q : DBConnect → Res A) : M A :=
  match db with
  | Some d => call c (q d)
  | None => lift (Raise AttributeError)
  end.

Definition IsEmpty (s : DataModel) : bool := bool_decide (data s = ∅).

Definition DeleteModel : M unit :=
  modify_self (set_data ∅);;
  modify_self (set_groupMaps ∅);;
  modify_self (set_cumSums []);;
  modify_self (set_obCount 0).

(** The blocks of PopulateModel, in the order of the source. *)

(* Initialize per-image object counts to zero.  The keys are converted to int
   tuples in the source; the rows of the model hold integers already. *)
Definition init_counts (d : DBConnect) : M unit :=
  imKeys ← call CallGetAllImageKeys (db_GetAllImageKeys d);
  for_ imKeys (λ key,
    modify_self (λ s, set_data (<[key := 0%Z]> (data s)) s)).

(* Compute per-image object counts *)
Definition count_row (r : list Z) : M unit :=
  let key := Py.but_last r in
  c ← lift (Py.getitem r (-1));
  modify_self (λ s, set_data (<[key := c]> (data s)) s);;
  modify_self (λ s, set_obCount (obCount s + c) s).

Definition count_objects (d : DBConnect) : M unit :=
  res ← call CallGetPerImageObjectCounts (db_GetPerImageObjectCounts d);
  for_ res count_row.

(* Build a cumulative sum array to use for generating random objects
   quickly *)
Definition add_cumSum (ik : nat * list Z) : M unit :=
  s ← get_self;
  prev ← lift (Py.getitem (cumSums s) (Z.of_nat ik.1));
  c ← lift (Py.dictitem (data s) ik.2);
  cs ← lift (Py.setitem (cumSums s) (Z.of_nat ik.1 + 1)
               (Np.wrap64 (prev + c)));
  modify_self (set_cumSums cs).

Definition build_cumSums : M unit :=
  modify_self (λ s, set_cumSums (Np.zeros (size (data s) + 1)) s);;
  s ← get_self;
  for_ (Py.enumerate (keylist s)) add_cumSum.

(* self.groupColTypes[group] =
     [type(col) for col in self.groupMaps[group].items()[0][1]] *)
Definition set_group_types (group : string) : M unit :=
  s ← get_self;
  gm ← lift (Py.dictitem (groupMaps s) group);
  first ← lift (Py.getitem (Py.items gm) 0);
  modify_self (λ s,
    set_groupColTypes (<[group := type_of <$> first.2]> (groupColTypes s)) s).

Definition load_groups (d : DBConnect) : M unit :=
  fwd ← call (CallGetGroupMaps false) (db_GetGroupMaps d);
  modify_self (λ s, set_groupColNames fwd.2 (set_groupMaps fwd.1 s));;
  rev ← call (CallGetGroupMaps true) (db_GetGroupMaps_reverse d);
  modify_self (set_revGroupMaps rev.1);;
  s ← get_self;
  for_ (Py.keys (groupMaps s)) set_group_types.

Definition PopulateModel (delete_model : bool) : M unit :=
  done ← (if delete_model then DeleteModel;; mret false
          else s ← get_self; mret (negb (IsEmpty s)));
  if (done : bool) then mret () (* No op if already populated *)
  else match db with
  | None => mret () (* logging.error *)
  | Some d =>
    (if bool_decide (check_tables p = "yes")
     then call CallCheckTables (db_CheckTables d) else mret ());;
    init_counts d;;
    count_objects d;;
    modify_self (λ s, set_keylist (Py.keys (data s)) s);;
    build_cumSums;;
    load_groups d
  end.

(** [if self.IsEmpty:] tests the bound method, not its result: it is always
    true, and PopulateModel decides. *)
Definition _if_empty_populate : M unit := PopulateModel false.

(** The random number of [randint] is the next one of the state's stream. *)
Definition GetRandomObject : M (list Z) :=
  _if_empty_populate;;
  s ← get_self;
  obIdx ← randint 1 (obCount s);
  io ← lift (locate_object (cumSums s) (Py.keys (data s)) obIdx);
  on_db (CallGetObjectIDAtIndex io.1 io.2)
        (λ d, db_GetObjectIDAtIndex d io.1 io.2).

(** [imKeys] is [None] or a list of image keys. *)
Definition GetRandomObjects (N : Z) (imKeys : option (list (list Z)))
    : M (list (list Z)) :=
  _if_empty_populate;;
  match imKeys with
  | None => mapM (λ _, GetRandomObject) (Py.xrange N)
  | Some [] => mret []
  | Some imKeys =>
      s ← get_self;
      counts ← lift (mapM (Py.dictitem (data s)) imKeys);
      let sums := Np.cumsum counts in
      total ← lift (Py.getitem sums (-1));
      if (total <? 1)%Z then mret []
      else
        mapM (λ _,
          obIdx ← randint 1 total;
          io ← lift (locate_in_subset sums imKeys obIdx);
          on_db (CallGetObjectIDAtIndex io.1 io.2)
                (λ d, db_GetObjectIDAtIndex d io.1 io.2))
          (Py.xrange N)
  end.

Section Sum.

Context {F : Type} (fzero : F) (fadd : F → F → F).

(** [self.groupMaps[group][imKey]]. *)
Definition group_of (s : DataModel) (group : string) (imKey : list Z)
    : Res (list pyval) :=
  gm ← Py.dictitem (groupMaps s) group;
  Py.dictitem gm imKey.

Definition SumToGroup (imdata : gmap (list Z) (list F)) (group : string)
    : M (gmap (list pyval) (list F)) :=
  _if_empty_populate;;
  s ← get_self;
  first ← lift (Py.getitem (Py.values imdata) 0);
  let nvals := length first in
  (* initialize each entry to [0,0,...] *)
  groupData ← lift (foldlM (λ groupData imKey,
      g ← group_of s group imKey;
      mret (<[g := vzeros fzero nvals]> groupData))
    (∅ : gmap (list pyval) (list F)) (Py.keys imdata));
  (* add values to running sum of this group *)
  lift (foldlM (λ groupData kv,
      g ← group_of s group kv.1;
      cur ← Py.dictitem groupData g;
      new ← iadd fadd cur kv.2;
      mret (<[g := new]> groupData))
    groupData (Py.items imdata)).

End Sum.

Definition GetImagesInGroup (group : string) (groupKey : list pyval)
    (filter : option string) : M imkeys :=
  _if_empty_populate;;
  s ← get_self;
  match reverse_lookup s group groupKey with
  | Raise KeyError => mret (KeyList [])
  | Raise e => lift (Raise e)
  | Ok found =>
      (* apply filter if supplied *)
      match filter with
      | None => mret (KeyList found)
      | Some f =>
          (if bool_decide (f ∈ Py.keys (filterkeys s)) then mret ()
           else
             query ← lift (Py.dictitem (_filters p) f);
             rows ← on_db (CallExecute query) (λ d, db_execute d query);
             modify_self (λ s,
               set_filterkeys (<[f := list_to_set rows]> (filterkeys s)) s));;
          s ← get_self;
          fk ← lift (Py.dictitem (filterkeys s) f);
          mret (KeySet (list_to_set found ∩ fk))
      end
  end.

Definition GetImagesInGroupWithWildcards (group : string)
    (groupKey : list pyval) (filter : option string) : M imkeys :=
  _if_empty_populate;;
  if has_wildcard groupKey then
    (* accumulate imkeys from all matching groupKeys *)
    s ← get_self;
    rm ← lift (Py.dictitem (revGroupMaps s) group);
    mret (KeyList
      (foldl (λ acc gi, if matches gi.1 groupKey then acc ++ gi.2 else acc)
             [] (Py.items rm)))
  else
    (* if there are no wildcards simply lookup the imkeys *)
    GetImagesInGroup group groupKey filter.

End Methods.

(** ** The remaining query methods of [DataModel] *)

(** [xrange(a, b)]. *)
Definition xrange_from (a b : Z) : list Z :=
  (λ i, (a + Z.of_nat i)%Z) <$> seq 0 (Z.to_nat (b - a)).

Section QueryMethods.

Variable db : option DBConnect.
Variable p : Properties.

(** [db.GetFilteredImages(filter)] of the connected database: the image keys
    of a filter, or an error.  (The log of calls records the queries of the
    methods above; this one is not recorded.) *)
Variable GetFilteredImages : string → Res (list (list Z)).

Definition filtered_images (filter : string) : M (list (list Z)) :=
  match db with
  | Some _ => lift (GetFilteredImages filter)
  | None => lift (Raise AttributeError)
  end.

Definition GetObjectCountFromImage (imKey : list Z) : M Z :=
  _if_empty_populate db p;;
  s ← get_self;
  lift (Py.dictitem (data s) imKey).

Definition GetObjectsFromImage (imKey : list Z) : M (list (list Z)) :=
  _if_empty_populate db p;;
  n ← GetObjectCountFromImage imKey;
  mapM (λ i, on_db db (CallGetObjectIDAtIndex imKey i)
               (λ d, db_GetObjectIDAtIndex d imKey i))
       (xrange_from 1 (n + 1)).

Definition GetAllImageKeys (filter : option string) : M (list (list Z)) :=
  _if_empty_populate db p;;
  match filter with
  | None => s ← get_self; mret (Py.keys (data s))
  | Some f => filtered_images f
  end.

Definition GetImageKeysAndObjectCounts (filter : option string)
    : M (list (list Z * Z)) :=
  _if_empty_populate db p;;
  match filter with
  | None => s ← get_self; mret (Py.items (data s))
  | Some f =>
      imKeys ← filtered_images f;
      s ← get_self;
      lift (mapM (λ imKey, c ← Py.dictitem (data s) imKey; mret (imKey, c))
                 imKeys)
  end.

Definition GetGroupColumnNames (group : string) : M (list string) :=
  _if_empty_populate db p;;
  s ← get_self;
  lift (Py.dictitem (groupColNames s) group).

Definition GetGroupColumnTypes (group : string) : M (list pytype) :=
  _if_empty_populate db p;;
  s ← get_self;
  lift (Py.dictitem (groupColTypes s) group).

(** [list(set(self.groupMaps[group].values()))]. *)
Definition GetGroupKeysInGroup (group : string) : M (list (list pyval)) :=
  _if_empty_populate db p;;
  s ← get_self;
  gm ← lift (Py.dictitem (groupMaps s) group);
  mret (elements (list_to_set (Py.values gm) : gset (list pyval))).

End QueryMethods.

(** ** A small database, used to run the methods on concrete inputs *)

Module Example.

Definition e1 : list Z := [0; 1]%Z.
Definition e2 : list Z := [0; 2]%Z.
Definition e3 : list Z := [0; 3]%Z.
Definition e4 : list Z := [0; 4]%Z.

Definition gA : list pyval := [PInt 0; PStr "A01"].
Definition gB : list pyval := [PInt 0; PStr "A02"].
Definition gC : list pyval := [PInt 1; PStr "A01"].

Definition g0 : list pyval := [PInt 0].
Definition g1 : list pyval := [PInt 1].

(** Four images; [e2] and [e4] have no objects ([e4] has no row at all).
Groups: by well (one image per well) and by plate ([e1] and [e2] on plate
0, [e3] on plate 1); [e4] is in no group. *)
Definition db : DBConnect := {|
  db_CheckTables := Ok ();
  db_GetAllImageKeys := Ok [e1; e2; e3; e4];
  db_GetPerImageObjectCounts := Ok [[0; 1; 2]; [0; 2; 0]; [0; 3; 3]]%Z;
  db_GetGroupMaps :=
    Ok ({[ "Well" := {[ e1 := gA; e2 := gB; e3 := gC ]};
           "Plate" := {[ e1 := g0; e2 := g0; e3 := g1 ]} ]},
        {[ "Well" := ["plate"; "well"]; "Plate" := ["plate"] ]});
  db_GetGroupMaps_reverse :=
    Ok ({[ "Well" := {[ gA := [e1]; gB := [e2]; gC := [e3] ]};
           "Plate" := {[ g0 := [e1; e2]; g1 := [e3] ]} ]},
        {[ "Well" := ["plate"; "well"]; "Plate" := ["plate"] ]});
  db_GetObjectIDAtIndex := λ imKey obIdx, Ok (imKey ++ [obIdx]);
  db_execute := λ query, Ok [e1; e2];
|}.

Definition p : Properties :=
  {| check_tables := "yes"; _filters := {[ "f" := "SELECT 1" ]} |}.

(** A new instance, before any method ran. *)
Definition fresh : World :=
  {| self := DataModel_init; entropy := λ n, (7 * Z.of_nat n + 3)%Z;
     drawn := 0; db_log := [] |}.

(** The instance after [PopulateModel()]. *)
Definition populated : World := (PopulateModel (Some db) p false fresh).2.

(** The instance after one filtered lookup: the filter cache is filled. *)
Definition filtered : World :=
  (GetImagesInGroup (Some db) p "Well" gA (Some "f") populated).2.

End Example.

(** A database whose images have no objects and no groups. *)
Module NoObjects.

Definition db : DBConnect := {|
  db_CheckTables := Ok ();
  db_GetAllImageKeys := Ok [Example.e1; Example.e2];
  db_GetPerImageObjectCounts := Ok [];
  db_GetGroupMaps := Ok (∅, ∅);
  db_GetGroupMaps_reverse := Ok (∅, ∅);
  db_GetObjectIDAtIndex := λ imKey obIdx, Ok (imKey ++ [obIdx]);
  db_execute := λ query, Ok [];
|}.

Definition populated : World :=
  (PopulateModel (Some db) Example.p false Example.fresh).2.

End NoObjects.

(** The database of [Example], with one more group that has no image. *)
Module EmptyGroup.

Definition db : DBConnect := {|
  db_CheckTables := Ok ();
  db_GetAllImageKeys := db_GetAllImageKeys Example.db;
  db_GetPerImageObjectCounts := db_GetPerImageObjectCounts Example.db;
  db_GetGroupMaps :=
    Ok ({[ "Well" := {[ Example.e1 := Example.gA; Example.e2 := Example.gB;
                        Example.e3 := Example.gC ]};
           "Gene" := ∅ ]},
        {[ "Well" := ["plate"; "well"]; "Gene" := ["gene"] ]});
  db_GetGroupMaps_reverse :=
    Ok ({[ "Well" := {[ Example.gA := [Example.e1];
                        Example.gB := [Example.e2];
                        Example.gC := [Example.e3] ]};
           "Gene" := ∅ ]},
        {[ "Well" := ["plate"; "well"]; "Gene" := ["gene"] ]});
  db_GetObjectIDAtIndex := db_GetObjectIDAtIndex Example.db;
  db_execute := db_execute Example.db;
|}.

End EmptyGroup.

(** * The profiles of [cpa/util/profiles.py]

    A profile file is a table: a header line, then one line per profile.
    The first [key_size] columns hold the key of a profile, the others one
    value per variable.  [load] reads tab-separated lines, [load_csv] the
    rows of a CSV reader; the file is the list of its lines, or of its
    rows. *)

Module Prof.

(** [InputError(filename, message, line)] of the module, and the built-in
    exceptions its code can raise. *)
Inductive error :=
  | InputError (filename message : string) (line : option nat)
  | ValueError
  | IndexError
  | AssertionError
  | UnboundLocalError.

Inductive result (A : Type) :=
  | Return (a : A)
  | Throw (e : error).
Arguments Return {A} a.
Arguments Throw {A} e.

Global Instance result_ret : MRet result := λ A a, Return a.
Global Instance result_bind : MBind result := λ A B f r,
  match r with Return a => f a | Throw e => Throw e end.

(** [for x in l: acc = step(acc, x)]. *)
Fixpoint foldM {A B} (step : B → A → result B) (acc : B) (l : list A)
    : result B :=
  match l with
  | [] => Return acc
  | x :: l' => acc' ← step acc x; foldM step acc' l'
  end.

(** ** Strings and lists *)

Definition tab : Ascii.ascii := Ascii.ascii_of_nat 9.
Definition newline : Ascii.ascii := Ascii.ascii_of_nat 10.

(** The characters [str.rstrip()] removes: space, and tab, line feed,
    vertical tab, form feed and carriage return (codes 9 to 13). *)
Definition is_space (c : Ascii.ascii) : bool :=
  let n := Ascii.nat_of_ascii c in
  (n =? 32) || ((9 <=? n) && (n <=? 13)).

(** [s.rstrip()]. *)
Fixpoint rstrip (s : string) : string :=
  match s with
  | EmptyString => EmptyString
  | String c s' =>
      match rstrip s' with
      | EmptyString =>
          if is_space c then EmptyString else String c EmptyString
      | r => String c r
      end
  end.

(** [s.split('\t')]: never the empty list. *)
Fixpoint split_tab (s : string) : list string :=
  match s with
  | EmptyString => [EmptyString]
  | String c s' =>
      if Ascii.eqb c tab then EmptyString :: split_tab s'
      else match split_tab s' with
           | [] => [String c EmptyString]
           | w :: ws => String c w :: ws
           end
  end.

(** ['\t'.join(l)]. *)
Fixpoint join_tab (l : list string) : string :=
  match l with
  | [] => EmptyString
  | [x] => x
  | x :: l' => x +:+ String tab (join_tab l')
  end.

(** [l.index(x)]: the position of the first [x], ValueError without one. *)
Fixpoint index (x : string) (l : list string) : result nat :=
  match l with
  | [] => Throw ValueError
  | y :: l' =>
      if bool_decide (y = x) then Return 0
      else i ← index x l'; Return (S i)
  end.

(** [l[a:b]] for [0 <= a] and [0 <= b]. *)
Definition slice {A} (a b : nat) (l : list A) : list A := drop a (take b l).

(** [l[0]]. *)
Definition first {A} (l : list A) : result A :=
  match l with
  | [] => Throw IndexError
  | x :: _ => Return x
  end.

Definition header_message : string :=
  "Header should be empty for the key columns, except for the first, which should contain the group name".

(** ['Expected %d feature values, found %d' % (expected, found)]. *)
Definition values_message (expected found : nat) : string :=
  "Expected " +:+ pretty expected +:+ " feature values, found "
  +:+ pretty found.

Section Profiles.

(** The floating-point numbers, and [float(s)] on a string: without a value
    where Python raises ValueError. *)
Context {F : Type} (float : string → option F).

(** The attributes of a [Profiles] object.  [data] is the array
    [np.array(data)] of a list of rows; every [key_size] of this module is
    a length, or a length minus a position. *)
Record Profiles := {
  _keys : list (list string);
  data : list (list F);
  variables : list string;
  key_size : nat;
  group_name : option string;
}.

(** [self.data.shape[1]]: the array of a list of rows of one length has
    the two dimensions (rows, length); the array of no rows, and the array
    of rows of different lengths (an array of lists), has one dimension
    only. *)
Definition shape_1 (data : list (list F)) : result nat :=
  match data with
  | [] => Throw IndexError
  | r :: rs =>
      if forallb (λ r', length r' =? length r) rs then Return (length r)
      else Throw IndexError
  end.

(** [Profiles(keys, data, variables, key_size, group_name)].  The
    assertions on the types of the arguments hold by typing. *)
Definition __init__ (keys : list (list string)) (data : list (list F))
    (variables : list string) (key_size : option nat)
    (group_name : option string) : result Profiles :=
  key_size ← match key_size with
              | None => k ← first keys; Return (length k)
              | Some k => Return k
              end;
  Return {| _keys := keys; data := data; variables := variables;
            key_size := key_size; group_name := group_name |}.

(** The local variables of the loop of [load] and [load_csv]: those of the
    header are bound by the first round. *)
Record locals := {
  l_header : option (nat * list string * string);
  l_keys : list (list string);
  l_data : list (list F);
}.

(** The first round ([i == 0]): [key_size] is one more than the position of
    the last empty header (1 without any), the headers between the first and
    this position must be empty, the others are the variables. *)
Definition read_header (filename : string) (i : nat)
    (headers : list string) : result (nat * list string * string) :=
  key_size ←
    match (_ ← index "" headers;
           j ← index "" (reverse headers);
           Return (length headers - j))
    with
    | Throw ValueError => Return 1
    | r => r
    end;
  mapM (λ h : string,
          if bool_decide (h ≠ "")
          then Throw (InputError filename header_message (Some (i + 1)))
          else Return ())
       (slice 1 key_size headers);;
  let variables := drop key_size headers in
  group_name ← first headers;
  Return (key_size, variables, group_name).

(** The other rounds: one profile. *)
Definition read_row (filename : string) (i : nat)
    (key_size : nat) (variables : list string) (row : list string)
    : result (list string * list F) :=
  let key := take key_size row in
  let values := drop key_size row in
  if bool_decide (length values ≠ length variables)
  then Throw (InputError filename
                (values_message (length variables) (length values))
                (Some (i + 1)))
  else
    floats ← mapM (λ v, match float v with
                        | Some x => Return x
                        | None => Throw ValueError
                        end) values;
    Return (key, floats).

(** The body of the loop, on the cells of line [i]. *)
Definition read (filename : string) (st : locals) (i : nat)
    (row : list string) : result locals :=
  if (i =? 0)%nat then
    h ← read_header filename i row;
    Return {| l_header := Some h; l_keys := l_keys st;
              l_data := l_data st |}
  else
    match l_header st with
    | None => Throw UnboundLocalError
    | Some (key_size, variables, _) =>
        kd ← read_row filename i key_size variables row;
        Return {| l_header := l_header st; l_keys := l_keys st ++ [kd.1];
                  l_data := l_data st ++ [kd.2] |}
    end.

(** [return cls(keys, np.array(data), variables, key_size,
    group_name=group_name)]: without a first line the names are unbound. *)
Definition finish (st : locals) : result Profiles :=
  match l_header st with
  | None => Throw UnboundLocalError
  | Some (key_size, variables, group_name) =>
      __init__ (l_keys st) (l_data st) variables (Some key_size)
               (Some group_name)
  end.

Definition start : locals :=
  {| l_header := None; l_keys := []; l_data := [] |}.

(** [Profiles.load(filename)], on the lines of the file. *)
Definition load (filename : string) (lines : list string)
    : result Profiles :=
  st ← foldM (λ st il, read filename st il.1 (split_tab (rstrip il.2)))
         start (Py.enumerate lines);
  finish st.

(** [Profiles.load_csv(filename)], on the rows of the CSV reader.  The body
    of its loop is that of [load], statement by statement, on [row] instead
    of [line.split('\t')]. *)
Definition load_csv (filename : string) (rows : list (list string))
    : result Profiles :=
  st ← foldM (λ st ir, read filename st ir.1 ir.2)
         start (Py.enumerate rows);
  finish st.

(** [self.header()]. *)
Definition header (self : Profiles) : result (list string) :=
  let header :=
    [match group_name self with None => "" | Some g => g end]
    ++ replicate (key_size self - 1) "" ++ variables self in
  columns ← shape_1 (data self);
  if bool_decide (length header = key_size self + columns)
  then Return header
  else Throw AssertionError.

End Profiles.

Arguments Profiles F : clear implicits.

(** A small file: one key column, two variables.  The numbers of the
    example are integers. *)
Definition digit (c : Ascii.ascii) : option Z :=
  let n := Ascii.nat_of_ascii c in
  if (48 <=? n) && (n <=? 57) then Some (Z.of_nat (n - 48)) else None.

Fixpoint digits (acc : Z) (s : string) : option Z :=
  match s with
  | EmptyString => Some acc
  | String c s' => d ← digit c; digits (10 * acc + d)%Z s'
  end.

Definition number (s : string) : option Z :=
  match s with
  | EmptyString => None
  | _ => digits 0 s
  end.

Definition table : list (list string) :=
  [ ["Well"; ""; "area"; "count"];
    ["p1"; "A01"; "10"; "3"];
    ["p1"; "A02"; "12"; "5"] ].

End Prof.

(** ** Vocabulary of the statements *)

(** The sum of a list of counts. *)
Definition Zsum (l : list Z) : Z := foldr Z.add 0%Z l.

(** An array is sorted when it is non-decreasing. *)
Definition nondecreasing (a : list Z) : Prop :=
  ∀ i j x y, (i ≤ j)%nat → a !! i = Some x → a !! j = Some y → (x ≤ y)%Z.

(** A stored group key agrees with a query on every position of the query that
    is not the wildcard. *)
Definition agrees (stored query : list pyval) : Prop :=
  ∀ i q, query !! i = Some q → q ≠ ANY → stored !! i = Some q.

Section SumVocabulary.
Context {F : Type} (fzero : F) (fadd : F → F → F).

(** The value vectors of the images of group [g], in the order of
    [imdata.items()]. *)
Definition vectors_of (gm : gmap (list Z) (list pyval))
    (items : list (list Z * list F)) (g : list pyval) : list (list F) :=
  (filter (λ kv, gm !! kv.1 = Some g) items).*2.

(** The elementwise sum of vectors of width [nvals], accumulated from the
    zero vector in the order of the list. *)
Definition vsum (nvals : nat) (vs : list (list F)) : list F :=
  foldl (zip_with fadd) (vzeros fzero nvals) vs.

End SumVocabulary.

(** A row [(key components..., count)] of GetPerImageObjectCounts. *)
Definition row_key (r : list Z) : list Z := Py.but_last r.
Definition row_count (r : list Z) : Z := default 0%Z (last r).

(** What the model expects of the rows of per-image object counts: one row
    per image, counts that are non-negative, and a total within the range
    of the integer arrays. *)
Definition counts_ok (rows : list (list Z)) : Prop :=
  NoDup (row_key <$> rows)
  ∧ Forall (λ r, 0 ≤ row_count r)%Z rows
  ∧ (Zsum (row_count <$> rows) < 2 ^ 63)%Z.

(** The object counts in the order of [self.data.keys()]. *)
Definition counts_in_order (s : DataModel) : list Z := Py.values (data s).

(** The state of the sampler after population. *)
Record populated_inv (s : DataModel) : Prop := {
  inv_keylist : keylist s = Py.keys (data s);
  inv_cumSums : cumSums s = 0%Z :: Np.cumsum (counts_in_order s);
  inv_obCount : obCount s = Zsum (counts_in_order s);
  inv_nonneg : Forall (λ x, 0 ≤ x)%Z (counts_in_order s);
  inv_range : (obCount s < 2 ^ 63)%Z;
}.

(** The attributes the sampler reads. *)
Definition core (s : DataModel) :
    gmap (list Z) Z * list Z * Z * list (list Z) :=
  (data s, cumSums s, obCount s, keylist s).

(** A computation leaves related worlds behind, whatever its result. *)
Definition preserves {A} (R : relation World) (m : M A) : Prop :=
  ∀ w, R w (m w).2.

Definition same_core : relation World :=
  λ w w', core (self w') = core (self w).

(** The filter cache is untouched and no query was executed. *)
Definition same_cache : relation World :=
  λ w w', filterkeys (self w') = filterkeys (self w)
          ∧ ∀ q, CallExecute q ∈ db_log w' → CallExecute q ∈ db_log w.

(** A call of [db.GetObjectIDAtIndex] on an image of the model with objects,
    at a rank within its count. *)
Definition valid_lookup (s : DataModel) (c : db_call) : Prop :=
  ∃ imKey rank cnt,
    c = CallGetObjectIDAtIndex imKey rank
    ∧ data s !! imKey = Some cnt ∧ (1 ≤ rank ≤ cnt)%Z.

(** The state after [n] draws and the database calls [calls]; the model
    itself is as before. *)
Definition after_draws (w : World) (n : nat) (calls : list db_call) : World :=
  {| self := self w; entropy := entropy w; drawn := drawn w + n;
     db_log := db_log w ++ calls |}.

(** The database has an object at every rank within the count of an image
    of the model. *)
Definition lookups_succeed (d : DBConnect) (s : DataModel) : Prop :=
  ∀ imKey rank cnt,
    data s !! imKey = Some cnt → (1 ≤ rank ≤ cnt)%Z →
    ∃ obKey, db_GetObjectIDAtIndex d imKey rank = Ok obKey.

(** A call of [db.GetObjectIDAtIndex] on one of the images [imKeys]. *)
Definition lookup_within (imKeys : list (list Z)) (c : db_call) : Prop :=
  ∃ imKey rank, c = CallGetObjectIDAtIndex imKey rank ∧ imKey ∈ imKeys.

(** The header row of a table with the group name [g], [ks] key columns
    and the variables [vs]. *)
Definition header_cells (g : string) (ks : nat) (vs : list string)
    : list string :=
  g :: replicate (ks - 1) "" ++ vs.

(** [float] reads the strings [strs] as the numbers [xs]. *)
Definition reads {F} (float : string → option F) (strs : list string)
    (xs : list F) : Prop :=
  Forall2 (λ s x, float s = Some x) strs xs.

(** The cell has no tab. *)
Fixpoint no_tab (s : string) : bool :=
  match s with
  | EmptyString => true
  | String c s' => negb (Ascii.eqb c Prof.tab) && no_tab s'
  end.

(** The cell is not empty and does not end with white space. *)
Fixpoint ends_clean (s : string) : bool :=
  match s with
  | EmptyString => false
  | String c EmptyString => negb (Prof.is_space c)
  | String _ s' => ends_clean s'
  end.

(** A line as [save] prints it: the cells joined by tabs, then a newline. *)
Definition written (row : list string) : string :=
  Prof.join_tab row +:+ String Prof.newline "".

(** A row that [load] reads back from its line as it is. *)
Definition plain_row (row : list string) : Prop :=
  Forall (λ cell, no_tab cell = true) row
  ∧ ∃ cell, last row = Some cell ∧ ends_clean cell = true.

(** ** Running the monad *)

(** Closed equations are decided by evaluation in the virtual machine; the
    kernel checks the conversion when the proof is closed. *)
Ltac res_simpl := cbn [mbind mret Res_bind Res_ret].

Ltac by_vm_le := vm_compute; intros ?; discriminate.

Ltac by_vm :=
  lazymatch goal with
  | |- ?a = ?b => vm_cast_no_check (@eq_refl _ b)
  end.

Lemma bindM_unfold {A B} (f : A → M B) (m : M A) (w : World) :
  (m ≫= f) w = match m w with
               | (Ok a, w') => f a w'
               | (Raise e, w') => (Raise e, w')
               end.
Proof. reflexivity. Qed.

Lemma bindM_Ok {A B} (f : A → M B) (m : M A) (w w' : World) (a : A) :
  m w = (Ok a, w') → (m ≫= f) w = f a w'.
Proof. intros H. rewrite bindM_unfold, H. reflexivity. Qed.

Lemma bindM_Ok_inv {A B} (f : A → M B) (m : M A) (w w' : World) (b : B) :
  (m ≫= f) w = (Ok b, w') →
  ∃ a w1, m w = (Ok a, w1) ∧ f a w1 = (Ok b, w').
Proof.
  rewrite bindM_unfold. destruct (m w) as [[a|e] w1]; [eauto | discriminate].
Qed.

(** ** PopulateModel on a populated model *)

Lemma PopulateModel_nonempty db p w :
  IsEmpty (self w) = false → PopulateModel db p false w = (Ok (), w).
Proof.
  intros H. unfold PopulateModel.
  erewrite bindM_Ok by reflexivity. rewrite H. reflexivity.
Qed.

Lemma if_empty_populate_nonempty db p w :
  IsEmpty (self w) = false → _if_empty_populate db p w = (Ok (), w).
Proof. apply PopulateModel_nonempty. Qed.

(** ** Reverse lookup: GetImagesInGroup *)

Lemma reverse_lookup_unknown_group s group groupKey :
  revGroupMaps s !! group = None →
  reverse_lookup s group groupKey = Raise KeyError.
Proof. intros H. unfold reverse_lookup, Py.dictitem. rewrite H. reflexivity. Qed.

Lemma reverse_lookup_unknown_key s group groupKey rm :
  revGroupMaps s !! group = Some rm → rm !! groupKey = None →
  reverse_lookup s group groupKey = Raise KeyError.
Proof.
  intros H1 H2. unfold reverse_lookup, Py.dictitem. rewrite H1. cbn.
  rewrite H2. reflexivity.
Qed.

Lemma GetImagesInGroup_KeyError db p group groupKey filter w :
  IsEmpty (self w) = false →
  reverse_lookup (self w) group groupKey = Raise KeyError →
  GetImagesInGroup db p group groupKey filter w = (Ok (KeyList []), w).
Proof.
  intros Hne Hl. unfold GetImagesInGroup.
  erewrite bindM_Ok by (apply if_empty_populate_nonempty; exact Hne).
  erewrite bindM_Ok by reflexivity.
  rewrite Hl. reflexivity.
Qed.

(** C4, as amended: on a populated model the reverse lookup returns the empty
    list, without error and without touching the state, both when the group
    key is absent from the reverse map [rm] of a known group and when the
    group itself is absent: the [except KeyError] clause covers both
    subscripts. *)
Theorem GetImagesInGroup_unknown_is_empty db p group groupKey filter w rm :
  IsEmpty (self w) = false →
  (revGroupMaps (self w) !! group = Some rm ∧ rm !! groupKey = None)
  ∨ revGroupMaps (self w) !! group = None →
  GetImagesInGroup db p group groupKey filter w = (Ok (KeyList []), w).
Proof.
  intros Hne [[Hg Hk] | Hg]; apply GetImagesInGroup_KeyError; auto.
  - by eapply reverse_lookup_unknown_key.
  - by apply reverse_lookup_unknown_group.
Qed.

Lemma GetImagesInGroup_unknown_is_empty_witness :
  GetImagesInGroup (Some Example.db) Example.p "Well"
    [PInt 7; PStr "H12"] (Some "f") Example.populated
  = (Ok (KeyList []), Example.populated)
  ∧ GetImagesInGroup (Some Example.db) Example.p "Gene"
      Example.gA None Example.populated
    = (Ok (KeyList []), Example.populated).
Proof.
  split.
  - apply (GetImagesInGroup_unknown_is_empty _ _ _ _ _ _
             {[ Example.gA := [Example.e1]; Example.gB := [Example.e2];
                Example.gC := [Example.e3] ]}).
    + by_vm.
    + left. split; by_vm.
  - apply (GetImagesInGroup_unknown_is_empty _ _ _ _ _ _ ∅).
    + by_vm.
    + right. by_vm.
Defined.

(** C4 as stated fails: ["Gene"] is not a group of the populated model, and
    the lookup is not an error, it is the empty list. *)
Lemma GetImagesInGroup_unknown_group_no_error :
  revGroupMaps (self Example.populated) !! "Gene" = None
  ∧ (GetImagesInGroup (Some Example.db) Example.p "Gene"
       Example.gA None Example.populated).1 = Ok (KeyList [])
  ∧ ¬ ∃ e, (GetImagesInGroup (Some Example.db) Example.p "Gene"
              Example.gA None Example.populated).1 = Raise e.
Proof.
  assert (H : (GetImagesInGroup (Some Example.db) Example.p "Gene"
       Example.gA None Example.populated).1 = Ok (KeyList []))
    by by_vm.
  split; [by_vm|].
  split; [exact H|].
  intros [e He]. rewrite H in He. discriminate.
Qed.

(** ** DeleteModel *)

Lemma DeleteModel_eq w :
  DeleteModel w =
  (Ok (), with_self (λ s,
     {| data := ∅; groupMaps := ∅; revGroupMaps := revGroupMaps s;
        groupColNames := groupColNames s; groupColTypes := groupColTypes s;
        cumSums := []; obCount := 0; keylist := keylist s;
        filterkeys := filterkeys s |}) w).
Proof. reflexivity. Qed.

(** C3 fails on the code: after DeleteModel on a populated model with a filled
    filter cache, the four attributes it assigns are empty, and the key list,
    the reverse group maps, the column names and types and the filter cache
    are still there. *)
Theorem DeleteModel_keeps_derived_state :
  let s' := self (DeleteModel Example.filtered).2 in
  (data s' = ∅ ∧ groupMaps s' = ∅ ∧ cumSums s' = [] ∧ obCount s' = 0%Z)
  ∧ keylist s' = [Example.e3; Example.e1; Example.e2; Example.e4]
  ∧ revGroupMaps s' !! "Well"
    = Some {[ Example.gA := [Example.e1]; Example.gB := [Example.e2];
              Example.gC := [Example.e3] ]}
  ∧ groupColNames s' !! "Well" = Some ["plate"; "well"]
  ∧ groupColTypes s' !! "Well" = Some [TInt; TStr]
  ∧ filterkeys s' !! "f" = Some {[ Example.e1; Example.e2 ]}.
Proof.
  cbv zeta. repeat split; by_vm.
Qed.

(** ** Sums, wrap-around and cumulative sums *)

Lemma Zsum_cons x l : Zsum (x :: l) = (x + Zsum l)%Z.
Proof. reflexivity. Qed.

Lemma Zsum_app l1 l2 : Zsum (l1 ++ l2) = (Zsum l1 + Zsum l2)%Z.
Proof. induction l1 as [|x l1 IH]; simpl; lia. Qed.

Global Instance Zsum_perm : Proper ((≡ₚ) ==> (=)) Zsum.
Proof. induction 1; simpl; lia. Qed.

Lemma Zsum_nonneg l : Forall (λ x, 0 ≤ x)%Z l → (0 ≤ Zsum l)%Z.
Proof. induction 1; simpl; lia. Qed.

Lemma Zsum_take_le l i :
  Forall (λ x, 0 ≤ x)%Z l → (0 ≤ Zsum (take i l) ≤ Zsum l)%Z.
Proof.
  intros H. rewrite <- (take_drop i l) at 3. rewrite Zsum_app.
  pose proof (Zsum_nonneg (take i l) (Forall_take _ _ _ H)).
  pose proof (Zsum_nonneg (drop i l) (Forall_drop _ _ _ H)). lia.
Qed.

Lemma Zsum_take_mono l i j :
  Forall (λ x, 0 ≤ x)%Z l → (i ≤ j)%nat →
  (Zsum (take i l) ≤ Zsum (take j l))%Z.
Proof.
  intros H Hij.
  replace (take i l) with (take i (take j l))
    by (rewrite take_take; f_equal; lia).
  apply Zsum_take_le. by apply Forall_take.
Qed.

Lemma Zsum_take_S l i x :
  l !! i = Some x → Zsum (take (S i) l) = (Zsum (take i l) + x)%Z.
Proof.
  intros H. erewrite take_S_r by exact H. rewrite Zsum_app. simpl. lia.
Qed.

Lemma wrap64_small z : (- 2 ^ 63 ≤ z < 2 ^ 63)%Z → Np.wrap64 z = z.
Proof. intros H. unfold Np.wrap64. rewrite Z.mod_small; lia. Qed.

Lemma wrap64_add_l a b : Np.wrap64 (Np.wrap64 a + b) = Np.wrap64 (a + b).
Proof.
  unfold Np.wrap64. f_equal.
  replace ((a + 2 ^ 63) mod 2 ^ 64 - 2 ^ 63 + b + 2 ^ 63)%Z
    with ((a + 2 ^ 63) mod 2 ^ 64 + b)%Z by lia.
  rewrite Zplus_mod_idemp_l. f_equal. lia.
Qed.

Lemma length_cumsum_from acc l : length (Np.cumsum_from acc l) = length l.
Proof. revert acc. induction l as [|x l IH]; intros acc; simpl; auto. Qed.

Lemma cumsum_from_lookup acc l i :
  (i < length l)%nat →
  Np.cumsum_from acc l !! i = Some (Np.wrap64 (acc + Zsum (take (S i) l))).
Proof.
  revert acc i. induction l as [|x l IH]; intros acc i Hi; simpl in Hi.
  - lia.
  - destruct i as [|i]; simpl.
    + do 2 f_equal. lia.
    + rewrite IH by lia. rewrite wrap64_add_l. do 2 f_equal. lia.
Qed.

(** Without overflow the cumulative sums are the exact prefix sums. *)
Lemma cumsum_lookup_exact l i :
  Forall (λ x, 0 ≤ x)%Z l → (Zsum l < 2 ^ 63)%Z → (i < length l)%nat →
  Np.cumsum l !! i = Some (Zsum (take (S i) l)).
Proof.
  intros Hpos Hlt Hi. unfold Np.cumsum. rewrite cumsum_from_lookup by done.
  pose proof (Zsum_take_le l (S i) Hpos).
  rewrite wrap64_small; [done | lia].
Qed.

(** ** Binary search *)

Lemma binsearch_left_spec fuel a key lo hi :
  nondecreasing a →
  (lo ≤ hi ≤ length a)%nat → (hi - lo ≤ fuel)%nat →
  (∀ j x, (j < lo)%nat → a !! j = Some x → (x < key)%Z) →
  (∀ j x, (hi ≤ j)%nat → a !! j = Some x → (key ≤ x)%Z) →
  let r := Np.binsearch_left fuel a key lo hi in
  (lo ≤ r ≤ hi)%nat
  ∧ (∀ j x, (j < r)%nat → a !! j = Some x → (x < key)%Z)
  ∧ (∀ j x, (r ≤ j)%nat → a !! j = Some x → (key ≤ x)%Z).
Proof.
  intros Hsorted. revert lo hi.
  induction fuel as [|fuel IH]; intros lo hi Hb Hf Hlo Hhi;
    cbn [Np.binsearch_left]; cbv zeta.
  - assert (lo = hi) by lia. subst. eauto with lia.
  - destruct (Nat.ltb_spec lo hi) as [Hlt|Hge].
    + set (mid := (lo + (hi - lo) / 2)%nat).
      assert (lo ≤ mid < hi)%nat as Hmid.
      { unfold mid. pose proof (Nat.div_lt (hi - lo) 2). lia. }
      destruct (lookup_lt_is_Some_2 a mid) as [m Hm]; [lia|].
      rewrite (nth_lookup_Some _ _ _ _ Hm).
      destruct (Z.ltb_spec m key) as [Hmk|Hmk].
      * assert (∀ j x, (j < S mid)%nat → a !! j = Some x → (x < key)%Z)
          as Hlo'.
        { intros j x Hj Hx.
          assert (x ≤ m)%Z by (apply (Hsorted j mid); auto; lia). lia. }
        destruct (IH (S mid) hi ltac:(lia) ltac:(lia) Hlo' Hhi)
          as (H1 & H2 & H3).
        split; [lia|]. auto.
      * assert (∀ j x, (mid ≤ j)%nat → a !! j = Some x → (key ≤ x)%Z)
          as Hhi'.
        { intros j x Hj Hx.
          assert (m ≤ x)%Z by (apply (Hsorted mid j); auto; lia). lia. }
        destruct (IH lo mid ltac:(lia) ltac:(lia) Hlo Hhi')
          as (H1 & H2 & H3).
        split; [lia|]. auto.
    + assert (lo = hi) by lia. subst. eauto with lia.
Qed.

(** Sorted or not, the search stays within its interval. *)
Lemma binsearch_left_bound fuel a key lo hi :
  (lo ≤ hi)%nat →
  (lo ≤ Np.binsearch_left fuel a key lo hi ≤ hi)%nat.
Proof.
  revert lo hi. induction fuel as [|fuel IH]; intros lo hi Hb;
    cbn [Np.binsearch_left]; cbv zeta; [lia|].
  destruct (Nat.ltb_spec lo hi) as [Hlt|Hge]; [|lia].
  assert (lo ≤ lo + (hi - lo) / 2 < hi)%nat as Hmid
    by (pose proof (Nat.div_lt (hi - lo) 2); lia).
  destruct (_ <? _)%Z.
  - pose proof (IH (S (lo + (hi - lo) / 2)) hi ltac:(lia)). lia.
  - pose proof (IH lo (lo + (hi - lo) / 2)%nat ltac:(lia)). lia.
Qed.

(** On a sorted array, searchsorted 'left' is the leftmost index whose
    entry is at least [key] (the length if there is none). *)
Lemma searchsorted_left_spec a key :
  nondecreasing a →
  let r := Np.searchsorted_left a key in
  (r ≤ length a)%nat
  ∧ (∀ j x, (j < r)%nat → a !! j = Some x → (x < key)%Z)
  ∧ (∀ j x, (r ≤ j)%nat → a !! j = Some x → (key ≤ x)%Z).
Proof.
  intros Hs. unfold Np.searchsorted_left.
  destruct (binsearch_left_spec (length a) a key 0 (length a) Hs)
    as (H1 & H2 & H3); try lia.
  - intros j x Hj Hx. apply lookup_lt_Some in Hx. lia.
  - split; [lia|]. auto.
Qed.

(** ** Indexing *)

Lemma getitem_lookup {A} (l : list A) (i : nat) x :
  l !! i = Some x → Py.getitem l (Z.of_nat i) = Ok x.
Proof.
  intros H. pose proof (lookup_lt_Some _ _ _ H) as Hlt. unfold Py.getitem.
  destruct (Z.ltb_spec (Z.of_nat i) 0); [lia|].
  destruct (Z.ltb_spec (Z.of_nat i) 0); [lia|].
  destruct (Z.leb_spec (Z.of_nat (length l)) (Z.of_nat i)); [lia|].
  simpl. rewrite Nat2Z.id, H. reflexivity.
Qed.

Lemma setitem_lookup {A} (l : list A) (i : nat) x :
  (i < length l)%nat → Py.setitem l (Z.of_nat i) x = Ok (<[i := x]> l).
Proof.
  intros Hlt. unfold Py.setitem.
  destruct (Z.ltb_spec (Z.of_nat i) 0); [lia|].
  destruct (Z.ltb_spec (Z.of_nat i) 0); [lia|].
  destruct (Z.leb_spec (Z.of_nat (length l)) (Z.of_nat i)); [lia|].
  simpl. rewrite Nat2Z.id. reflexivity.
Qed.

Lemma dictitem_Some `{Countable K} {V} (m : gmap K V) k v :
  m !! k = Some v → Py.dictitem m k = Ok v.
Proof. intros E. unfold Py.dictitem. by rewrite E. Qed.

Lemma getitem_Ok_range {A} (l : list A) (i : Z) x :
  Py.getitem l i = Ok x →
  (- Z.of_nat (length l) ≤ i < Z.of_nat (length l))%Z.
Proof.
  unfold Py.getitem. cbv zeta. set (n := Z.of_nat (length l)).
  destruct (Z.ltb_spec i 0).
  - destruct (Z.ltb_spec (i + n) 0); cbn [orb]; [intros ?; congruence|].
    destruct (Z.leb_spec n (i + n)); [intros ?; congruence|]. lia.
  - destruct (Z.ltb_spec i 0); [lia|].
    destruct (Z.leb_spec n i); cbn [orb]; [intros ?; congruence|]. lia.
Qed.

Lemma getitem_Raise {A} (l : list A) (i : Z) e :
  Py.getitem l i = Raise e → e = IndexError.
Proof.
  unfold Py.getitem.
  destruct (_ || _); [congruence|]. destruct (l !! _); congruence.
Qed.

Lemma getitem_neg1 {A} (l : list A) :
  Py.getitem l (-1) =
  match last l with Some x => Ok x | None => Raise IndexError end.
Proof.
  unfold Py.getitem. cbv zeta. rewrite last_lookup.
  change (-1 <? 0)%Z with true. cbv iota.
  destruct l as [|y l]; [reflexivity|].
  set (n := Z.of_nat (length (y :: l))).
  assert (1 ≤ n)%Z by (unfold n; cbn [length]; lia).
  destruct (Z.ltb_spec (-1 + n) 0); [lia|].
  destruct (Z.leb_spec n (-1 + n)); [lia|]. cbn [orb].
  replace (Z.to_nat (-1 + n)) with (pred (length (y :: l)))
    by (unfold n; cbn [length]; lia).
  reflexivity.
Qed.

Lemma getitem_last {A} (l : list A) x :
  Py.getitem l (-1) = Ok x → last l = Some x.
Proof. rewrite getitem_neg1. destruct (last l); congruence. Qed.

Lemma getitem_last_Ok {A} (l : list A) x :
  last l = Some x → Py.getitem l (-1) = Ok x.
Proof. intros H. rewrite getitem_neg1, H. reflexivity. Qed.

(** ** The index computation of the weighted sampler *)

(** The loop stops at once where two neighbours differ. *)
Lemma first_of_repeated_stop fuel sums (i : nat) a b :
  sums !! S i = Some a → sums !! i = Some b → a ≠ b →
  first_of_repeated (S fuel) sums (Z.of_nat (S i)) = Ok (Z.of_nat (S i)).
Proof.
  intros Ha Hb Hab. cbn [first_of_repeated].
  rewrite (getitem_lookup _ _ _ Ha). cbn.
  replace (Z.of_nat (S i) - 1)%Z with (Z.of_nat i) by lia.
  rewrite (getitem_lookup _ _ _ Hb). cbn.
  destruct (Z.eqb_spec a b); [contradiction | reflexivity].
Qed.

(** The loop never reaches its bound: it returns or raises IndexError. *)
Lemma first_of_repeated_terminates fuel sums imIdx :
  (Z.max 0 (imIdx + Z.of_nat (length sums)) < Z.of_nat fuel)%Z →
  first_of_repeated fuel sums imIdx ≠ Raise LoopBound.
Proof.
  revert imIdx. induction fuel as [|fuel IH]; intros imIdx Hf; [lia|].
  cbn [first_of_repeated].
  destruct (Py.getitem sums imIdx) as [a|e] eqn:Ea; cbn.
  - destruct (Py.getitem sums (imIdx - 1)) as [b|e] eqn:Eb; cbn.
    + apply getitem_Ok_range in Ea, Eb.
      destruct (a =? b)%Z; [apply IH; lia | discriminate].
    + apply getitem_Raise in Eb. congruence.
  - apply getitem_Raise in Ea. congruence.
Qed.

(** The bound given to the loop is never what ends the index computation:
    whatever the array and the draw, it returns or raises a Python
    exception. *)
Lemma first_of_repeated_after_search sums t :
  first_of_repeated (loop_bound sums) sums
    (Z.of_nat (Np.searchsorted_left sums t)) ≠ Raise LoopBound.
Proof.
  apply first_of_repeated_terminates. unfold loop_bound, Np.searchsorted_left.
  pose proof (binsearch_left_bound (length sums) sums t 0 (length sums)
                ltac:(lia)). lia.
Qed.

Lemma locate_object_total sums ks t :
  locate_object sums ks t ≠ Raise LoopBound.
Proof.
  unfold locate_object. cbv zeta.
  pose proof (first_of_repeated_after_search sums t) as Hloop.
  destruct (first_of_repeated _ _ _) as [i|e]; res_simpl; [|congruence].
  destruct (Py.getitem ks (i - 1)) as [k|e] eqn:E1; res_simpl.
  - destruct (Py.getitem sums (i - 1)) as [c|e] eqn:E2; res_simpl;
      [discriminate|].
    apply getitem_Raise in E2. congruence.
  - apply getitem_Raise in E1. congruence.
Qed.

Lemma locate_in_subset_total sums imKeys t :
  locate_in_subset sums imKeys t ≠ Raise LoopBound.
Proof.
  unfold locate_in_subset. cbv zeta.
  pose proof (first_of_repeated_after_search sums t) as Hloop.
  destruct (_ =? 0)%Z; res_simpl.
  - destruct (Py.getitem imKeys _) as [k|e] eqn:E1; res_simpl;
      [discriminate|]. apply getitem_Raise in E1. congruence.
  - destruct (first_of_repeated _ _ _) as [i|e]; res_simpl; [|congruence].
    destruct (Py.getitem sums (i - 1)) as [c|e] eqn:E2; res_simpl.
    + destruct (Py.getitem imKeys i) as [k|e] eqn:E1; res_simpl;
        [discriminate|]. apply getitem_Raise in E1. congruence.
    + apply getitem_Raise in E2. congruence.
Qed.

(** The cumulative sums of non-negative counts below [2 ^ 63], with the
    leading zero of [cumSums]. *)
Lemma sums_lookup counts i :
  Forall (λ x, 0 ≤ x)%Z counts → (Zsum counts < 2 ^ 63)%Z →
  (i ≤ length counts)%nat →
  (0%Z :: Np.cumsum counts) !! i = Some (Zsum (take i counts)).
Proof.
  intros Hpos Hlt Hi. destruct i as [|i]; [reflexivity|].
  cbn [lookup list_lookup]. apply cumsum_lookup_exact; auto with lia.
Qed.

Lemma sums_nondecreasing counts :
  Forall (λ x, 0 ≤ x)%Z counts → (Zsum counts < 2 ^ 63)%Z →
  nondecreasing (0%Z :: Np.cumsum counts).
Proof.
  intros Hpos Hlt i j x y Hij Hx Hy.
  assert (j ≤ length counts)%nat.
  { apply lookup_lt_Some in Hy. cbn in Hy.
    unfold Np.cumsum in Hy. rewrite length_cumsum_from in Hy. lia. }
  rewrite sums_lookup in Hx, Hy by (auto; lia).
  injection Hx as <-. injection Hy as <-. by apply Zsum_take_mono.
Qed.

(** The heart of C1: for a draw [t] in [1, total], the search lands on the
    entry [S i] of the cumulative sums whose image [i] has a positive count,
    the loop over repeated sums makes no round, and the rank is within the
    count of that image. *)
Lemma locate_object_spec counts ks t :
  Forall (λ x, 0 ≤ x)%Z counts → (Zsum counts < 2 ^ 63)%Z →
  length ks = length counts →
  (1 ≤ t ≤ Zsum counts)%Z →
  ∃ i k c,
    Np.searchsorted_left (0%Z :: Np.cumsum counts) t = S i
    ∧ ks !! i = Some k ∧ counts !! i = Some c
    ∧ (0 < c)%Z
    ∧ (1 ≤ t - Zsum (take i counts) ≤ c)%Z
    ∧ locate_object (0%Z :: Np.cumsum counts) ks t
      = Ok (k, (t - Zsum (take i counts))%Z).
Proof.
  intros Hpos Hlt Hlen Ht.
  set (sums := 0%Z :: Np.cumsum counts).
  assert (length sums = S (length counts)) as Hls.
  { unfold sums, Np.cumsum. cbn. by rewrite length_cumsum_from. }
  destruct (searchsorted_left_spec sums t (sums_nondecreasing _ Hpos Hlt))
    as (Hr & Hbelow & Habove).
  unfold locate_object. fold sums.
  set (r := Np.searchsorted_left sums t) in *.
  destruct r as [|i].
  { (* the leading zero is below every draw *)
    pose proof (Habove 0%nat 0%Z (Nat.le_refl _) eq_refl). lia. }
  assert (i < length counts)%nat as Hi.
  { destruct (decide (i < length counts)%nat) as [|Hn]; [done|].
    assert (i = length counts) as -> by lia.
    pose proof (Hbelow (length counts) _ ltac:(lia)
                  (sums_lookup counts _ Hpos Hlt (Nat.le_refl _))) as H.
    rewrite firstn_all in H. lia. }
  destruct (lookup_lt_is_Some_2 counts i Hi) as [c Hc].
  destruct (lookup_lt_is_Some_2 ks i ltac:(lia)) as [k Hk].
  pose proof (sums_lookup counts i Hpos Hlt ltac:(lia)) as Hsi.
  pose proof (sums_lookup counts (S i) Hpos Hlt ltac:(lia)) as HsSi.
  rewrite (Zsum_take_S _ _ _ Hc) in HsSi.
  pose proof (Hbelow i _ ltac:(lia) Hsi) as Hlo.
  pose proof (Habove (S i) _ ltac:(lia) HsSi) as Hhi.
  pose proof (Zsum_take_le counts i Hpos) as Hrange.
  exists i, k, c. repeat split; try done; try lia.
  replace (loop_bound sums) with (S (2 * length sums + 1))
    by (unfold loop_bound; lia).
  rewrite (first_of_repeated_stop _ sums i _ _ HsSi Hsi) by lia. res_simpl.
  replace (Z.of_nat (S i) - 1)%Z with (Z.of_nat i) by lia.
  rewrite (getitem_lookup _ _ _ Hk). res_simpl.
  rewrite (getitem_lookup sums _ _ Hsi). res_simpl.
  rewrite wrap64_small by lia. reflexivity.
Qed.

(** ** Loops and frames *)

Lemma for_modify {A} (f : A → DataModel → DataModel) l w :
  for_ l (λ x, modify_self (f x)) w
  = (Ok (), with_self (λ s, foldl (λ s x, f x s) s l) w).
Proof.
  revert w. induction l as [|x l IH]; intros w.
  - destruct w; reflexivity.
  - cbn [for_ foldl]. erewrite bindM_Ok by reflexivity. rewrite IH.
    reflexivity.
Qed.

Lemma for_Ok_ind {A} (I : list A → World → Prop) (body : A → M unit) :
  (∀ x rest w w', I (x :: rest) w → body x w = (Ok (), w') → I rest w') →
  ∀ l w w', I l w → for_ l body w = (Ok (), w') → I [] w'.
Proof.
  intros Hstep l. induction l as [|x l IH]; intros w w' HI H.
  - cbn in H. injection H as <-. exact HI.
  - cbn [for_] in H. apply bindM_Ok_inv in H as ([] & w1 & H1 & H).
    eapply IH; [|exact H]. eapply Hstep; eauto.
Qed.

Section Preserves.
Context (R : relation World) `{!PreOrder R}.

Lemma preserves_ret {A} (a : A) : preserves R (mret a).
Proof. intros w. cbn. reflexivity. Qed.

Lemma preserves_lift {A} (r : Res A) : preserves R (lift r).
Proof. intros w. cbn. reflexivity. Qed.

Lemma preserves_get : preserves R get_self.
Proof. intros w. cbn. reflexivity. Qed.

Lemma preserves_bind {A B} (m : M A) (f : A → M B) :
  preserves R m → (∀ a, preserves R (f a)) → preserves R (m ≫= f).
Proof.
  intros Hm Hf w. rewrite bindM_unfold. specialize (Hm w).
  destruct (m w) as [[a|e] w1]; cbn in *; [|done].
  etrans; [exact Hm | apply Hf].
Qed.

Lemma preserves_for {A} (l : list A) (body : A → M unit) :
  (∀ x, preserves R (body x)) → preserves R (for_ l body).
Proof.
  intros Hb. induction l as [|x l IH]; cbn [for_].
  - apply preserves_ret.
  - apply preserves_bind; auto.
Qed.

Lemma preserves_if {A} (b : bool) (m1 m2 : M A) :
  preserves R m1 → preserves R m2 → preserves R (if b then m1 else m2).
Proof. by destruct b. Qed.

End Preserves.

Global Instance same_core_preorder : PreOrder same_core.
Proof.
  split; [by intros w | intros w1 w2 w3 H1 H2; unfold same_core in *].
  congruence.
Qed.

Global Instance same_cache_preorder : PreOrder same_cache.
Proof.
  split; [by intros w | intros w1 w2 w3 [H1 H1'] [H2 H2']; split].
  - congruence.
  - auto.
Qed.

Lemma same_core_call {A} c (r : Res A) : preserves same_core (call c r).
Proof. by intros w. Qed.

Lemma same_core_modify f :
  (∀ s, core (f s) = core s) → preserves same_core (modify_self f).
Proof. intros H w. apply H. Qed.

Lemma same_cache_call {A} c (r : Res A) :
  (∀ q, c ≠ CallExecute q) → preserves same_cache (call c r).
Proof.
  intros Hc w. split; [done|]. cbn. intros q Hq.
  apply elem_of_app in Hq as [Hq|Hq]; [done|].
  apply list_elem_of_singleton in Hq. by destruct (Hc q).
Qed.

Lemma same_cache_modify f :
  (∀ s, filterkeys (f s) = filterkeys s) →
  preserves same_cache (modify_self f).
Proof. intros H w. split; [apply H | done]. Qed.

(** PopulateModel never touches the filter cache and never executes a filter
    query, whatever it does otherwise. *)
Lemma PopulateModel_same_cache db p delete_model :
  preserves same_cache (PopulateModel db p delete_model).
Proof.
  unfold PopulateModel.
  apply preserves_bind; [apply _| |].
  { destruct delete_model.
    - apply preserves_bind; [apply _| |intros; apply preserves_ret; apply _].
      unfold DeleteModel.
      repeat (apply preserves_bind; [apply _| |intros ?]);
        by apply same_cache_modify.
    - apply preserves_bind; [apply _|apply preserves_get; apply _|].
      intros; apply preserves_ret; apply _. }
  intros [|]; [apply preserves_ret; apply _|].
  destruct db as [d|]; [|apply preserves_ret; apply _].
  unfold init_counts, count_objects, build_cumSums, load_groups.
  repeat first
    [ apply preserves_bind; [apply _| |intros ?]
    | apply preserves_if
    | apply preserves_for; [apply _|intros ?]
    | apply preserves_ret; apply _
    | apply preserves_get; apply _
    | apply preserves_lift; apply _
    | apply same_cache_call; intros ?; discriminate
    | by apply same_cache_modify
    | unfold count_row, add_cumSum, set_group_types ].
Qed.

Lemma load_groups_same_core d : preserves same_core (load_groups d).
Proof.
  unfold load_groups.
  repeat first
    [ apply preserves_bind; [apply _| |intros ?]
    | apply preserves_for; [apply _|intros ?]
    | apply preserves_ret; apply _
    | apply preserves_get; apply _
    | apply preserves_lift; apply _
    | apply same_core_call
    | by apply same_core_modify
    | unfold set_group_types ].
Qed.

(** ** Sums over the values of a dictionary *)

Lemma values_insert_None (m : gmap (list Z) Z) k c :
  m !! k = None → Py.values (<[k := c]> m) ≡ₚ c :: Py.values m.
Proof.
  intros H. unfold Py.values, Py.items.
  rewrite (map_to_list_insert m k c H). reflexivity.
Qed.

Lemma values_insert_Some (m : gmap (list Z) Z) k c v :
  m !! k = Some v →
  ∃ l, Py.values m ≡ₚ v :: l ∧ Py.values (<[k := c]> m) ≡ₚ c :: l.
Proof.
  intros H. exists (Py.values (delete k m)). split.
  - unfold Py.values, Py.items. rewrite <- (map_to_list_delete m k v H).
    reflexivity.
  - rewrite <- insert_delete_eq. apply values_insert_None.
    apply lookup_delete_eq.
Qed.

Lemma values_lookup (m : gmap (list Z) Z) k v :
  m !! k = Some v → v ∈ Py.values m.
Proof.
  intros H. unfold Py.values, Py.items. apply list_elem_of_fmap.
  exists (k, v). split; [done|]. by apply elem_of_map_to_list.
Qed.

(** Writing [c] over an absent or zero entry adds [c] to the sum and keeps
    the values non-negative. *)
Lemma values_insert_over_zero (m : gmap (list Z) Z) k c :
  default 0%Z (m !! k) = 0%Z → (0 ≤ c)%Z →
  Zsum (Py.values (<[k := c]> m)) = (Zsum (Py.values m) + c)%Z
  ∧ (Forall (λ x, 0 ≤ x)%Z (Py.values m) →
     Forall (λ x, 0 ≤ x)%Z (Py.values (<[k := c]> m))).
Proof.
  intros Hz Hc. destruct (m !! k) as [v|] eqn:E; cbn in Hz.
  - subst v. destruct (values_insert_Some m k c 0%Z E) as (l & H1 & H2).
    rewrite H1, H2. split; [rewrite !Zsum_cons; lia|].
    rewrite !Forall_cons. intros [_ H]. auto.
  - rewrite (values_insert_None m k c E). split; [rewrite Zsum_cons; lia|].
    rewrite Forall_cons. auto.
Qed.

Lemma items_lookup (m : gmap (list Z) Z) i k c :
  Py.keys m !! i = Some k → Py.values m !! i = Some c → m !! k = Some c.
Proof.
  unfold Py.keys, Py.values, Py.items. rewrite !list_lookup_fmap.
  destruct (map_to_list m !! i) as [[k' c']|] eqn:E; cbn; [|done].
  intros [= <-] [= <-]. apply elem_of_map_to_list.
  by eapply list_elem_of_lookup_2.
Qed.

(** ** The blocks of PopulateModel *)

Lemma zero_fold (l : list (list Z)) (s : DataModel) :
  Forall (λ x, x = 0%Z) (Py.values (data s)) →
  let s' := foldl (λ s key, set_data (<[key := 0%Z]> (data s)) s) s l in
  Forall (λ x, x = 0%Z) (Py.values (data s')) ∧ obCount s' = obCount s.
Proof.
  revert s. induction l as [|k l IH]; intros s Hz; cbn [foldl]; [done|].
  cbv zeta in IH.
  destruct (IH (set_data (<[k := 0%Z]> (data s)) s)) as [H1 H2]; [|done].
  cbn [data set_data]. destruct (data s !! k) as [v|] eqn:E.
  - destruct (values_insert_Some (data s) k 0%Z v E) as (l0 & Hm & Hi).
    rewrite Hi. rewrite Hm in Hz. apply Forall_cons in Hz as [_ Hz].
    by constructor.
  - rewrite (values_insert_None _ _ _ E). by constructor.
Qed.

Lemma init_counts_zero d w r w' :
  init_counts d w = (r, w') →
  Forall (λ x, x = 0%Z) (Py.values (data (self w))) →
  Forall (λ x, x = 0%Z) (Py.values (data (self w')))
  ∧ obCount (self w') = obCount (self w).
Proof.
  unfold init_counts. rewrite bindM_unfold. unfold call.
  destruct (db_GetAllImageKeys d) as [imKeys|e].
  - rewrite for_modify. intros [= <- <-] Hz. cbn [self with_self].
    by apply zero_fold.
  - intros [= <- <-] Hz. done.
Qed.

Lemma count_row_Ok r w w' :
  count_row r w = (Ok (), w') →
  last r = Some (row_count r)
  ∧ w' = with_self (λ s,
           set_obCount (obCount s + row_count r)
             (set_data (<[row_key r := row_count r]> (data s)) s)) w.
Proof.
  unfold count_row. rewrite bindM_unfold. unfold lift.
  destruct (Py.getitem r (-1)) as [c|e] eqn:E; [|intros ?; congruence].
  apply getitem_last in E. unfold row_count. rewrite E. cbn [default].
  intros [= <-]. split; reflexivity.
Qed.

Lemma all_zero_lookup (m : gmap (list Z) Z) k :
  Forall (λ x, x = 0%Z) (Py.values m) → default 0%Z (m !! k) = 0%Z.
Proof.
  intros Hz. destruct (m !! k) as [v|] eqn:E; [|done]. cbn.
  rewrite Forall_forall in Hz. apply Hz. by eapply values_lookup.
Qed.

Lemma all_zero_sum l : Forall (λ x, x = 0%Z) l → Zsum l = 0%Z.
Proof. induction 1 as [|x l -> _ IH]; [done|]. rewrite Zsum_cons. lia. Qed.

Lemma all_zero_nonneg l :
  Forall (λ x, x = 0%Z) l → Forall (λ x, 0 ≤ x)%Z l.
Proof. intros H. eapply Forall_impl; [exact H|]. intros x ->. lia. Qed.

(** The loop over the rows: every row writes its count over an absent or
    zero entry, so the sum of the values follows [obCount]. *)
Lemma count_rows_inv rows w w' :
  counts_ok rows →
  Forall (λ x, x = 0%Z) (Py.values (data (self w))) →
  obCount (self w) = 0%Z →
  for_ rows count_row w = (Ok (), w') →
  obCount (self w') = Zsum (Py.values (data (self w')))
  ∧ Forall (λ x, 0 ≤ x)%Z (Py.values (data (self w')))
  ∧ obCount (self w') = Zsum (row_count <$> rows).
Proof.
  intros (Hnd & Hpos & _) Hz H0 Hfor.
  set (T := Zsum (row_count <$> rows)).
  set (I := λ (rest : list (list Z)) (w : World),
    Zsum (Py.values (data (self w))) = obCount (self w)
    ∧ Forall (λ x, 0 ≤ x)%Z (Py.values (data (self w)))
    ∧ (∀ r, r ∈ rest → default 0%Z (data (self w) !! row_key r) = 0%Z)
    ∧ (obCount (self w) + Zsum (row_count <$> rest))%Z = T
    ∧ NoDup (row_key <$> rest)
    ∧ Forall (λ r, 0 ≤ row_count r)%Z rest).
  assert (I [] w') as (H1 & H2 & _ & H4 & _).
  { apply (for_Ok_ind I count_row) with (l := rows) (w := w);
      [| |exact Hfor].
    - intros r rest w1 w2 (J1 & J2 & J3 & J4 & J5 & J6) Hrow.
      apply count_row_Ok in Hrow as [_ ->]. cbn [fmap list_fmap] in J4, J5.
      rewrite Zsum_cons in J4.
      apply NoDup_cons in J5 as [Hnotin J5].
      apply Forall_cons in J6 as [Hc J6].
      destruct (values_insert_over_zero (data (self w1)) (row_key r)
                  (row_count r)) as [S1 S2]; [apply J3; left|done|].
      unfold I. cbn [self with_self data obCount set_obCount set_data].
      repeat split; try done.
      + lia.
      + by apply S2.
      + intros r' Hr'. rewrite lookup_insert_ne; [apply J3; by right|].
        intros Heq. apply Hnotin. rewrite Heq.
        apply list_elem_of_fmap. eauto.
      + lia.
    - unfold I. repeat split; try done.
      + rewrite all_zero_sum by done. lia.
      + by apply all_zero_nonneg.
      + intros r _. by apply all_zero_lookup.
      + lia. }
  cbn in H4. repeat split; try done; lia.
Qed.

Lemma count_objects_inv d rows w w' :
  db_GetPerImageObjectCounts d = Ok rows → counts_ok rows →
  Forall (λ x, x = 0%Z) (Py.values (data (self w))) →
  obCount (self w) = 0%Z →
  count_objects d w = (Ok (), w') →
  obCount (self w') = Zsum (Py.values (data (self w')))
  ∧ Forall (λ x, 0 ≤ x)%Z (Py.values (data (self w')))
  ∧ obCount (self w') = Zsum (row_count <$> rows).
Proof.
  intros Hdb Hok Hz H0. unfold count_objects. rewrite bindM_unfold.
  unfold call. rewrite Hdb. intros Hfor.
  by eapply count_rows_inv in Hfor.
Qed.

(** One round of the loop over [enumerate(self.keylist)]: entry [i + 1] of
    the array becomes entry [i] plus the count of the image. *)
Lemma add_cumSum_step (pre : list Z) (a c : Z) (n : nat) k w :
  cumSums (self w) = pre ++ a :: replicate (S n) 0%Z →
  data (self w) !! k = Some c →
  add_cumSum (length pre, k) w
  = (Ok (), with_self (set_cumSums
              ((pre ++ [a]) ++ Np.wrap64 (a + c) :: replicate n 0%Z)) w).
Proof.
  intros Hcs Hk. unfold add_cumSum. cbn [fst snd].
  erewrite bindM_Ok by reflexivity. rewrite Hcs.
  erewrite bindM_Ok; cycle 1.
  { unfold lift. f_equal. apply getitem_lookup.
    rewrite lookup_app_r by lia. by rewrite Nat.sub_diag. }
  erewrite bindM_Ok; cycle 1.
  { unfold lift, Py.dictitem. rewrite Hk. reflexivity. }
  erewrite bindM_Ok; cycle 1.
  { unfold lift. f_equal.
    replace (Z.of_nat (length pre) + 1)%Z with (Z.of_nat (length pre + 1))
      by lia.
    apply setitem_lookup. rewrite length_app. cbn. lia. }
  unfold modify_self. do 3 f_equal.
  rewrite insert_app_r. cbn. by rewrite <- app_assoc.
Qed.

Lemma add_cumSum_loop (rest : list (list Z)) :
  ∀ (pre : list Z) (a : Z) (cnts : list Z) w,
  Forall2 (λ k c, data (self w) !! k = Some c) rest cnts →
  cumSums (self w) = pre ++ a :: replicate (length rest) 0%Z →
  for_ (imap (λ j x, (length pre + j, x)%nat) rest) add_cumSum w
  = (Ok (), with_self (set_cumSums (pre ++ a :: Np.cumsum_from a cnts)) w).
Proof.
  induction rest as [|k rest IH]; intros pre a cnts w Hd Hcs.
  - apply Forall2_nil_inv_l in Hd as ->. cbn.
    cbn in Hcs. unfold retM, with_self. destruct w as [s en dr lg].
    cbn in *. do 2 f_equal. destruct s; cbn in *; by subst.
  - apply Forall2_cons_inv_l in Hd as (c & cnts' & Hk & Hd & ->).
    rewrite imap_cons. cbn [for_]. rewrite Nat.add_0_r.
    erewrite bindM_Ok by (by apply add_cumSum_step).
    rewrite (imap_ext _ (λ j x, (length (pre ++ [a]) + j, x)%nat));
      [|intros; cbn; rewrite length_app; cbn; f_equal; lia].
    rewrite (IH (pre ++ [a]) (Np.wrap64 (a + c)) cnts'); [| done | done].
    cbn [Np.cumsum_from]. rewrite <- app_assoc. reflexivity.
Qed.

Lemma keys_values_lookup (m : gmap (list Z) Z) :
  Forall2 (λ k c, m !! k = Some c) (Py.keys m) (Py.values m).
Proof.
  unfold Py.keys, Py.values, Py.items.
  apply Forall2_fmap, Forall_Forall2_diag, Forall_forall.
  intros [k c] H. by apply elem_of_map_to_list.
Qed.

Lemma build_cumSums_eq w :
  keylist (self w) = Py.keys (data (self w)) →
  build_cumSums w
  = (Ok (), with_self (set_cumSums
              (0%Z :: Np.cumsum (Py.values (data (self w))))) w).
Proof.
  intros Hk. unfold build_cumSums.
  erewrite bindM_Ok by reflexivity. erewrite bindM_Ok by reflexivity.
  cbn [self with_self keylist set_cumSums]. rewrite Hk. unfold Py.enumerate.
  rewrite (add_cumSum_loop _ [] 0%Z (Py.values (data (self w)))).
  - reflexivity.
  - apply keys_values_lookup.
  - cbn [self with_self cumSums set_cumSums app]. unfold Np.zeros.
    unfold Py.keys, Py.items. rewrite length_fmap, length_map_to_list.
    by rewrite Nat.add_1_r.
Qed.

(** ** PopulateModel establishes the invariant of the sampler *)

Lemma PopulateModel_establishes d p rows w0 w :
  data (self w0) = ∅ → obCount (self w0) = 0%Z →
  db_GetPerImageObjectCounts d = Ok rows → counts_ok rows →
  PopulateModel (Some d) p false w0 = (Ok (), w) →
  populated_inv (self w) ∧ obCount (self w) = Zsum (row_count <$> rows).
Proof.
  intros Hdata Hob Hdb Hok. unfold PopulateModel.
  erewrite bindM_Ok by reflexivity.
  unfold IsEmpty. rewrite bool_decide_eq_true_2 by done. cbn [negb].
  intros H.
  apply bindM_Ok_inv in H as ([] & w1 & H1 & H).
  assert (self w1 = self w0) as Hs1.
  { destruct (bool_decide _); cbn in H1.
    - by injection H1 as _ <-.
    - by injection H1 as <-. }
  apply bindM_Ok_inv in H as ([] & w2 & H2 & H).
  assert (Forall (λ x, x = 0%Z) (Py.values (data (self w1)))) as Hz1.
  { rewrite Hs1, Hdata. unfold Py.values, Py.items.
    rewrite map_to_list_empty. constructor. }
  destruct (init_counts_zero _ _ _ _ H2 Hz1) as [Hz2 Ho2].
  apply bindM_Ok_inv in H as ([] & w3 & H3 & H).
  destruct (count_objects_inv _ _ _ _ Hdb Hok Hz2 ltac:(congruence) H3)
    as (Hsum & Hpos & Htot).
  apply bindM_Ok_inv in H as ([] & w4 & H4 & H).
  injection H4 as <-.
  apply bindM_Ok_inv in H as ([] & w5 & H5 & H).
  rewrite build_cumSums_eq in H5 by reflexivity. injection H5 as <-.
  match type of H with
  | load_groups d ?w5 = _ =>
      pose proof (load_groups_same_core d w5) as Hcore
  end.
  rewrite H in Hcore.
  unfold same_core, core in Hcore. cbn in Hcore.
  injection Hcore as Ed Ec Eo Ek.
  destruct Hok as (_ & _ & Hlt).
  split; [split|]; unfold counts_in_order; rewrite ?Ed, ?Ec, ?Eo, ?Ek;
    try done; lia.
Qed.

Lemma keys_total_values (m : gmap (list Z) Z) :
  (λ k, m !!! k) <$> Py.keys m = Py.values m.
Proof.
  pose proof (keys_values_lookup m) as H.
  induction H as [|k c ks cs Hk _ IH]; [done|].
  cbn [fmap list_fmap]. rewrite IH, lookup_total_alt, Hk. reflexivity.
Qed.

Lemma length_keys_values (m : gmap (list Z) Z) :
  length (Py.keys m) = size m ∧ length (Py.values m) = size m.
Proof.
  unfold Py.keys, Py.values, Py.items.
  by rewrite !length_fmap, length_map_to_list.
Qed.

(** C5: after [PopulateModel()] on a new instance, for a database whose
    per-image counts are one row per image, non-negative and of a total below
    [2 ^ 63]: the cumulative-sum array has length N+1 for the N keys, starts
    with 0, its entry [i] is the sum of the counts of the first [i] keys of
    [keylist], it is non-decreasing, and its last entry is [obCount], which
    is the sum of all the counts of [data]. *)
Theorem PopulateModel_cumSums d p rows w0 w :
  self w0 = DataModel_init →
  db_GetPerImageObjectCounts d = Ok rows → counts_ok rows →
  PopulateModel (Some d) p false w0 = (Ok (), w) →
  let s := self w in
  let N := length (keylist s) in
  N = size (data s)
  ∧ length (cumSums s) = S N
  ∧ cumSums s !! 0%nat = Some 0%Z
  ∧ (∀ i, (i ≤ N)%nat →
       cumSums s !! i
       = Some (Zsum ((λ k, data s !!! k) <$> take i (keylist s))))
  ∧ nondecreasing (cumSums s)
  ∧ last (cumSums s) = Some (obCount s)
  ∧ obCount s = Zsum (Py.values (data s))
  ∧ obCount s = Zsum ((λ k, data s !!! k) <$> keylist s).
Proof.
  intros Hinit Hdb Hok Hpop. cbv zeta.
  destruct (PopulateModel_establishes d p rows w0 w) as [[Hk Hc Ho Hpos Hr] _];
    try done; try (rewrite Hinit; reflexivity).
  unfold counts_in_order in *. rewrite Ho in Hr.
  destruct (length_keys_values (data (self w))) as [Lk Lv].
  rewrite Hk, Hc. cbn [length]. unfold Np.cumsum at 1.
  rewrite length_cumsum_from, Lk, Lv.
  repeat split; try done.
  - intros i Hi. rewrite fmap_take, keys_total_values.
    apply sums_lookup; auto. lia.
  - by apply sums_nondecreasing.
  - rewrite last_lookup. cbn [length Init.Nat.pred].
    unfold Np.cumsum at 1. rewrite length_cumsum_from.
    rewrite sums_lookup by (auto; lia).
    rewrite firstn_all. by rewrite Ho.
  - by rewrite keys_total_values.
Qed.

Lemma Example_counts_ok :
  counts_ok [[0; 1; 2]; [0; 2; 0]; [0; 3; 3]]%Z.
Proof.
  split; [|split].
  - compute_done.
  - repeat constructor; compute_done.
  - compute_done.
Qed.

Lemma Example_populates :
  PopulateModel (Some Example.db) Example.p false Example.fresh
  = (Ok (), Example.populated).
Proof.
  assert ((PopulateModel (Some Example.db) Example.p false Example.fresh).1
          = Ok ()) as H by by_vm.
  unfold Example.populated.
  destruct (PopulateModel (Some Example.db) Example.p false Example.fresh)
    as [r w]. cbn in H. by subst r.
Qed.

Example Example_cumSums :
  cumSums (self Example.populated) = [0; 3; 5; 5; 5]%Z
  ∧ keylist (self Example.populated)
    = [Example.e3; Example.e1; Example.e2; Example.e4]
  ∧ obCount (self Example.populated) = 5%Z.
Proof. repeat split; by_vm. Qed.

Lemma PopulateModel_cumSums_witness :
  let s := self Example.populated in
  length (cumSums s) = S (length (keylist s))
  ∧ cumSums s !! 0%nat = Some 0%Z
  ∧ nondecreasing (cumSums s)
  ∧ last (cumSums s) = Some (obCount s)
  ∧ obCount s = Zsum (Py.values (data s)).
Proof.
  pose proof (PopulateModel_cumSums Example.db Example.p _ Example.fresh
                Example.populated eq_refl eq_refl Example_counts_ok
                Example_populates) as (_ & H1 & H2 & _ & H3 & H4 & H5 & _).
  cbv zeta. tauto.
Defined.

(** C1: on a model populated as in C5, for every drawn [t] with
    [1 <= t <= obCount], the index computation of GetRandomObject returns
    the key at position [i] of [self.data.keys()] and the rank
    [t - cumSums[i]] (that is [imIdx = i + 1]), the count [c] of that image
    is strictly positive and the rank is between 1 and [c]: an image without
    objects is never selected. *)
Theorem GetRandomObject_selects_positive_count d p rows w0 w t :
  self w0 = DataModel_init →
  db_GetPerImageObjectCounts d = Ok rows → counts_ok rows →
  PopulateModel (Some d) p false w0 = (Ok (), w) →
  (1 ≤ t ≤ obCount (self w))%Z →
  let s := self w in
  ∃ (i : nat) (imKey : list Z) (c prev : Z),
    Np.searchsorted_left (cumSums s) t = S i
    ∧ Py.keys (data s) !! i = Some imKey
    ∧ cumSums s !! i = Some prev
    ∧ locate_object (cumSums s) (Py.keys (data s)) t
      = Ok (imKey, (t - prev)%Z)
    ∧ data s !! imKey = Some c
    ∧ (0 < c)%Z
    ∧ (1 ≤ t - prev ≤ c)%Z.
Proof.
  intros Hinit Hdb Hok Hpop Ht. cbv zeta.
  destruct (PopulateModel_establishes d p rows w0 w) as [[Hk Hc Ho Hpos Hr] _];
    try done; try (rewrite Hinit; reflexivity).
  unfold counts_in_order in *. rewrite Ho in Hr, Ht.
  destruct (length_keys_values (data (self w))) as [Lk Lv].
  destruct (locate_object_spec (Py.values (data (self w)))
              (Py.keys (data (self w))) t Hpos Hr ltac:(congruence) Ht)
    as (i & k & c & Hs & Hki & Hci & Hcpos & Hrank & Hloc).
  exists i, k, c, (Zsum (take i (Py.values (data (self w))))).
  rewrite Hc. repeat split; try done; try lia.
  - apply sums_lookup; auto. apply lookup_lt_Some in Hci. lia.
  - by eapply items_lookup.
Qed.

Lemma GetRandomObject_selects_positive_count_witness :
  ∃ (i : nat) (imKey : list Z) (c prev : Z),
    Np.searchsorted_left (cumSums (self Example.populated)) 4 = S i
    ∧ Py.keys (data (self Example.populated)) !! i = Some imKey
    ∧ cumSums (self Example.populated) !! i = Some prev
    ∧ locate_object (cumSums (self Example.populated))
        (Py.keys (data (self Example.populated))) 4
      = Ok (imKey, (4 - prev)%Z)
    ∧ data (self Example.populated) !! imKey = Some c
    ∧ (0 < c)%Z
    ∧ (1 ≤ 4 - prev ≤ c)%Z.
Proof.
  apply (GetRandomObject_selects_positive_count Example.db Example.p _
           Example.fresh Example.populated 4 eq_refl eq_refl
           Example_counts_ok Example_populates).
  split; by_vm_le.
Defined.

(** ** Subset sampling *)

Lemma mapM_dictitem (m : gmap (list Z) Z) ks cs :
  Forall2 (λ k c, m !! k = Some c) ks cs →
  mapM (Py.dictitem m) ks = Ok cs.
Proof.
  induction 1 as [|k c ks cs Hk _ IH]; [reflexivity|].
  unfold Py.dictitem in *. cbn [mapM]. rewrite Hk. res_simpl.
  rewrite IH. reflexivity.
Qed.

Lemma cumsum_last counts :
  counts ≠ [] →
  Py.getitem (Np.cumsum counts) (-1) = Ok (Np.wrap64 (Zsum counts)).
Proof.
  intros Hne. apply getitem_last_Ok. rewrite last_lookup.
  unfold Np.cumsum. rewrite length_cumsum_from.
  destruct counts as [|c counts]; [done|]. cbn [length Init.Nat.pred].
  rewrite cumsum_from_lookup by (cbn; lia).
  change (S (length counts)) with (length (c :: counts)).
  rewrite firstn_all. reflexivity.
Qed.

(** C2: on a populated model, GetRandomObjects with a list of image keys that
    are all in [self.data] and whose counts sum to 0 (the empty list
    included) returns the empty list, for any [N], without raising and
    without touching the state or the database. *)
Theorem GetRandomObjects_zero_subset db p N imKeys counts w :
  IsEmpty (self w) = false →
  Forall2 (λ k c, data (self w) !! k = Some c) imKeys counts →
  Zsum counts = 0%Z →
  GetRandomObjects db p N (Some imKeys) w = (Ok [], w).
Proof.
  intros Hne Hks Hsum. unfold GetRandomObjects.
  erewrite bindM_Ok by (by apply if_empty_populate_nonempty).
  destruct imKeys as [|k imKeys]; [reflexivity|].
  erewrite bindM_Ok by reflexivity.
  erewrite bindM_Ok by (unfold lift; by rewrite (mapM_dictitem _ _ _ Hks)).
  erewrite bindM_Ok; cycle 1.
  { unfold lift. rewrite cumsum_last; [reflexivity|].
    intros ->. by apply Forall2_nil_inv_r in Hks. }
  rewrite Hsum. reflexivity.
Qed.

Lemma GetRandomObjects_zero_subset_witness :
  GetRandomObjects (Some Example.db) Example.p 5
    (Some [Example.e2; Example.e4; Example.e2]) Example.populated
  = (Ok [], Example.populated)
  ∧ GetRandomObjects (Some Example.db) Example.p 5 (Some [])
      Example.populated
    = (Ok [], Example.populated).
Proof.
  split.
  - apply (GetRandomObjects_zero_subset _ _ _ _ [0; 0; 0]%Z).
    + by_vm.
    + repeat constructor; by_vm.
    + reflexivity.
  - apply (GetRandomObjects_zero_subset _ _ _ _ []).
    + by_vm.
    + constructor.
    + reflexivity.
Defined.

(** ** Idempotence of PopulateModel *)

(** C9: when a first [PopulateModel()] leaves the model populated, a second
    call changes nothing: the two calls in sequence end in the very state
    (and database log) the first call ended in. *)
Theorem PopulateModel_idempotent db p w w1 :
  PopulateModel db p false w = (Ok (), w1) →
  IsEmpty (self w1) = false →
  PopulateModel db p false w1 = (Ok (), w1)
  ∧ (PopulateModel db p false;; PopulateModel db p false) w = (Ok (), w1).
Proof.
  intros H1 Hne.
  assert (PopulateModel db p false w1 = (Ok (), w1)) as H2
    by (by apply PopulateModel_nonempty).
  split; [done|]. by erewrite bindM_Ok by exact H1.
Qed.

Lemma PopulateModel_idempotent_witness :
  PopulateModel (Some Example.db) Example.p false Example.populated
  = (Ok (), Example.populated)
  ∧ (PopulateModel (Some Example.db) Example.p false;;
     PopulateModel (Some Example.db) Example.p false) Example.fresh
    = (Ok (), Example.populated).
Proof.
  apply PopulateModel_idempotent.
  - exact Example_populates.
  - by_vm.
Defined.

(** ** Wildcard lookup *)

Lemma has_wildcard_elem groupKey :
  has_wildcard groupKey = true ↔ ANY ∈ groupKey.
Proof.
  unfold has_wildcard. rewrite existsb_exists. split.
  - intros (b & Hin & Hb). apply bool_decide_eq_true_1 in Hb as ->.
    by apply list_elem_of_In.
  - intros Hin. exists ANY. split; [by apply list_elem_of_In|].
    by apply bool_decide_eq_true_2.
Qed.

(** [matches] against a query that is not longer than the stored key is
    agreement on the positions of the query that are not wildcards. *)
Lemma matches_agrees stored query :
  length query ≤ length stored →
  matches stored query = true ↔ agrees stored query.
Proof.
  unfold matches, agrees. revert query.
  induction stored as [|a stored IH]; intros [|b query] Hlen;
    cbn in Hlen; try lia; cbn [zip zip_with forallb].
  - split; [intros _ i q Hq; by rewrite lookup_nil in Hq | done].
  - split; [intros _ i q Hq; by rewrite lookup_nil in Hq | done].
  - rewrite andb_true_iff, orb_true_iff, !bool_decide_eq_true.
    rewrite (IH query) by lia. cbn [fst snd]. split.
    + intros [Hab Hrest] [|i] q Hq Hnot; cbn in *.
      * injection Hq as ->. destruct Hab as [->|]; done.
      * by apply Hrest.
    + intros H. split.
      * destruct (decide (b = ANY)) as [|Hne]; [by right|left].
        specialize (H 0%nat b eq_refl Hne). by injection H.
      * intros i q Hq Hnot. by apply (H (S i)).
Qed.

(** What the accumulation loop collects. *)
Lemma accumulate_matching groupKey (items : list (list pyval * list (list Z)))
    acc e :
  e ∈ foldl (λ acc gi, if matches gi.1 groupKey then acc ++ gi.2 else acc)
        acc items
  ↔ e ∈ acc
    ∨ ∃ g ikeys, (g, ikeys) ∈ items ∧ matches g groupKey = true ∧ e ∈ ikeys.
Proof.
  revert acc. induction items as [|[g ikeys] items IH]; intros acc;
    cbn [foldl fst snd].
  - split; [by left|]. intros [?|(? & ? & H & _)]; [done|].
    by apply elem_of_nil in H.
  - rewrite IH. setoid_rewrite elem_of_cons.
    destruct (matches g groupKey) eqn:Em.
    + rewrite elem_of_app. split.
      * intros [[?|?]|(g' & ik' & ? & ? & ?)]; eauto 10.
      * intros [?|(g' & ik' & [[= -> ->]|?] & ? & ?)]; eauto 10.
    + split.
      * intros [?|(g' & ik' & ? & ? & ?)]; eauto 10.
      * intros [?|(g' & ik' & [[= -> ->]|?] & ? & ?)]; eauto 10.
        congruence.
Qed.

(** C6: on a populated model, for a known group and a query with a wildcard
    that is not longer than the stored group keys, the wildcard lookup
    returns, without touching the state, a list whose elements are exactly
    the image keys stored under the group keys that agree with the query on
    every position that is not a wildcard. *)
Theorem wildcard_lookup_is_union db p group groupKey filter w rm :
  IsEmpty (self w) = false →
  revGroupMaps (self w) !! group = Some rm →
  has_wildcard groupKey = true →
  map_Forall (λ g _, length groupKey ≤ length g) rm →
  ∃ l,
    GetImagesInGroupWithWildcards db p group groupKey filter w
    = (Ok (KeyList l), w)
    ∧ ∀ e, e ∈ l ↔
        ∃ g ikeys, rm !! g = Some ikeys ∧ agrees g groupKey ∧ e ∈ ikeys.
Proof.
  intros Hne Hrm Hw Hlen. eexists. split.
  - unfold GetImagesInGroupWithWildcards.
    erewrite bindM_Ok by (by apply if_empty_populate_nonempty).
    rewrite Hw. erewrite bindM_Ok by reflexivity.
    erewrite bindM_Ok
      by (unfold lift, Py.dictitem; rewrite Hrm; reflexivity).
    reflexivity.
  - intros e. rewrite accumulate_matching. unfold Py.items. split.
    + intros [H|(g & ikeys & Hin & Hm & He)]; [by apply elem_of_nil in H|].
      apply elem_of_map_to_list in Hin. exists g, ikeys.
      repeat split; try done.
      apply matches_agrees; [|done]. by apply (Hlen g ikeys).
    + intros (g & ikeys & Hin & Hag & He). right. exists g, ikeys.
      repeat split; try done.
      * by apply elem_of_map_to_list.
      * apply matches_agrees; [|done]. by apply (Hlen g ikeys).
Qed.

(** The example of the specification: group keys [(0,'A01')], [(0,'A02')]
    and [(1,'A01')] of the images [e1], [e2] and [e3]. *)
Example wildcard_lookup_example :
  (GetImagesInGroupWithWildcards (Some Example.db) Example.p "Well"
     [ANY; PStr "A01"] None Example.populated).1
  = Ok (KeyList [Example.e1; Example.e3]).
Proof. by_vm. Qed.

Lemma wildcard_lookup_is_union_witness :
  ∃ l,
    GetImagesInGroupWithWildcards (Some Example.db) Example.p "Well"
      [ANY; PStr "A01"] None Example.populated
    = (Ok (KeyList l), Example.populated)
    ∧ ∀ e, e ∈ l ↔
        ∃ g ikeys,
          ({[ Example.gA := [Example.e1]; Example.gB := [Example.e2];
              Example.gC := [Example.e3] ]}
             : gmap (list pyval) (list (list Z))) !! g = Some ikeys
          ∧ agrees g [ANY; PStr "A01"] ∧ e ∈ ikeys.
Proof.
  apply wildcard_lookup_is_union.
  - by_vm.
  - by_vm.
  - reflexivity.
  - compute_done.
Defined.

(** C10: for a query with a wildcard, the result and the state left behind
    are the same for any two filter arguments, and the call leaves the
    filter cache as it was and executes no filter query on the database. *)
Theorem wildcard_lookup_ignores_filter db p group groupKey f1 f2 w :
  has_wildcard groupKey = true →
  GetImagesInGroupWithWildcards db p group groupKey f1 w
  = GetImagesInGroupWithWildcards db p group groupKey f2 w
  ∧ same_cache w (GetImagesInGroupWithWildcards db p group groupKey f1 w).2.
Proof.
  intros Hw. split.
  - unfold GetImagesInGroupWithWildcards. by rewrite Hw.
  - revert w. change (preserves same_cache
      (GetImagesInGroupWithWildcards db p group groupKey f1)).
    unfold GetImagesInGroupWithWildcards, _if_empty_populate. rewrite Hw.
    apply preserves_bind; [apply _|apply PopulateModel_same_cache|].
    intros _. apply preserves_bind; [apply _|apply preserves_get; apply _|].
    intros s. apply preserves_bind; [apply _|apply preserves_lift; apply _|].
    intros rm. apply preserves_ret; apply _.
Qed.

Lemma wildcard_lookup_ignores_filter_witness :
  GetImagesInGroupWithWildcards (Some Example.db) Example.p "Well"
    [ANY; PStr "A01"] (Some "f") Example.populated
  = GetImagesInGroupWithWildcards (Some Example.db) Example.p "Well"
      [ANY; PStr "A01"] None Example.populated
  ∧ same_cache Example.populated
      (GetImagesInGroupWithWildcards (Some Example.db) Example.p "Well"
         [ANY; PStr "A01"] (Some "f") Example.populated).2.
Proof. apply wildcard_lookup_ignores_filter. reflexivity. Defined.

(** ** SumToGroup *)

Section SumToGroupProofs.
Context {F : Type} (fzero : F) (fadd : F → F → F).
Context (s : DataModel) (group : string) (nvals : nat).

(** The bodies of the two loops. *)
Local Abbreviation init_step :=
  (λ (groupData : gmap (list pyval) (list F)) (imKey : list Z),
     g ← group_of s group imKey;
     mret (<[g := vzeros fzero nvals]> groupData)).

Local Abbreviation sum_step :=
  (λ (groupData : gmap (list pyval) (list F)) (kv : list Z * list F),
     g ← group_of s group kv.1;
     cur ← Py.dictitem groupData g;
     new ← iadd fadd cur kv.2;
     mret (<[g := new]> groupData)).

Lemma group_of_Ok (gm : gmap (list Z) (list pyval)) k g :
  groupMaps s !! group = Some gm → gm !! k = Some g →
  group_of s group k = Ok g.
Proof.
  intros Hg Hk. unfold group_of, Py.dictitem. rewrite Hg. res_simpl.
  by rewrite Hk.
Qed.

Lemma group_of_Raise k e : group_of s group k = Raise e → e = KeyError.
Proof.
  unfold group_of, Py.dictitem.
  destruct (groupMaps s !! group) as [gm|]; res_simpl; [|congruence].
  destruct (gm !! k); congruence.
Qed.

Lemma group_of_unknown (gm : gmap (list Z) (list pyval)) k :
  groupMaps s !! group = Some gm → gm !! k = None →
  group_of s group k = Raise KeyError.
Proof.
  intros Hg Hk. unfold group_of, Py.dictitem. rewrite Hg. res_simpl.
  by rewrite Hk.
Qed.

(** The first loop gives every group of an input image the zero vector. *)
Lemma init_loop_Ok (gm : gmap (list Z) (list pyval)) (keys : list (list Z))
    (gd : gmap (list pyval) (list F)) :
  groupMaps s !! group = Some gm →
  Forall (λ k, is_Some (gm !! k)) keys →
  ∃ gd', foldlM init_step gd keys = Ok gd'
    ∧ (∀ g, g ∈ omap (λ k, gm !! k) keys →
            gd' !! g = Some (vzeros fzero nvals))
    ∧ (∀ g, g ∉ omap (λ k, gm !! k) keys → gd' !! g = gd !! g).
Proof.
  intros Hg Hks. revert gd.
  induction Hks as [|k keys [g0 Hk] _ IH]; intros gd.
  - exists gd. split; [reflexivity|]. split; [|done].
    intros g Hin. by apply elem_of_nil in Hin.
  - cbn [foldlM]. rewrite (group_of_Ok gm k g0 Hg Hk). res_simpl.
    destruct (IH (<[g0 := vzeros fzero nvals]> gd)) as (gd' & Hrun & Hin & Hout).
    exists gd'. split; [done|]. cbn [omap list_omap]. rewrite Hk.
    split; intros g Hgin.
    + destruct (decide (g ∈ omap (λ k, gm !! k) keys)) as [|Hn]; [auto|].
      apply elem_of_cons in Hgin as [->|]; [|done].
      rewrite (Hout g0 Hn). apply lookup_insert_eq.
    + apply not_elem_of_cons in Hgin as [Hne Hn].
      rewrite (Hout g Hn). by apply lookup_insert_ne.
Qed.

(** An image without a group stops the first loop with KeyError. *)
Lemma init_loop_KeyError (keys : list (list Z))
    (gd : gmap (list pyval) (list F)) :
  Exists (λ k, group_of s group k = Raise KeyError) keys →
  foldlM init_step gd keys = Raise KeyError.
Proof.
  intros Hex. revert gd. induction keys as [|k keys IH]; intros gd.
  - by apply Exists_nil in Hex.
  - cbn [foldlM]. destruct (group_of s group k) as [g|e] eqn:E; res_simpl.
    + apply IH. apply Exists_cons in Hex as [H|H]; [congruence|done].
    + by rewrite (group_of_Raise k e E).
Qed.

Lemma iadd_same (a b : list F) :
  length b = length a → iadd fadd a b = Ok (zip_with fadd a b).
Proof. intros H. unfold iadd. by rewrite decide_True. Qed.

Lemma iadd_broadcast (a : list F) (y : F) :
  length a ≠ 1 → iadd fadd a [y] = Ok ((λ x, fadd x y) <$> a).
Proof. intros H. unfold iadd. rewrite decide_False; [done|]. cbn. lia. Qed.

Lemma iadd_mismatch (a b : list F) :
  length b ≠ length a → length b ≠ 1 → iadd fadd a b = Raise ValueError.
Proof.
  intros H1 H2. unfold iadd. rewrite decide_False by done.
  destruct b as [|y [|z b]]; cbn in *; done.
Qed.

Lemma length_iadd (a b r : list F) :
  iadd fadd a b = Ok r → length r = length a.
Proof.
  unfold iadd. destruct (decide (length b = length a)) as [E|_].
  - intros [= <-]. rewrite length_zip_with. lia.
  - destruct b as [|y [|z b]]; try congruence.
    intros [= <-]. by rewrite length_fmap.
Qed.

(** The second loop adds every vector to the running sum of its group. *)
Lemma sum_loop_Ok (gm : gmap (list Z) (list pyval))
    (items : list (list Z * list F))
    (gd : gmap (list pyval) (list F)) :
  groupMaps s !! group = Some gm →
  Forall (λ kv, length kv.2 = nvals
                ∧ ∃ g, gm !! kv.1 = Some g ∧ is_Some (gd !! g)) items →
  map_Forall (λ _ v, length v = nvals) gd →
  ∃ gd', foldlM sum_step gd items = Ok gd'
    ∧ ∀ g, gd' !! g
           = (λ v, foldl (zip_with fadd) v (vectors_of gm items g))
               <$> gd !! g.
Proof.
  intros Hg. revert gd.
  induction items as [|[k vals] items IH]; intros gd Hit Hlen.
  - exists gd. split; [done|]. intros g. unfold vectors_of. cbn.
    by destruct (gd !! g).
  - apply Forall_cons in Hit as [(Hv & g0 & Hk & [cur Hcur]) Hit].
    cbn [fst snd] in *.
    cbn [foldlM]. cbn [fst snd]. rewrite (group_of_Ok gm k g0 Hg Hk).
    res_simpl. rewrite (dictitem_Some _ _ _ Hcur). res_simpl.
    pose proof (Hlen g0 cur Hcur) as Hlc. cbn in Hlc.
    rewrite iadd_same by congruence. res_simpl.
    destruct (IH (<[g0 := zip_with fadd cur vals]> gd)) as (gd' & Hrun & Hval).
    { eapply Forall_impl; [exact Hit|]. intros [k' v'] (? & g' & ? & Hs).
      split; [done|]. exists g'. split; [done|].
      rewrite lookup_insert_is_Some. destruct (decide (g0 = g')); auto. }
    { apply map_Forall_insert_2; [|done]. rewrite length_zip_with. lia. }
    exists gd'. split; [done|]. intros g. rewrite Hval. unfold vectors_of.
    destruct (decide (g = g0)) as [->|Hne].
    + rewrite lookup_insert_eq, Hcur. cbn [fmap option_fmap option_map].
      rewrite filter_cons_True by done. reflexivity.
    + rewrite lookup_insert_ne by done.
      rewrite filter_cons_False; [done|]. cbn. congruence.
Qed.

(** A vector whose length is neither the width of the sums nor 1 stops the
    second loop with ValueError; vectors of length 1 before it are
    broadcast. *)
Lemma sum_loop_ValueError (gm : gmap (list Z) (list pyval))
    (items : list (list Z * list F))
    (gd : gmap (list pyval) (list F)) :
  groupMaps s !! group = Some gm →
  Forall (λ kv, ∃ g, gm !! kv.1 = Some g ∧ is_Some (gd !! g)) items →
  map_Forall (λ _ v, length v = nvals) gd →
  Exists (λ kv, length kv.2 ≠ nvals ∧ length kv.2 ≠ 1) items →
  foldlM sum_step gd items = Raise ValueError.
Proof.
  intros Hg. revert gd.
  induction items as [|[k vals] items IH]; intros gd Hit Hlen Hex.
  - by apply Exists_nil in Hex.
  - apply Forall_cons in Hit as [(g0 & Hk & [cur Hcur]) Hit].
    cbn [fst snd] in *.
    cbn [foldlM]. cbn [fst snd]. rewrite (group_of_Ok gm k g0 Hg Hk).
    res_simpl. rewrite (dictitem_Some _ _ _ Hcur). res_simpl.
    pose proof (Hlen g0 cur Hcur) as Hlc. cbn in Hlc.
    destruct (iadd fadd cur vals) as [new|e] eqn:E; res_simpl.
    + apply IH.
      * eapply Forall_impl; [exact Hit|]. intros [k' v'] (g' & ? & Hs).
        exists g'. split; [done|].
        rewrite lookup_insert_is_Some. destruct (decide (g0 = g')); auto.
      * apply map_Forall_insert_2; [|done].
        rewrite (length_iadd _ _ _ E). done.
      * apply Exists_cons in Hex as [[H1 H2]|]; [|done]. cbn in H1, H2.
        rewrite iadd_mismatch in E by congruence. discriminate.
    + unfold iadd in E. destruct (decide _); [discriminate|].
      destruct vals as [|y [|z vals]]; congruence.
Qed.

End SumToGroupProofs.

Lemma keys_elem `{Countable K} {V} (m : gmap K V) k :
  k ∈ Py.keys m ↔ is_Some (m !! k).
Proof.
  unfold Py.keys, Py.items. rewrite list_elem_of_fmap. split.
  - intros ([k' v] & -> & Hin). apply elem_of_map_to_list in Hin. by exists v.
  - intros [v Hv]. exists (k, v). split; [done|].
    by apply elem_of_map_to_list.
Qed.

Lemma values_first `{Countable K} {V} (m : gmap K V) :
  m ≠ ∅ → ∃ k first, Py.values m !! 0%nat = Some first ∧ m !! k = Some first.
Proof.
  intros Hne. unfold Py.values, Py.items.
  destruct (map_to_list m) as [|[k v] l] eqn:E.
  - by apply map_to_list_empty_iff in E.
  - exists k, v. split; [done|]. apply elem_of_map_to_list. rewrite E. left.
Qed.

Section SumToGroupTheorems.
Context {F : Type} (fzero : F) (fadd : F → F → F).

(** C7, as amended: on a populated model, for a known group and a non-empty
    input map whose vectors all have width [nvals] and whose images all have
    a group, SumToGroup returns a map whose keys are exactly the group keys
    of the input images, and whose value at a group key is the elementwise
    sum of the vectors of the input images of that group, accumulated from
    the zero vector in the order of [imdata.items()]. *)
Theorem SumToGroup_sums (db : option DBConnect) (p : Properties) (w : World)
    (imdata : gmap (list Z) (list F)) (group : string)
    (gm : gmap (list Z) (list pyval)) (nvals : nat) :
  IsEmpty (self w) = false →
  imdata ≠ ∅ →
  groupMaps (self w) !! group = Some gm →
  map_Forall (λ k vals, length vals = nvals ∧ is_Some (gm !! k)) imdata →
  ∃ groupData,
    SumToGroup db p fzero fadd imdata group w = (Ok groupData, w)
    ∧ (∀ g, is_Some (groupData !! g)
            ↔ ∃ k, is_Some (imdata !! k) ∧ gm !! k = Some g)
    ∧ (∀ g v, groupData !! g = Some v →
              v = vsum fzero fadd nvals (vectors_of gm (Py.items imdata) g)).
Proof.
  intros Hne Hdata Hg Hall.
  destruct (values_first imdata Hdata) as (k1 & first & Hfirst & Hk1).
  destruct (Hall k1 first Hk1) as [Hlen _]. cbn in Hlen. subst nvals.
  (* the first loop *)
  destruct (init_loop_Ok fzero (self w) group (length first) gm
              (Py.keys imdata) ∅ Hg) as (gd0 & Hrun0 & Hin0 & Hout0).
  { apply Forall_forall. intros k Hk. apply keys_elem in Hk as [v Hv].
    by destruct (Hall k v Hv). }
  assert (∀ g, g ∈ omap (λ k, gm !! k) (Py.keys imdata)
               ↔ ∃ k, is_Some (imdata !! k) ∧ gm !! k = Some g) as Hgroups.
  { intros g. rewrite list_elem_of_omap. by setoid_rewrite keys_elem. }
  (* the second loop *)
  destruct (sum_loop_Ok fadd (self w) group (length first) gm
              (Py.items imdata) gd0 Hg) as (gd & Hrun & Hval).
  { apply Forall_forall. intros [k v] Hkv. cbn [fst snd].
    apply elem_of_map_to_list in Hkv. destruct (Hall k v Hkv) as [Hl [g Hgk]].
    split; [done|]. exists g. split; [done|].
    rewrite Hin0; [done|]. apply Hgroups. exists k. by rewrite Hkv. }
  { intros g v Hv.
    destruct (decide (g ∈ omap (λ k, gm !! k) (Py.keys imdata))) as [Hi|Hn].
    - rewrite (Hin0 g Hi) in Hv. injection Hv as <-.
      apply length_replicate.
    - rewrite (Hout0 g Hn), lookup_empty in Hv. done. }
  pose proof (getitem_lookup _ 0%nat _ Hfirst) as Hget.
  change (Z.of_nat 0) with 0%Z in Hget.
  exists gd. split; [|split].
  - unfold SumToGroup.
    erewrite bindM_Ok by (by apply if_empty_populate_nonempty).
    erewrite bindM_Ok by reflexivity.
    erewrite bindM_Ok by (unfold lift; by rewrite Hget).
    cbv zeta. erewrite bindM_Ok by (unfold lift; by rewrite Hrun0).
    unfold lift. by rewrite Hrun.
  - intros g. rewrite Hval, <- Hgroups, fmap_is_Some.
    destruct (decide (g ∈ omap (λ k, gm !! k) (Py.keys imdata))) as [Hi|Hn].
    + by rewrite (Hin0 g Hi).
    + rewrite (Hout0 g Hn), lookup_empty. split; [by intros [? ?]|done].
  - intros g v. rewrite Hval.
    destruct (decide (g ∈ omap (λ k, gm !! k) (Py.keys imdata))) as [Hi|Hn].
    + rewrite (Hin0 g Hi). cbn. by intros [= <-].
    + rewrite (Hout0 g Hn), lookup_empty. done.
Qed.

(** C8, as amended: on a populated model, for a known group and an input
    map whose first vector (in the order of [imdata.values()]) is [first]:
    an image of the input without a group raises KeyError; when all images
    have a group, a vector whose length is neither that of [first] nor 1
    raises ValueError.  In both cases the state is untouched. *)
Theorem SumToGroup_errors (db : option DBConnect) (p : Properties) (w : World)
    (imdata : gmap (list Z) (list F)) (group : string)
    (gm : gmap (list Z) (list pyval)) (first : list F) :
  IsEmpty (self w) = false →
  groupMaps (self w) !! group = Some gm →
  Py.values imdata !! 0%nat = Some first →
  ((∃ k, is_Some (imdata !! k) ∧ gm !! k = None) →
   SumToGroup db p fzero fadd imdata group w = (Raise KeyError, w))
  ∧ (map_Forall (λ k _, is_Some (gm !! k)) imdata →
     (∃ k v, imdata !! k = Some v
             ∧ length v ≠ length first ∧ length v ≠ 1) →
     SumToGroup db p fzero fadd imdata group w = (Raise ValueError, w)).
Proof.
  intros Hne Hg Hfirst.
  assert (∀ r : Res (gmap (list pyval) (list F)),
    (groupData ← foldlM (λ groupData imKey,
         g ← group_of (self w) group imKey;
         mret (<[g := vzeros fzero (length first)]> groupData))
       (∅ : gmap (list pyval) (list F)) (Py.keys imdata);
     foldlM (λ groupData kv,
         g ← group_of (self w) group kv.1;
         cur ← Py.dictitem groupData g;
         new ← iadd fadd cur kv.2;
         mret (<[g := new]> groupData))
       groupData (Py.items imdata)) = r →
    SumToGroup db p fzero fadd imdata group w = (r, w)) as Hrun.
  { pose proof (getitem_lookup _ 0%nat _ Hfirst) as Hget.
    change (Z.of_nat 0) with 0%Z in Hget.
    intros r <-. unfold SumToGroup.
    erewrite bindM_Ok by (by apply if_empty_populate_nonempty).
    erewrite bindM_Ok by reflexivity.
    erewrite bindM_Ok by (unfold lift; by rewrite Hget).
    cbv zeta. rewrite bindM_unfold. unfold lift.
    by destruct (foldlM _ _ (Py.keys imdata)). }
  split.
  - intros (k & Hk & Hnone). apply Hrun.
    rewrite init_loop_KeyError; [done|].
    apply Exists_exists. exists k. split; [by apply keys_elem|].
    by eapply group_of_unknown.
  - intros Hall (k & v & Hkv & Hl1 & Hl2). apply Hrun.
    destruct (init_loop_Ok fzero (self w) group (length first) gm
                (Py.keys imdata) ∅ Hg) as (gd0 & Hrun0 & Hin0 & Hout0).
    { apply Forall_forall. intros k' Hk'. apply keys_elem in Hk' as [v' Hv'].
      by apply (Hall k' v'). }
    rewrite Hrun0. res_simpl.
    apply (sum_loop_ValueError fadd (self w) group (length first) gm); auto.
    + apply Forall_forall. intros [k' v'] Hkv'. cbn [fst snd].
      apply elem_of_map_to_list in Hkv'.
      destruct (Hall k' v' Hkv') as [g Hgk]. exists g. split; [done|].
      rewrite Hin0; [done|]. apply list_elem_of_omap. exists k'.
      split; [|done]. apply keys_elem. by rewrite Hkv'.
    + intros g v' Hv'.
      destruct (decide (g ∈ omap (λ k, gm !! k) (Py.keys imdata)))
        as [Hi|Hn].
      * rewrite (Hin0 g Hi) in Hv'. injection Hv' as <-.
        apply length_replicate.
      * rewrite (Hout0 g Hn), lookup_empty in Hv'. done.
    + apply Exists_exists. exists (k, v). split; [|done].
      by apply elem_of_map_to_list.
Qed.

End SumToGroupTheorems.

(** The example of the specification: [e1:[1,2]] and [e2:[3,4]] in one
    group, [e3:[5,6]] in another. *)
Example SumToGroup_example :
  (SumToGroup (Some Example.db) Example.p 0%Z Z.add
     {[ Example.e1 := [1; 2]; Example.e2 := [3; 4]; Example.e3 := [5; 6] ]}%Z
     "Plate" Example.populated).1
  = Ok {[ Example.g0 := [4; 6]; Example.g1 := [5; 6] ]}%Z.
Proof. by_vm. Qed.

Lemma SumToGroup_sums_witness :
  let imdata : gmap (list Z) (list Z) :=
    {[ Example.e1 := [1; 2]; Example.e2 := [3; 4];
       Example.e3 := [5; 6] ]}%Z in
  let gm : gmap (list Z) (list pyval) :=
    {[ Example.e1 := Example.g0; Example.e2 := Example.g0;
       Example.e3 := Example.g1 ]} in
  ∃ groupData,
    SumToGroup (Some Example.db) Example.p 0%Z Z.add imdata "Plate"
      Example.populated
    = (Ok groupData, Example.populated)
    ∧ (∀ g, is_Some (groupData !! g)
            ↔ ∃ k, is_Some (imdata !! k) ∧ gm !! k = Some g)
    ∧ (∀ g v, groupData !! g = Some v →
              v = vsum 0%Z Z.add 2 (vectors_of gm (Py.items imdata) g)).
Proof.
  cbv zeta. apply SumToGroup_sums.
  - by_vm.
  - apply insert_non_empty.
  - by_vm.
  - compute_done.
Defined.

(** C7 as stated fails on the empty input map, whose vectors are trivially
    of equal length: [imdata.values()[0]] raises IndexError. *)
Lemma SumToGroup_empty_input_raises :
  (SumToGroup (Some Example.db) Example.p 0%Z Z.add
     (∅ : gmap (list Z) (list Z)) "Plate" Example.populated).1
  = Raise IndexError
  ∧ ¬ ∃ groupData,
        (SumToGroup (Some Example.db) Example.p 0%Z Z.add
           (∅ : gmap (list Z) (list Z)) "Plate" Example.populated).1
        = Ok groupData.
Proof.
  assert ((SumToGroup (Some Example.db) Example.p 0%Z Z.add
     (∅ : gmap (list Z) (list Z)) "Plate" Example.populated).1
    = Raise IndexError) as H by by_vm.
  split; [exact H|]. intros [gd Hgd]. rewrite H in Hgd. discriminate.
Qed.

Lemma SumToGroup_errors_witness :
  SumToGroup (Some Example.db) Example.p 0%Z Z.add
    {[ Example.e1 := [1; 2]; Example.e4 := [3; 4] ]}%Z "Plate"
    Example.populated
  = (Raise KeyError, Example.populated)
  ∧ SumToGroup (Some Example.db) Example.p 0%Z Z.add
      {[ Example.e1 := [1; 2]; Example.e2 := [3; 4; 5] ]}%Z "Plate"
      Example.populated
    = (Raise ValueError, Example.populated).
Proof.
  split.
  - apply (SumToGroup_errors 0%Z Z.add (Some Example.db) Example.p
             Example.populated _ "Plate"
             {[ Example.e1 := Example.g0; Example.e2 := Example.g0;
                Example.e3 := Example.g1 ]} [1; 2]%Z).
    + by_vm.
    + by_vm.
    + by_vm.
    + exists Example.e4. split; [exists [3; 4]%Z; by_vm | by_vm].
  - apply (SumToGroup_errors 0%Z Z.add (Some Example.db) Example.p
             Example.populated _ "Plate"
             {[ Example.e1 := Example.g0; Example.e2 := Example.g0;
                Example.e3 := Example.g1 ]} [1; 2]%Z).
    + by_vm.
    + by_vm.
    + by_vm.
    + compute_done.
    + exists Example.e2, [3; 4; 5]%Z. split; [by_vm|]. cbn. lia.
Defined.

(** C8 as stated fails: the vectors [[1,2]] and [[3]] have different lengths
    and SumToGroup returns a result, the second vector broadcast over the
    width of the first. *)
Lemma SumToGroup_broadcasts_length_one :
  (SumToGroup (Some Example.db) Example.p 0%Z Z.add
     {[ Example.e1 := [1; 2]; Example.e2 := [3] ]}%Z "Well"
     Example.populated).1
  = Ok {[ Example.gA := [1; 2]; Example.gB := [3; 3] ]}%Z
  ∧ ¬ ∃ e,
        (SumToGroup (Some Example.db) Example.p 0%Z Z.add
           {[ Example.e1 := [1; 2]; Example.e2 := [3] ]}%Z "Well"
           Example.populated).1
        = Raise e.
Proof.
  assert ((SumToGroup (Some Example.db) Example.p 0%Z Z.add
     {[ Example.e1 := [1; 2]; Example.e2 := [3] ]}%Z "Well"
     Example.populated).1
    = Ok {[ Example.gA := [1; 2]; Example.gB := [3; 3] ]}%Z) as H by by_vm.
  split; [exact H|]. intros [e He]. rewrite H in He. discriminate.
Qed.

(** Without a wildcard the filter does matter: the first filtered lookup
    executes the filter query, stores its result in the cache and intersects
    with it. *)
Example filtered_lookup_fills_cache :
  (GetImagesInGroup (Some Example.db) Example.p "Well" Example.gA
     (Some "f") Example.populated).1
  = Ok (KeySet {[ Example.e1 ]})
  ∧ filterkeys (self Example.populated) !! "f" = None
  ∧ filterkeys (self Example.filtered) !! "f"
    = Some {[ Example.e1; Example.e2 ]}
  ∧ db_log Example.filtered
    = db_log Example.populated ++ [CallExecute "SELECT 1"].
Proof. repeat split; by_vm. Qed.

(** * Further properties of the code

    The claims above are about the index computation, the cumulative sums,
    the group lookups and SumToGroup.  What follows covers the rest of the
    methods: forced re-population, the sampling methods as a whole, the count
    and key queries, the group metadata and the filter cache. *)

(** ** Forced re-population *)

Lemma PopulateModel_delete_first db p w :
  PopulateModel db p true w = PopulateModel db p false (DeleteModel w).2.
Proof.
  unfold PopulateModel.
  erewrite (bindM_Ok _ _ w) by reflexivity.
  erewrite (bindM_Ok _ _ (DeleteModel w).2) by reflexivity.
  reflexivity.
Qed.

(** X1: [PopulateModel(delete_model=True)], from any state of the model,
    leaves the sampler consistent with the database: [keylist] is
    [data.keys()], [cumSums] is 0 followed by the cumulative sums of the
    counts in that order, the counts are non-negative and [obCount] is their
    sum, which is the total of the rows of the database: the counts of a
    previous population are not counted twice. *)
Theorem PopulateModel_delete_model_rebuilds d p rows w0 w :
  db_GetPerImageObjectCounts d = Ok rows → counts_ok rows →
  PopulateModel (Some d) p true w0 = (Ok (), w) →
  populated_inv (self w)
  ∧ obCount (self w) = Zsum (row_count <$> rows).
Proof.
  intros Hdb Hok. rewrite PopulateModel_delete_first. intros Hpop.
  by apply (PopulateModel_establishes d p rows (DeleteModel w0).2 w).
Qed.

Lemma PopulateModel_delete_model_rebuilds_witness :
  populated_inv
    (self (PopulateModel (Some Example.db) Example.p true
             Example.filtered).2)
  ∧ obCount (self (PopulateModel (Some Example.db) Example.p true
                     Example.filtered).2)
    = Zsum (row_count <$> [[0; 1; 2]; [0; 2; 0]; [0; 3; 3]]%Z).
Proof.
  apply (PopulateModel_delete_model_rebuilds Example.db Example.p _
           Example.filtered); [reflexivity | exact Example_counts_ok |].
  assert ((PopulateModel (Some Example.db) Example.p true
             Example.filtered).1 = Ok ()) as H by by_vm.
  destruct (PopulateModel (Some Example.db) Example.p true Example.filtered)
    as [r w]. cbn in H. by subst r.
Defined.

(** ** The sampling methods as a whole *)

Lemma populated_locate s t :
  populated_inv s → (1 ≤ t ≤ obCount s)%Z →
  ∃ imKey c rank,
    data s !! imKey = Some c ∧ (1 ≤ rank ≤ c)%Z
    ∧ locate_object (cumSums s) (Py.keys (data s)) t = Ok (imKey, rank).
Proof.
  intros [Hk Hc Ho Hpos Hr] Ht. unfold counts_in_order in *.
  rewrite Ho in Hr, Ht.
  destruct (length_keys_values (data s)) as [Lk Lv].
  destruct (locate_object_spec (Py.values (data s)) (Py.keys (data s)) t
              Hpos Hr ltac:(congruence) Ht)
    as (i & k & c & _ & Hki & Hci & _ & Hrank & Hloc).
  exists k, c, (t - Zsum (take i (Py.values (data s))))%Z.
  rewrite Hc. split; [by eapply items_lookup|]. done.
Qed.

Lemma randint_in_range (a b : Z) w :
  (a ≤ b)%Z →
  ∃ t, (a ≤ t ≤ b)%Z
    ∧ randint a b w
      = (Ok t, {| self := self w; entropy := entropy w;
                  drawn := S (drawn w); db_log := db_log w |}).
Proof.
  intros Hab. exists (a + entropy w (drawn w) mod (b - a + 1))%Z.
  pose proof (Z.mod_pos_bound (entropy w (drawn w)) (b - a + 1)).
  split; [lia|]. unfold randint.
  destruct (Z.ltb_spec b a); [lia|]. reflexivity.
Qed.

Lemma GetRandomObject_run d p w :
  populated_inv (self w) → (1 ≤ obCount (self w))%Z →
  ∃ imKey c rank,
    data (self w) !! imKey = Some c ∧ (1 ≤ rank ≤ c)%Z
    ∧ GetRandomObject (Some d) p w
      = (db_GetObjectIDAtIndex d imKey rank,
         {| self := self w; entropy := entropy w; drawn := S (drawn w);
            db_log := db_log w ++ [CallGetObjectIDAtIndex imKey rank] |}).
Proof.
  intros Hinv Hob.
  destruct (randint_in_range 1 (obCount (self w)) w Hob) as (t & Ht & Hrand).
  destruct (populated_locate (self w) t Hinv Ht) as (k & c & r & Hk & Hr & Hloc).
  exists k, c, r. split; [done|]. split; [done|].
  assert (IsEmpty (self w) = false) as Hne.
  { unfold IsEmpty. apply bool_decide_eq_false_2. intros He.
    rewrite He in Hk. by rewrite lookup_empty in Hk. }
  unfold GetRandomObject.
  erewrite bindM_Ok by (by apply if_empty_populate_nonempty).
  erewrite bindM_Ok by reflexivity.
  erewrite bindM_Ok by exact Hrand.
  cbn [self]. erewrite bindM_Ok; cycle 1.
  { unfold lift. rewrite Hloc. reflexivity. }
  reflexivity.
Qed.

Lemma after_draws_0 w : after_draws w 0 [] = w.
Proof.
  unfold after_draws. destruct w as [s e n l]. cbn.
  by rewrite Nat.add_0_r, app_nil_r.
Qed.

(** [n] rounds of a body that makes one draw and one database call satisfying
    [P], and leaves the model as it is. *)
Lemma mapM_draws {A} (body : M (list Z)) (P : db_call → Prop)
    (s : DataModel) (l : list A) :
  (∀ w, self w = s →
     ∃ c ob, P c ∧ body w = (Ok ob, after_draws w 1 [c])) →
  ∀ w, self w = s →
  ∃ objs calls,
    mapM (λ _, body) l w = (Ok objs, after_draws w (length l) calls)
    ∧ length objs = length l ∧ length calls = length l ∧ Forall P calls.
Proof.
  intros Hbody. induction l as [|x l IH]; intros w Hs.
  - exists [], []. rewrite after_draws_0. repeat split; constructor.
  - destruct (Hbody w Hs) as (c & ob & Hc & Hrun).
    destruct (IH (after_draws w 1 [c]) Hs) as (objs & calls & Hrest & L1 & L2 & HP).
    exists (ob :: objs), (c :: calls). cbn [mapM].
    erewrite bindM_Ok by exact Hrun.
    erewrite bindM_Ok by exact Hrest.
    split; [|cbn; repeat split; auto].
    unfold after_draws. cbn. f_equal.
    replace (drawn w + 1 + length l) with (drawn w + S (length l)) by lia.
    by rewrite <- app_assoc.
Qed.

(** X2: on a populated model with at least one object, GetRandomObject makes
    one draw and exactly one call [db.GetObjectIDAtIndex(imKey, rank)], on an
    image of the model with objects and at a rank within its count; it
    returns what the database returns (an error of the lookup is raised
    unchanged) and leaves the model as it is. *)
Theorem GetRandomObject_one_valid_lookup d p w :
  populated_inv (self w) → (1 ≤ obCount (self w))%Z →
  ∃ imKey rank,
    valid_lookup (self w) (CallGetObjectIDAtIndex imKey rank)
    ∧ GetRandomObject (Some d) p w
      = (db_GetObjectIDAtIndex d imKey rank,
         after_draws w 1 [CallGetObjectIDAtIndex imKey rank]).
Proof.
  intros Hinv Hob.
  destruct (GetRandomObject_run d p w Hinv Hob) as (k & c & r & Hk & Hr & Hrun).
  exists k, r. split; [by exists k, r, c|]. rewrite Hrun.
  unfold after_draws. do 2 f_equal. lia.
Qed.

Lemma Example_populated_inv : populated_inv (self Example.populated).
Proof.
  by apply (PopulateModel_establishes Example.db Example.p _ Example.fresh
              Example.populated eq_refl eq_refl eq_refl Example_counts_ok
              Example_populates).
Qed.

Lemma GetRandomObject_one_valid_lookup_witness :
  ∃ imKey rank,
    valid_lookup (self Example.populated)
      (CallGetObjectIDAtIndex imKey rank)
    ∧ GetRandomObject (Some Example.db) Example.p Example.populated
      = (db_GetObjectIDAtIndex Example.db imKey rank,
         after_draws Example.populated 1
           [CallGetObjectIDAtIndex imKey rank]).
Proof.
  apply GetRandomObject_one_valid_lookup.
  - exact Example_populated_inv.
  - by_vm_le.
Defined.

(** X3: on a populated model with at least one object and a database that
    has the objects the counts promise, [GetRandomObjects(N)] returns
    [max(N, 0)] object keys, from as many draws and as many database lookups,
    every one on an image with objects and at a rank within its count; the
    model is left as it is. *)
Theorem GetRandomObjects_all_valid d p N w :
  populated_inv (self w) → (1 ≤ obCount (self w))%Z →
  lookups_succeed d (self w) →
  ∃ objs calls,
    GetRandomObjects (Some d) p N None w
    = (Ok objs, after_draws w (Z.to_nat N) calls)
    ∧ length objs = Z.to_nat N
    ∧ length calls = Z.to_nat N
    ∧ Forall (valid_lookup (self w)) calls.
Proof.
  intros Hinv Hob Hdb.
  destruct (populated_locate (self w) 1 Hinv ltac:(lia))
    as (k0 & c0 & _ & Hk0 & _).
  assert (IsEmpty (self w) = false) as Hne.
  { unfold IsEmpty. apply bool_decide_eq_false_2. intros He.
    rewrite He in Hk0. by rewrite lookup_empty in Hk0. }
  destruct (mapM_draws (GetRandomObject (Some d) p) (valid_lookup (self w))
              (self w) (Py.xrange N)) with (w := w)
    as (objs & calls & Hrun & L1 & L2 & HP); [|done|].
  { intros w' Hs.
    destruct (GetRandomObject_run d p w') as (k & c & r & Hk & Hr & Hrun');
      [by rewrite Hs | by rewrite Hs |].
    rewrite Hs in Hk. destruct (Hdb k r c Hk Hr) as [ob Hob'].
    exists (CallGetObjectIDAtIndex k r), ob. split; [by exists k, r, c|].
    rewrite Hrun', Hob'. unfold after_draws. rewrite Hs.
    do 2 f_equal. lia. }
  unfold Py.xrange in *. rewrite length_seq in *.
  exists objs, calls. split; [|done].
  unfold GetRandomObjects.
  erewrite bindM_Ok by (by apply if_empty_populate_nonempty). exact Hrun.
Qed.

Lemma Example_lookups_succeed :
  lookups_succeed Example.db (self Example.populated).
Proof. intros k r c _ _. by eexists. Qed.

Lemma GetRandomObjects_all_valid_witness :
  ∃ objs calls,
    GetRandomObjects (Some Example.db) Example.p 3 None Example.populated
    = (Ok objs, after_draws Example.populated (Z.to_nat 3) calls)
    ∧ length objs = Z.to_nat 3
    ∧ length calls = Z.to_nat 3
    ∧ Forall (valid_lookup (self Example.populated)) calls.
Proof.
  apply GetRandomObjects_all_valid.
  - exact Example_populated_inv.
  - by_vm_le.
  - exact Example_lookups_succeed.
Defined.

Example GetRandomObjects_example :
  (GetRandomObjects (Some Example.db) Example.p 3 None Example.populated).1
  = Ok [[0; 1; 1]; [0; 3; 1]; [0; 3; 3]]%Z.
Proof. by_vm. Qed.

(** X4: sampling from a populated model without objects raises the
    ValueError of [randint(1, 0)], before any database call and without
    changing the state; so does [GetRandomObjects(N)] for [N >= 1], while
    for [N <= 0] it returns the empty list. *)
Theorem GetRandomObject_empty_pool db p w :
  IsEmpty (self w) = false → (obCount (self w) < 1)%Z →
  GetRandomObject db p w = (Raise ValueError, w)
  ∧ (∀ N, (1 ≤ N)%Z →
       GetRandomObjects db p N None w = (Raise ValueError, w))
  ∧ (∀ N, (N ≤ 0)%Z → GetRandomObjects db p N None w = (Ok [], w)).
Proof.
  intros Hne Hob.
  assert (GetRandomObject db p w = (Raise ValueError, w)) as Hone.
  { unfold GetRandomObject.
    erewrite bindM_Ok by (by apply if_empty_populate_nonempty).
    erewrite bindM_Ok by reflexivity.
    rewrite bindM_unfold. unfold randint.
    destruct (Z.ltb_spec (obCount (self w)) 1); [reflexivity | lia]. }
  split; [done|]. split; intros N HN; unfold GetRandomObjects;
    erewrite bindM_Ok by (by apply if_empty_populate_nonempty).
  - unfold Py.xrange. destruct (Z.to_nat N) as [|n] eqn:E; [lia|].
    cbn [seq mapM]. rewrite bindM_unfold, Hone. reflexivity.
  - unfold Py.xrange. replace (Z.to_nat N) with 0 by lia. reflexivity.
Qed.

Lemma GetRandomObject_empty_pool_witness :
  GetRandomObject (Some NoObjects.db) Example.p NoObjects.populated
  = (Raise ValueError, NoObjects.populated)
  ∧ (∀ N, (1 ≤ N)%Z →
       GetRandomObjects (Some NoObjects.db) Example.p N None
         NoObjects.populated
       = (Raise ValueError, NoObjects.populated))
  ∧ (∀ N, (N ≤ 0)%Z →
       GetRandomObjects (Some NoObjects.db) Example.p N None
         NoObjects.populated
       = (Ok [], NoObjects.populated)).
Proof.
  apply GetRandomObject_empty_pool; [by_vm | vm_compute; reflexivity].
Defined.

(** ** Sampling from a subset of the images *)

Lemma cumsum_nondecreasing counts :
  Forall (λ x, 0 ≤ x)%Z counts → (Zsum counts < 2 ^ 63)%Z →
  nondecreasing (Np.cumsum counts).
Proof.
  intros Hpos Hlt i j x y Hij Hi Hj.
  apply (sums_nondecreasing counts Hpos Hlt (S i) (S j) x y); [lia|done..].
Qed.

(** The index computation of GetRandomObjects on a subset: the draw [t] is
    resolved to the image [i] of the subset with
    [sum(counts[:i]) < t <= sum(counts[:i+1])], which has a positive count,
    and to the rank [t - sum(counts[:i])] within this count. *)
Lemma locate_in_subset_spec counts ks t :
  Forall (λ x, 0 ≤ x)%Z counts → (Zsum counts < 2 ^ 63)%Z →
  length ks = length counts →
  (1 ≤ t ≤ Zsum counts)%Z →
  ∃ i k c,
    ks !! i = Some k ∧ counts !! i = Some c
    ∧ (0 < c)%Z
    ∧ (1 ≤ t - Zsum (take i counts) ≤ c)%Z
    ∧ locate_in_subset (Np.cumsum counts) ks t
      = Ok (k, (t - Zsum (take i counts))%Z).
Proof.
  intros Hpos Hlt Hlen Ht.
  set (sums := Np.cumsum counts).
  assert (length sums = length counts) as Hls.
  { unfold sums, Np.cumsum. by rewrite length_cumsum_from. }
  assert (0 < length counts)%nat as Hne.
  { destruct counts; [cbn in Ht; lia | cbn; lia]. }
  destruct (searchsorted_left_spec sums t (cumsum_nondecreasing _ Hpos Hlt))
    as (Hr & Hbelow & Habove).
  unfold locate_in_subset. fold sums.
  set (r := Np.searchsorted_left sums t) in *.
  assert (r < length counts)%nat as Hi.
  { destruct (decide (r < length counts)%nat) as [|Hn]; [done|].
    pose proof (Hbelow (pred (length counts)) _ ltac:(lia)
                  (cumsum_lookup_exact counts (pred (length counts))
                     Hpos Hlt ltac:(lia))) as H.
    replace (S (pred (length counts))) with (length counts) in H by lia.
    rewrite firstn_all in H. lia. }
  destruct (lookup_lt_is_Some_2 counts r Hi) as [c Hc].
  destruct (lookup_lt_is_Some_2 ks r ltac:(lia)) as [k Hk].
  pose proof (cumsum_lookup_exact counts r Hpos Hlt Hi) as Hsr.
  rewrite (Zsum_take_S _ _ _ Hc) in Hsr.
  pose proof (Habove r _ ltac:(lia) Hsr) as Hhi.
  pose proof (Zsum_take_le counts r Hpos) as Hrange.
  exists r, k, c.
  destruct r as [|i].
  - (* index 0: the draw is the rank *)
    change (Zsum (take 0 counts)) with 0%Z in *.
    repeat split; try done; try lia.
    pose proof (getitem_lookup _ 0 _ Hk) as Hg.
    change (Z.of_nat 0) with 0%Z in *.
    change (0 =? 0)%Z with true. cbv iota. res_simpl.
    rewrite Hg. res_simpl.
    by rewrite Z.sub_0_r.
  - pose proof (cumsum_lookup_exact counts i Hpos Hlt ltac:(lia)) as Hsi.
    pose proof (Hbelow i _ ltac:(lia) Hsi) as Hlo.
    repeat split; try done; try lia.
    destruct (Z.eqb_spec (Z.of_nat (S i)) 0) as [|_]; [lia|].
    replace (loop_bound sums) with (S (2 * length sums + 1))
      by (unfold loop_bound; lia).
    rewrite (first_of_repeated_stop _ sums i _ _ Hsr Hsi) by lia. res_simpl.
    replace (Z.of_nat (S i) - 1)%Z with (Z.of_nat i) by lia.
    rewrite (getitem_lookup sums _ _ Hsi). res_simpl.
    rewrite (getitem_lookup _ _ _ Hk). res_simpl.
    rewrite wrap64_small by lia. reflexivity.
Qed.

(** X5: [GetRandomObjects(N, imKeys)] on a populated model, for images of the
    model with non-negative counts of which at least one is positive, returns
    [max(N, 0)] object keys, from as many draws and as many database lookups;
    every lookup is on one of the given images, on one with objects, and at a
    rank within its count.  The model is left as it is. *)
Theorem GetRandomObjects_subset_valid d p N imKeys counts w :
  IsEmpty (self w) = false →
  Forall2 (λ k c, data (self w) !! k = Some c) imKeys counts →
  Forall (λ x, 0 ≤ x)%Z counts → (1 ≤ Zsum counts < 2 ^ 63)%Z →
  lookups_succeed d (self w) →
  ∃ objs calls,
    GetRandomObjects (Some d) p N (Some imKeys) w
    = (Ok objs, after_draws w (Z.to_nat N) calls)
    ∧ length objs = Z.to_nat N
    ∧ length calls = Z.to_nat N
    ∧ Forall (λ c, valid_lookup (self w) c ∧ lookup_within imKeys c) calls.
Proof.
  intros Hne Hcs Hpos Htot Hdb.
  pose proof (Forall2_length _ _ _ Hcs) as Hlen.
  assert (counts ≠ []) as Hcne.
  { intros ->. cbn in Htot. lia. }
  set (body := (obIdx ← randint 1 (Zsum counts);
                io ← lift (locate_in_subset (Np.cumsum counts) imKeys obIdx);
                on_db (Some d) (CallGetObjectIDAtIndex io.1 io.2)
                  (λ d, db_GetObjectIDAtIndex d io.1 io.2)) : M (list Z)).
  destruct (mapM_draws body
              (λ c, valid_lookup (self w) c ∧ lookup_within imKeys c)
              (self w) (Py.xrange N)) with (w := w)
    as (objs & calls & Hrun & L1 & L2 & HP); [|done|].
  { intros w' Hs.
    destruct (randint_in_range 1 (Zsum counts) w' ltac:(lia))
      as (t & Ht & Hrand).
    destruct (locate_in_subset_spec counts imKeys t Hpos ltac:(lia) Hlen Ht)
      as (i & k & c & Hk & Hc & Hc0 & Hr & Hloc).
    pose proof (Forall2_lookup_lr _ _ _ _ _ _ Hcs Hk Hc) as Hdata.
    cbn beta in Hdata.
    destruct (Hdb k _ c Hdata Hr) as [ob Hob].
    exists (CallGetObjectIDAtIndex k (t - Zsum (take i counts))), ob. split.
    { split; [by eexists k, _, c|]. eexists k, _. split; [done|].
      by eapply list_elem_of_lookup_2. }
    unfold body. erewrite bindM_Ok by exact Hrand.
    erewrite bindM_Ok; cycle 1.
    { unfold lift. rewrite Hloc. reflexivity. }
    unfold on_db, call. cbn [fst snd self entropy drawn db_log].
    rewrite Hob. unfold after_draws. rewrite Hs.
    do 2 f_equal. lia. }
  unfold Py.xrange in *. rewrite length_seq in *.
  exists objs, calls. split; [|done].
  unfold GetRandomObjects.
  erewrite bindM_Ok by (by apply if_empty_populate_nonempty).
  destruct imKeys as [|k0 ks].
  { destruct counts; [done | by apply Forall2_length in Hcs]. }
  erewrite bindM_Ok by reflexivity.
  erewrite bindM_Ok; cycle 1.
  { unfold lift. rewrite (mapM_dictitem _ _ _ Hcs). reflexivity. }
  erewrite bindM_Ok; cycle 1.
  { unfold lift. rewrite (cumsum_last _ Hcne).
    rewrite wrap64_small by lia. reflexivity. }
  destruct (Z.ltb_spec (Zsum counts) 1) as [|_]; [lia|].
  exact Hrun.
Qed.

Lemma GetRandomObjects_subset_valid_witness :
  ∃ objs calls,
    GetRandomObjects (Some Example.db) Example.p 2
      (Some [Example.e1; Example.e2; Example.e3]) Example.populated
    = (Ok objs, after_draws Example.populated (Z.to_nat 2) calls)
    ∧ length objs = Z.to_nat 2
    ∧ length calls = Z.to_nat 2
    ∧ Forall (λ c, valid_lookup (self Example.populated) c
                   ∧ lookup_within [Example.e1; Example.e2; Example.e3] c)
        calls.
Proof.
  apply (GetRandomObjects_subset_valid Example.db Example.p 2
           [Example.e1; Example.e2; Example.e3] [2; 0; 3]%Z
           Example.populated).
  - by_vm.
  - repeat constructor; by_vm.
  - repeat constructor; lia.
  - cbn. lia.
  - exact Example_lookups_succeed.
Defined.

(** ** The contents of the model after population *)

Lemma zero_fold_lookup (ims : list (list Z)) (s : DataModel) k :
  data (foldl (λ s key, set_data (<[key := 0%Z]> (data s)) s) s ims) !! k
  = if decide (k ∈ ims) then Some 0%Z else data s !! k.
Proof.
  revert s. induction ims as [|x ims IH]; intros s.
  - cbn. destruct (decide _) as [Hin|]; [by apply elem_of_nil in Hin|done].
  - cbn [foldl]. rewrite IH. cbn [data set_data].
    destruct (decide (k ∈ ims)) as [Hin|Hnin].
    + rewrite decide_True; [done | by right].
    + destruct (decide (k = x)) as [->|Hne].
      * rewrite lookup_insert_eq. rewrite decide_True; [done | by left].
      * rewrite lookup_insert_ne by done.
        rewrite decide_False; [done|].
        intros [?|?]%elem_of_cons; done.
Qed.

Lemma init_counts_data d ims w r w' :
  db_GetAllImageKeys d = Ok ims → init_counts d w = (r, w') →
  r = Ok ()
  ∧ ∀ k, data (self w') !! k
         = if decide (k ∈ ims) then Some 0%Z else data (self w) !! k.
Proof.
  intros Hdb. unfold init_counts.
  erewrite bindM_Ok by (unfold call; rewrite Hdb; reflexivity).
  rewrite for_modify. intros [= <- <-]. split; [done|].
  intros k. cbn [self with_self]. apply zero_fold_lookup.
Qed.

Lemma count_rows_data rows w w' :
  NoDup (row_key <$> rows) →
  for_ rows count_row w = (Ok (), w') →
  (∀ r, r ∈ rows → data (self w') !! row_key r = Some (row_count r))
  ∧ (∀ k, k ∉ row_key <$> rows → data (self w') !! k = data (self w) !! k).
Proof.
  revert w. induction rows as [|r rows IH]; intros w Hnd Hfor.
  - cbn in Hfor. injection Hfor as <-. split; [|done].
    intros r Hr. by apply elem_of_nil in Hr.
  - cbn [for_] in Hfor. apply bindM_Ok_inv in Hfor as ([] & w1 & H1 & Hfor).
    apply count_row_Ok in H1 as [_ ->].
    cbn [fmap list_fmap] in Hnd. apply NoDup_cons in Hnd as [Hnotin Hnd].
    destruct (IH _ Hnd Hfor) as [IH1 IH2]. split.
    + intros r' [->|Hr']%elem_of_cons; [|by apply IH1].
      rewrite IH2 by done. cbn [self with_self data set_obCount set_data].
      by rewrite lookup_insert_eq.
    + intros k Hk. cbn [fmap list_fmap] in Hk.
      apply not_elem_of_cons in Hk as [Hne Hk].
      rewrite IH2 by done. cbn [self with_self data set_obCount set_data].
      by rewrite lookup_insert_ne.
Qed.

(** What [self.data] holds after a population that did not raise: the count
    of its row for an image with a row, zero for an image of
    [db.GetAllImageKeys()] without a row, and nothing else. *)
Lemma PopulateModel_data d p ims rows w0 w :
  data (self w0) = ∅ →
  db_GetAllImageKeys d = Ok ims →
  db_GetPerImageObjectCounts d = Ok rows → NoDup (row_key <$> rows) →
  PopulateModel (Some d) p false w0 = (Ok (), w) →
  (∀ r, r ∈ rows → data (self w) !! row_key r = Some (row_count r))
  ∧ (∀ k, k ∉ row_key <$> rows →
       data (self w) !! k = if decide (k ∈ ims) then Some 0%Z else None).
Proof.
  intros Hdata Hims Hrows Hnd. unfold PopulateModel.
  erewrite bindM_Ok by reflexivity.
  unfold IsEmpty. rewrite bool_decide_eq_true_2 by done. cbn [negb].
  intros H.
  apply bindM_Ok_inv in H as ([] & w1 & H1 & H).
  assert (self w1 = self w0) as Hs1.
  { destruct (bool_decide _); cbn in H1.
    - by injection H1 as _ <-.
    - by injection H1 as <-. }
  apply bindM_Ok_inv in H as ([] & w2 & H2 & H).
  destruct (init_counts_data _ _ _ _ _ Hims H2) as [_ Hd2].
  apply bindM_Ok_inv in H as ([] & w3 & H3 & H).
  unfold count_objects in H3. rewrite bindM_unfold in H3.
  unfold call in H3. rewrite Hrows in H3.
  destruct (count_rows_data _ _ _ Hnd H3) as [Hd3 Hd3'].
  cbn [self] in Hd3'.
  apply bindM_Ok_inv in H as ([] & w4 & H4 & H).
  injection H4 as <-.
  apply bindM_Ok_inv in H as ([] & w5 & H5 & H).
  rewrite build_cumSums_eq in H5 by reflexivity. injection H5 as <-.
  match type of H with
  | load_groups d ?w5 = _ =>
      pose proof (load_groups_same_core d w5) as Hcore
  end.
  rewrite H in Hcore.
  unfold same_core, core in Hcore. cbn in Hcore.
  injection Hcore as Ed _ _ _.
  rewrite Ed. split; [done|].
  intros k Hk. rewrite Hd3' by done. rewrite Hd2, Hs1, Hdata.
  by rewrite lookup_empty.
Qed.

Lemma GetObjectCountFromImage_nonempty db p imKey w :
  IsEmpty (self w) = false →
  GetObjectCountFromImage db p imKey w
  = (Py.dictitem (data (self w)) imKey, w).
Proof.
  intros Hne. unfold GetObjectCountFromImage.
  erewrite bindM_Ok by (by apply if_empty_populate_nonempty).
  erewrite bindM_Ok by reflexivity. reflexivity.
Qed.

Lemma lookup_nonempty (s : DataModel) k c :
  data s !! k = Some c → IsEmpty s = false.
Proof.
  intros Hk. unfold IsEmpty. apply bool_decide_eq_false_2. intros He.
  rewrite He in Hk. by rewrite lookup_empty in Hk.
Qed.

(** X6: after a population of an empty model that did not raise, from a
    database with one row of counts per image, [GetObjectCountFromImage]
    answers from the model alone: the count of its row for an image with a
    row (also one that [db.GetAllImageKeys()] does not list), 0 for a listed
    image without a row, and KeyError for any other key. *)
Theorem GetObjectCountFromImage_after_populate d p ims rows w0 w :
  data (self w0) = ∅ →
  db_GetAllImageKeys d = Ok ims →
  db_GetPerImageObjectCounts d = Ok rows → NoDup (row_key <$> rows) →
  PopulateModel (Some d) p false w0 = (Ok (), w) →
  (∀ r, r ∈ rows →
     GetObjectCountFromImage (Some d) p (row_key r) w
     = (Ok (row_count r), w))
  ∧ (∀ k, k ∈ ims → k ∉ row_key <$> rows →
       GetObjectCountFromImage (Some d) p k w = (Ok 0%Z, w))
  ∧ (∀ k, k ∉ ims → k ∉ row_key <$> rows → IsEmpty (self w) = false →
       GetObjectCountFromImage (Some d) p k w = (Raise KeyError, w)).
Proof.
  intros Hdata Hims Hrows Hnd Hpop.
  destruct (PopulateModel_data d p ims rows w0 w) as [Hrow Hother]; try done.
  split; [|split].
  - intros r Hr. specialize (Hrow r Hr).
    rewrite GetObjectCountFromImage_nonempty by (by eapply lookup_nonempty).
    by rewrite (dictitem_Some _ _ _ Hrow).
  - intros k Hin Hk. specialize (Hother k Hk).
    rewrite decide_True in Hother by done.
    rewrite GetObjectCountFromImage_nonempty by (by eapply lookup_nonempty).
    by rewrite (dictitem_Some _ _ _ Hother).
  - intros k Hnin Hk Hne. specialize (Hother k Hk).
    rewrite decide_False in Hother by done.
    rewrite GetObjectCountFromImage_nonempty by done.
    unfold Py.dictitem. by rewrite Hother.
Qed.

Lemma Example_NoDup_rows :
  NoDup (row_key <$> [[0; 1; 2]; [0; 2; 0]; [0; 3; 3]]%Z).
Proof. destruct Example_counts_ok as [H _]. exact H. Qed.

Lemma GetObjectCountFromImage_after_populate_witness :
  (∀ r, r ∈ [[0; 1; 2]; [0; 2; 0]; [0; 3; 3]]%Z →
     GetObjectCountFromImage (Some Example.db) Example.p (row_key r)
       Example.populated
     = (Ok (row_count r), Example.populated))
  ∧ (∀ k, k ∈ [Example.e1; Example.e2; Example.e3; Example.e4] →
       k ∉ row_key <$> [[0; 1; 2]; [0; 2; 0]; [0; 3; 3]]%Z →
       GetObjectCountFromImage (Some Example.db) Example.p k
         Example.populated
       = (Ok 0%Z, Example.populated))
  ∧ (∀ k, k ∉ [Example.e1; Example.e2; Example.e3; Example.e4] →
       k ∉ row_key <$> [[0; 1; 2]; [0; 2; 0]; [0; 3; 3]]%Z →
       IsEmpty (self Example.populated) = false →
       GetObjectCountFromImage (Some Example.db) Example.p k
         Example.populated
       = (Raise KeyError, Example.populated)).
Proof.
  apply (GetObjectCountFromImage_after_populate Example.db Example.p
           [Example.e1; Example.e2; Example.e3; Example.e4]
           [[0; 1; 2]; [0; 2; 0]; [0; 3; 3]]%Z Example.fresh).
  - reflexivity.
  - reflexivity.
  - reflexivity.
  - exact Example_NoDup_rows.
  - exact Example_populates.
Defined.

(** ** The count and key queries *)

(** A loop of database calls that all succeed. *)
Lemma mapM_calls {A B} (C : A → db_call) (q : A → Res B) (f : A → B) l w :
  (∀ i, i ∈ l → q i = Ok (f i)) →
  mapM (λ i, call (C i) (q i)) l w
  = (Ok (f <$> l), after_draws w 0 (C <$> l)).
Proof.
  revert w. induction l as [|x l IH]; intros w Hq.
  - cbn. by rewrite after_draws_0.
  - cbn [mapM fmap list_fmap].
    erewrite bindM_Ok; cycle 1.
    { unfold call. rewrite (Hq x) by (by left). reflexivity. }
    erewrite bindM_Ok; cycle 1.
    { apply IH. intros i Hi. apply Hq. by right. }
    unfold after_draws. cbn. rewrite !Nat.add_0_r.
    by rewrite <- app_assoc.
Qed.

Lemma xrange_from_lookup a b (i : nat) :
  (i < Z.to_nat (b - a))%nat →
  xrange_from a b !! i = Some (a + Z.of_nat i)%Z.
Proof.
  intros Hi. unfold xrange_from. rewrite list_lookup_fmap.
  by rewrite lookup_seq_lt.
Qed.

Lemma xrange_from_elem a b x : x ∈ xrange_from a b → (a ≤ x < b)%Z.
Proof.
  unfold xrange_from. intros (i & -> & Hi)%list_elem_of_fmap.
  apply elem_of_seq in Hi. lia.
Qed.

(** X7: on a populated model, [GetObjectsFromImage(imKey)] for an image with
    count [c] asks the database for the objects of ranks 1, 2, ..., c, in
    this order and with no other call, and returns their keys in this order
    (nothing at all for a count of 0); for a key that is not in the model it
    raises KeyError before any database call. *)
Theorem GetObjectsFromImage_ranks d p imKey w :
  IsEmpty (self w) = false →
  (∀ c f,
     data (self w) !! imKey = Some c →
     (∀ i, (1 ≤ i ≤ c)%Z → db_GetObjectIDAtIndex d imKey i = Ok (f i)) →
     ∃ objs calls,
       GetObjectsFromImage (Some d) p imKey w
       = (Ok objs, after_draws w 0 calls)
       ∧ length objs = Z.to_nat c ∧ length calls = Z.to_nat c
       ∧ ∀ i, (i < Z.to_nat c)%nat →
           objs !! i = Some (f (Z.of_nat i + 1)%Z)
           ∧ calls !! i
             = Some (CallGetObjectIDAtIndex imKey (Z.of_nat i + 1)))
  ∧ (data (self w) !! imKey = None →
     GetObjectsFromImage (Some d) p imKey w = (Raise KeyError, w)).
Proof.
  intros Hne. split.
  - intros c f Hc Hdb.
    exists (f <$> xrange_from 1 (c + 1)),
           (CallGetObjectIDAtIndex imKey <$> xrange_from 1 (c + 1)).
    assert (length (xrange_from 1 (c + 1)) = Z.to_nat c) as Hlen.
    { unfold xrange_from. rewrite length_fmap, length_seq. lia. }
    split; [|rewrite !length_fmap; repeat split; try done].
    + unfold GetObjectsFromImage.
      erewrite bindM_Ok by (by apply if_empty_populate_nonempty).
      erewrite bindM_Ok; cycle 1.
      { rewrite GetObjectCountFromImage_nonempty by done.
        by rewrite (dictitem_Some _ _ _ Hc). }
      unfold on_db.
      apply (mapM_calls (CallGetObjectIDAtIndex imKey)
               (db_GetObjectIDAtIndex d imKey) f).
      intros i Hi%xrange_from_elem. apply Hdb. lia.
    + rewrite !list_lookup_fmap, xrange_from_lookup by lia. cbn.
      by rewrite (Z.add_comm 1).
    + rewrite !list_lookup_fmap, xrange_from_lookup by lia. cbn.
      by rewrite (Z.add_comm 1).
  - intros Hnone. unfold GetObjectsFromImage.
    erewrite bindM_Ok by (by apply if_empty_populate_nonempty).
    rewrite bindM_unfold.
    rewrite GetObjectCountFromImage_nonempty by done.
    unfold Py.dictitem. by rewrite Hnone.
Qed.

Lemma GetObjectsFromImage_ranks_witness :
  (∀ c f,
     data (self Example.populated) !! Example.e3 = Some c →
     (∀ i, (1 ≤ i ≤ c)%Z →
        db_GetObjectIDAtIndex Example.db Example.e3 i = Ok (f i)) →
     ∃ objs calls,
       GetObjectsFromImage (Some Example.db) Example.p Example.e3
         Example.populated
       = (Ok objs, after_draws Example.populated 0 calls)
       ∧ length objs = Z.to_nat c ∧ length calls = Z.to_nat c
       ∧ ∀ i, (i < Z.to_nat c)%nat →
           objs !! i = Some (f (Z.of_nat i + 1)%Z)
           ∧ calls !! i
             = Some (CallGetObjectIDAtIndex Example.e3 (Z.of_nat i + 1)))
  ∧ (data (self Example.populated) !! Example.e3 = None →
     GetObjectsFromImage (Some Example.db) Example.p Example.e3
       Example.populated
     = (Raise KeyError, Example.populated)).
Proof. apply GetObjectsFromImage_ranks. by_vm. Defined.

Example GetObjectsFromImage_example :
  (GetObjectsFromImage (Some Example.db) Example.p Example.e3
     Example.populated).1
  = Ok [[0; 3; 1]; [0; 3; 2]; [0; 3; 3]]%Z.
Proof. by_vm. Qed.

Lemma NoDup_keys `{Countable K} {V} (m : gmap K V) : NoDup (Py.keys m).
Proof. unfold Py.keys, Py.items. apply NoDup_fst_map_to_list. Qed.

Lemma items_elem `{Countable K} {V} (m : gmap K V) k v :
  (k, v) ∈ Py.items m ↔ m !! k = Some v.
Proof. unfold Py.items. apply elem_of_map_to_list. Qed.

(** X8: on a populated model, [GetAllImageKeys()] returns every image of the
    model once, in the order of [keylist], the order the cumulative sums were
    built in; [GetImageKeysAndObjectCounts()] returns, in the same order,
    each image with its count.  Neither calls the database or changes the
    state. *)
Theorem GetAllImageKeys_is_keylist db p G w :
  populated_inv (self w) → IsEmpty (self w) = false →
  ∃ ks kcs,
    GetAllImageKeys db p G None w = (Ok ks, w)
    ∧ GetImageKeysAndObjectCounts db p G None w = (Ok kcs, w)
    ∧ ks = keylist (self w)
    ∧ NoDup ks
    ∧ (∀ k, k ∈ ks ↔ is_Some (data (self w) !! k))
    ∧ kcs.*1 = ks
    ∧ (∀ k c, (k, c) ∈ kcs ↔ data (self w) !! k = Some c).
Proof.
  intros Hinv Hne.
  exists (Py.keys (data (self w))), (Py.items (data (self w))).
  split; [|split].
  - unfold GetAllImageKeys.
    erewrite bindM_Ok by (by apply if_empty_populate_nonempty).
    reflexivity.
  - unfold GetImageKeysAndObjectCounts.
    erewrite bindM_Ok by (by apply if_empty_populate_nonempty).
    reflexivity.
  - split; [by rewrite (inv_keylist _ Hinv)|].
    split; [apply NoDup_keys|].
    split; [apply keys_elem|].
    split; [reflexivity|]. apply items_elem.
Qed.

Lemma GetAllImageKeys_is_keylist_witness :
  ∃ ks kcs,
    GetAllImageKeys (Some Example.db) Example.p (λ _, Ok []) None
      Example.populated = (Ok ks, Example.populated)
    ∧ GetImageKeysAndObjectCounts (Some Example.db) Example.p (λ _, Ok [])
        None Example.populated = (Ok kcs, Example.populated)
    ∧ ks = keylist (self Example.populated)
    ∧ NoDup ks
    ∧ (∀ k, k ∈ ks ↔ is_Some (data (self Example.populated) !! k))
    ∧ kcs.*1 = ks
    ∧ (∀ k c, (k, c) ∈ kcs ↔ data (self Example.populated) !! k = Some c).
Proof.
  apply GetAllImageKeys_is_keylist; [exact Example_populated_inv | by_vm].
Defined.

Lemma mapM_pairs (m : gmap (list Z) Z) ks cs :
  Forall2 (λ k c, m !! k = Some c) ks cs →
  mapM (λ imKey, c ← Py.dictitem m imKey; mret (imKey, c)) ks
  = Ok (zip ks cs).
Proof.
  induction 1 as [|k c ks cs Hk _ IH]; [done|].
  cbn [mapM zip zip_with]. rewrite (dictitem_Some _ _ _ Hk). res_simpl.
  rewrite IH. reflexivity.
Qed.

Lemma mapM_pairs_missing (m : gmap (list Z) Z) ks k :
  k ∈ ks → m !! k = None →
  mapM (λ imKey, c ← Py.dictitem m imKey; mret (imKey, c)) ks
  = Raise KeyError.
Proof.
  intros Hin Hk. induction ks as [|x ks IH]; [by apply elem_of_nil in Hin|].
  cbn [mapM].
  destruct (m !! x) as [c|] eqn:Hx.
  - rewrite (dictitem_Some _ _ _ Hx). res_simpl.
    apply elem_of_cons in Hin as [->|Hin]; [congruence|].
    rewrite IH by done. reflexivity.
  - assert (Py.dictitem m x = Raise KeyError) as ->
      by (unfold Py.dictitem; by rewrite Hx).
    reflexivity.
Qed.

(** X9: with a filter, [GetAllImageKeys(filter)] hands on the keys of
    [db.GetFilteredImages(filter)] without looking at the model, while
    [GetImageKeysAndObjectCounts(filter)] looks every one of them up: it
    pairs each key with its count, in the order of the filter's keys, and
    raises KeyError as soon as the filter names an image the model does not
    hold. *)
Theorem GetImageKeysAndObjectCounts_filtered d p G f ks w :
  IsEmpty (self w) = false → G f = Ok ks →
  GetAllImageKeys (Some d) p G (Some f) w = (Ok ks, w)
  ∧ (∀ cs, Forall2 (λ k c, data (self w) !! k = Some c) ks cs →
       GetImageKeysAndObjectCounts (Some d) p G (Some f) w
       = (Ok (zip ks cs), w))
  ∧ (∀ k, k ∈ ks → data (self w) !! k = None →
       GetImageKeysAndObjectCounts (Some d) p G (Some f) w
       = (Raise KeyError, w)).
Proof.
  intros Hne HG. split; [|split].
  - unfold GetAllImageKeys.
    erewrite bindM_Ok by (by apply if_empty_populate_nonempty).
    unfold filtered_images, lift. by rewrite HG.
  - intros cs Hcs. unfold GetImageKeysAndObjectCounts.
    erewrite bindM_Ok by (by apply if_empty_populate_nonempty).
    erewrite bindM_Ok by (unfold filtered_images, lift; by rewrite HG).
    erewrite bindM_Ok by reflexivity.
    unfold lift. by rewrite (mapM_pairs _ _ _ Hcs).
  - intros k Hin Hk. unfold GetImageKeysAndObjectCounts.
    erewrite bindM_Ok by (by apply if_empty_populate_nonempty).
    erewrite bindM_Ok by (unfold filtered_images, lift; by rewrite HG).
    erewrite bindM_Ok by reflexivity.
    unfold lift. by rewrite (mapM_pairs_missing _ _ _ Hin Hk).
Qed.

Lemma GetImageKeysAndObjectCounts_filtered_witness :
  GetAllImageKeys (Some Example.db) Example.p
    (λ _, Ok [Example.e3; [9; 9]%Z]) (Some "f") Example.populated
  = (Ok [Example.e3; [9; 9]%Z], Example.populated)
  ∧ (∀ cs, Forall2 (λ k c, data (self Example.populated) !! k = Some c)
             [Example.e3; [9; 9]%Z] cs →
       GetImageKeysAndObjectCounts (Some Example.db) Example.p
         (λ _, Ok [Example.e3; [9; 9]%Z]) (Some "f") Example.populated
       = (Ok (zip [Example.e3; [9; 9]%Z] cs), Example.populated))
  ∧ (∀ k, k ∈ [Example.e3; [9; 9]%Z] →
       data (self Example.populated) !! k = None →
       GetImageKeysAndObjectCounts (Some Example.db) Example.p
         (λ _, Ok [Example.e3; [9; 9]%Z]) (Some "f") Example.populated
       = (Raise KeyError, Example.populated)).
Proof.
  apply (GetImageKeysAndObjectCounts_filtered Example.db Example.p
           (λ _, Ok [Example.e3; [9; 9]%Z]) "f");
    [by_vm | reflexivity].
Defined.

Example GetImageKeysAndObjectCounts_stale_filter :
  (GetImageKeysAndObjectCounts (Some Example.db) Example.p
     (λ _, Ok [Example.e3; [9; 9]%Z]) (Some "f") Example.populated).1
  = Raise KeyError.
Proof. by_vm. Qed.

(** ** The group metadata *)

(** One round of the loop over the groups: the types are those of the group
    key of the first item, and an empty group map has no first item. *)
Lemma set_group_types_run g w :
  set_group_types g w
  = match groupMaps (self w) !! g with
    | None => (Raise KeyError, w)
    | Some gm =>
        match Py.items gm with
        | [] => (Raise IndexError, w)
        | first :: _ =>
            (Ok (), with_self (λ s, set_groupColTypes
               (<[g := type_of <$> first.2]> (groupColTypes s)) s) w)
        end
    end.
Proof.
  unfold set_group_types. erewrite bindM_Ok by reflexivity.
  rewrite bindM_unfold. unfold lift, Py.dictitem.
  destruct (groupMaps (self w) !! g) as [gm|]; [|reflexivity].
  rewrite bindM_unfold.
  destruct (Py.items gm) as [|first rest]; reflexivity.
Qed.

Lemma group_types_loop gs : ∀ w w',
  for_ gs set_group_types w = (Ok (), w') →
  groupMaps (self w') = groupMaps (self w)
  ∧ groupColNames (self w') = groupColNames (self w)
  ∧ (∀ g, g ∈ gs →
       ∃ gm k gk, groupMaps (self w) !! g = Some gm ∧ gm !! k = Some gk
                  ∧ groupColTypes (self w') !! g = Some (type_of <$> gk))
  ∧ (∀ g, g ∉ gs →
       groupColTypes (self w') !! g = groupColTypes (self w) !! g).
Proof.
  induction gs as [|x gs IH]; intros w w' Hfor.
  - cbn in Hfor. injection Hfor as <-. repeat split; try done.
    intros g Hg. by apply elem_of_nil in Hg.
  - cbn [for_] in Hfor. apply bindM_Ok_inv in Hfor as ([] & w1 & H1 & Hfor).
    rewrite set_group_types_run in H1.
    destruct (groupMaps (self w) !! x) as [gm|] eqn:Hx; [|congruence].
    destruct (Py.items gm) as [|[k gk] rest] eqn:Hitems; [congruence|].
    injection H1 as <-.
    destruct (IH _ _ Hfor) as (I1 & I2 & I3 & I4).
    cbn [self with_self groupMaps groupColNames groupColTypes
         set_groupColTypes] in I1, I2, I3, I4.
    split; [done|]. split; [done|]. split.
    + intros g Hg. destruct (decide (g ∈ gs)) as [Hin|Hnin]; [by apply I3|].
      apply elem_of_cons in Hg as [->|?]; [|done].
      exists gm, k, gk. split; [done|]. split.
      * apply items_elem. rewrite Hitems. by left.
      * rewrite I4 by done. by rewrite lookup_insert_eq.
    + intros g Hg. apply not_elem_of_cons in Hg as [Hne Hg].
      rewrite I4 by done. by rewrite lookup_insert_ne.
Qed.

Lemma group_types_loop_raises g gs : ∀ w,
  g ∈ gs → groupMaps (self w) !! g = Some ∅ →
  (∀ g', g' ∈ gs → is_Some (groupMaps (self w) !! g')) →
  ∃ w', for_ gs set_group_types w = (Raise IndexError, w')
        ∧ core (self w') = core (self w)
        ∧ groupMaps (self w') = groupMaps (self w)
        ∧ db_log w' = db_log w.
Proof.
  induction gs as [|x gs IH]; intros w Hin Hg Hall.
  - by apply elem_of_nil in Hin.
  - cbn [for_]. rewrite bindM_unfold, set_group_types_run.
    destruct (Hall x ltac:(by left)) as [gm Hx]. rewrite Hx.
    destruct (Py.items gm) as [|[k gk] rest] eqn:Hitems.
    + by exists w.
    + assert (x ≠ g) as Hne.
      { intros ->. rewrite Hg in Hx. injection Hx as <-.
        unfold Py.items in Hitems. by rewrite map_to_list_empty in Hitems. }
      apply elem_of_cons in Hin as [->|Hin]; [done|].
      edestruct (IH (with_self (λ s, set_groupColTypes
                   (<[x := type_of <$> (k, gk).2]> (groupColTypes s)) s) w))
        as (w' & Hrun & Hc & Hm & Hl); [done|exact Hg| |].
      { intros g' Hg'. apply Hall. by right. }
      exists w'. by rewrite Hrun.
Qed.

Lemma PopulateModel_groups d p gms names w0 w :
  data (self w0) = ∅ →
  db_GetGroupMaps d = Ok (gms, names) →
  PopulateModel (Some d) p false w0 = (Ok (), w) →
  groupMaps (self w) = gms ∧ groupColNames (self w) = names
  ∧ ∀ g gm, gms !! g = Some gm →
      ∃ k gk, gm !! k = Some gk
              ∧ groupColTypes (self w) !! g = Some (type_of <$> gk).
Proof.
  intros Hdata Hgm. unfold PopulateModel.
  erewrite bindM_Ok by reflexivity.
  unfold IsEmpty. rewrite bool_decide_eq_true_2 by done. cbn [negb].
  intros H.
  apply bindM_Ok_inv in H as ([] & w1 & _ & H).
  apply bindM_Ok_inv in H as ([] & w2 & _ & H).
  apply bindM_Ok_inv in H as ([] & w3 & _ & H).
  apply bindM_Ok_inv in H as ([] & w4 & _ & H).
  apply bindM_Ok_inv in H as ([] & w5 & _ & H).
  unfold load_groups in H.
  apply bindM_Ok_inv in H as (fwd & w6 & H6 & H).
  unfold call in H6. rewrite Hgm in H6. injection H6 as <- <-.
  apply bindM_Ok_inv in H as ([] & w7 & H7 & H). injection H7 as <-.
  apply bindM_Ok_inv in H as (rev & w8 & H8 & H).
  apply bindM_Ok_inv in H as ([] & w9 & H9 & H). injection H9 as <-.
  apply bindM_Ok_inv in H as (s & w10 & H10 & H). injection H10 as <- <-.
  apply group_types_loop in H as (I1 & I2 & I3 & _).
  unfold call in H8.
  destruct (db_GetGroupMaps_reverse d) as [rv|e]; [|congruence].
  injection H8 as <- <-.
  cbn in I1, I2, I3. split; [done|]. split; [done|].
  intros g gm Hg.
  destruct (I3 g) as (gm' & k & gk & Hg' & Hk & Ht).
  { apply keys_elem. by rewrite Hg. }
  exists k, gk. split; [congruence|done].
Qed.

Lemma GetGroupColumns_nonempty db p g w :
  IsEmpty (self w) = false →
  GetGroupColumnNames db p g w = (Py.dictitem (groupColNames (self w)) g, w)
  ∧ GetGroupColumnTypes db p g w
    = (Py.dictitem (groupColTypes (self w)) g, w).
Proof.
  intros Hne. unfold GetGroupColumnNames, GetGroupColumnTypes. split.
  - erewrite bindM_Ok by (by apply if_empty_populate_nonempty).
    erewrite bindM_Ok by reflexivity. reflexivity.
  - erewrite bindM_Ok by (by apply if_empty_populate_nonempty).
    erewrite bindM_Ok by reflexivity. reflexivity.
Qed.

(** X10: after a population of an empty model that did not raise, every
    group of [db.GetGroupMaps()] has at least one image;
    [GetGroupColumnTypes(group)] returns the types of the components of the
    group key of one of its images, and [GetGroupColumnNames(group)] the
    column names the database gave for the group (KeyError if it gave
    none). *)
Theorem GetGroupColumns_after_populate d p gms names w0 w g gm :
  data (self w0) = ∅ →
  db_GetGroupMaps d = Ok (gms, names) →
  PopulateModel (Some d) p false w0 = (Ok (), w) →
  IsEmpty (self w) = false →
  gms !! g = Some gm →
  GetGroupColumnNames (Some d) p g w = (Py.dictitem names g, w)
  ∧ ∃ imKey groupKey,
      gm !! imKey = Some groupKey
      ∧ GetGroupColumnTypes (Some d) p g w
        = (Ok (type_of <$> groupKey), w).
Proof.
  intros Hdata Hgm Hpop Hne Hg.
  destruct (PopulateModel_groups d p gms names w0 w Hdata Hgm Hpop)
    as (_ & Hn & Ht).
  destruct (GetGroupColumns_nonempty (Some d) p g w Hne) as [-> ->].
  rewrite Hn. split; [done|].
  destruct (Ht g gm Hg) as (k & gk & Hk & Hty).
  exists k, gk. split; [done|]. by rewrite (dictitem_Some _ _ _ Hty).
Qed.

Lemma GetGroupColumns_after_populate_witness :
  GetGroupColumnNames (Some Example.db) Example.p "Plate" Example.populated
  = (Py.dictitem
       ({[ "Well" := ["plate"; "well"]; "Plate" := ["plate"] ]}
          : gmap string (list string)) "Plate",
     Example.populated)
  ∧ ∃ imKey groupKey,
      ({[ Example.e1 := Example.g0; Example.e2 := Example.g0;
          Example.e3 := Example.g1 ]} : gmap (list Z) (list pyval))
        !! imKey = Some groupKey
      ∧ GetGroupColumnTypes (Some Example.db) Example.p "Plate"
          Example.populated
        = (Ok (type_of <$> groupKey), Example.populated).
Proof.
  apply (GetGroupColumns_after_populate Example.db Example.p
           {[ "Well" := {[ Example.e1 := Example.gA;
                           Example.e2 := Example.gB;
                           Example.e3 := Example.gC ]};
              "Plate" := {[ Example.e1 := Example.g0;
                            Example.e2 := Example.g0;
                            Example.e3 := Example.g1 ]} ]}
           {[ "Well" := ["plate"; "well"]; "Plate" := ["plate"] ]}
           Example.fresh).
  - reflexivity.
  - reflexivity.
  - exact Example_populates.
  - by_vm.
  - by_vm.
Defined.

Lemma count_rows_run rows : ∀ w,
  Forall (λ r, r ≠ []) rows →
  ∃ w', for_ rows count_row w = (Ok (), w')
        ∧ (∀ k, is_Some (data (self w) !! k) → is_Some (data (self w') !! k))
        ∧ db_log w' = db_log w.
Proof.
  induction rows as [|r rows IH]; intros w Hne.
  - exists w. done.
  - apply Forall_cons in Hne as [Hr Hne].
    assert (∃ c, count_row r w
                 = (Ok (), with_self (λ s,
                      set_obCount (obCount s + c)
                        (set_data (<[Py.but_last r := c]> (data s)) s)) w))
      as [c Hrow].
    { unfold count_row. unfold lift at 1. rewrite getitem_neg1.
      destruct (last r) as [c|] eqn:El.
      - exists c. erewrite bindM_Ok by reflexivity.
        erewrite bindM_Ok by reflexivity. reflexivity.
      - apply last_None in El. done. }
    destruct (IH (with_self (λ s,
                set_obCount (obCount s + c)
                  (set_data (<[Py.but_last r := c]> (data s)) s)) w) Hne)
      as (w' & Hrun & Hkeep & Hlog).
    exists w'. cbn [for_]. erewrite bindM_Ok by exact Hrow.
    split; [done|]. split; [|done].
    intros k Hk. apply Hkeep.
    cbn [self with_self data set_obCount set_data].
    destruct (decide (k = Py.but_last r)) as [->|Hneq].
    + rewrite lookup_insert_eq. by eexists.
    + by rewrite lookup_insert_ne.
Qed.

(** X11: when [db.GetGroupMaps()] has a group without any image, a
    population of an empty model raises IndexError in the loop over the
    groups, although every database call succeeded.  The images, the counts
    and the group maps are in place by then, so the model is no longer
    empty: a later [PopulateModel()] is a no-op that does not raise, and the
    loop over the groups is never run again. *)
Theorem PopulateModel_empty_group_raises d p ims rows gms names rev w0 g :
  data (self w0) = ∅ →
  db_CheckTables d = Ok () →
  db_GetAllImageKeys d = Ok ims → ims ≠ [] →
  db_GetPerImageObjectCounts d = Ok rows → Forall (λ r, r ≠ []) rows →
  db_GetGroupMaps d = Ok (gms, names) →
  db_GetGroupMaps_reverse d = Ok rev →
  gms !! g = Some ∅ →
  ∃ w,
    PopulateModel (Some d) p false w0 = (Raise IndexError, w)
    ∧ (∀ k, k ∈ ims → is_Some (data (self w) !! k))
    ∧ groupMaps (self w) = gms
    ∧ PopulateModel (Some d) p false w = (Ok (), w).
Proof.
  intros Hdata Hchk Hims Hnonempty Hrows Hrne Hgm Hrev Hg.
  unfold PopulateModel at 1.
  erewrite bindM_Ok by reflexivity.
  unfold IsEmpty at 1. rewrite bool_decide_eq_true_2 by done. cbn [negb].
  assert (∃ w1, (if bool_decide (check_tables p = "yes")
                 then call CallCheckTables (db_CheckTables d)
                 else mret ()) w0 = (Ok (), w1)
                ∧ self w1 = self w0) as (w1 & H1 & Hs1).
  { destruct (bool_decide _).
    - unfold call. rewrite Hchk. by eexists.
    - by exists w0. }
  erewrite bindM_Ok by exact H1.
  destruct (init_counts d w1) as [r2 w2] eqn:H2.
  destruct (init_counts_data _ _ _ _ _ Hims H2) as [-> Hd2].
  erewrite bindM_Ok by exact H2.
  destruct (count_rows_run rows
              {| self := self w2; entropy := entropy w2; drawn := drawn w2;
                 db_log := db_log w2 ++ [CallGetPerImageObjectCounts] |}
              Hrne) as (w3 & H3 & Hkeep & _).
  erewrite bindM_Ok; cycle 1.
  { unfold count_objects. erewrite bindM_Ok; [exact H3|].
    unfold call. by rewrite Hrows. }
  erewrite bindM_Ok by reflexivity.
  erewrite bindM_Ok by (by apply build_cumSums_eq).
  unfold load_groups.
  erewrite bindM_Ok by (unfold call; rewrite Hgm; reflexivity).
  erewrite bindM_Ok by reflexivity.
  erewrite bindM_Ok by (unfold call; rewrite Hrev; reflexivity).
  erewrite bindM_Ok by reflexivity.
  erewrite bindM_Ok by reflexivity.
  cbn [self with_self groupMaps set_revGroupMaps set_groupColNames
       set_groupMaps fst snd].
  match goal with
  | |- ∃ w, for_ ?gs set_group_types ?w9 = _ ∧ _ =>
      destruct (group_types_loop_raises g gs w9)
        as (w & Hrun & Hcore & Hmaps & _)
  end.
  { apply keys_elem. by rewrite Hg. }
  { exact Hg. }
  { intros g' Hg'. by apply keys_elem in Hg'. }
  exists w. split; [exact Hrun|].
  unfold core in Hcore. cbn in Hcore. injection Hcore as Ed _ _ _.
  assert (∀ k, k ∈ ims → is_Some (data (self w) !! k)) as Hall.
  { intros k Hk. rewrite Ed. apply Hkeep. cbn [self].
    rewrite Hd2, decide_True by done. by eexists. }
  split; [done|]. split; [by rewrite Hmaps|].
  apply PopulateModel_nonempty.
  destruct ims as [|k ims']; [done|].
  destruct (Hall k ltac:(by left)) as [c Hc].
  by eapply lookup_nonempty.
Qed.

Lemma PopulateModel_empty_group_raises_witness :
  ∃ w,
    PopulateModel (Some EmptyGroup.db) Example.p false Example.fresh
    = (Raise IndexError, w)
    ∧ (∀ k, k ∈ [Example.e1; Example.e2; Example.e3; Example.e4] →
         is_Some (data (self w) !! k))
    ∧ groupMaps (self w)
      = {[ "Well" := {[ Example.e1 := Example.gA; Example.e2 := Example.gB;
                        Example.e3 := Example.gC ]};
           "Gene" := ∅ ]}
    ∧ PopulateModel (Some EmptyGroup.db) Example.p false w = (Ok (), w).
Proof.
  apply (PopulateModel_empty_group_raises EmptyGroup.db Example.p
           [Example.e1; Example.e2; Example.e3; Example.e4]
           [[0; 1; 2]; [0; 2; 0]; [0; 3; 3]]%Z
           {[ "Well" := {[ Example.e1 := Example.gA;
                           Example.e2 := Example.gB;
                           Example.e3 := Example.gC ]};
              "Gene" := ∅ ]}
           {[ "Well" := ["plate"; "well"]; "Gene" := ["gene"] ]}
           ({[ "Well" := {[ Example.gA := [Example.e1];
                            Example.gB := [Example.e2];
                            Example.gC := [Example.e3] ]};
               "Gene" := ∅ ]},
            {[ "Well" := ["plate"; "well"]; "Gene" := ["gene"] ]})
           Example.fresh "Gene").
  - reflexivity.
  - reflexivity.
  - reflexivity.
  - discriminate.
  - reflexivity.
  - repeat constructor; discriminate.
  - reflexivity.
  - reflexivity.
  - by_vm.
Defined.

(** ** The filter cache *)

Lemma filter_not_cached (s : DataModel) f :
  filterkeys s !! f = None →
  bool_decide (f ∈ Py.keys (filterkeys s)) = false.
Proof.
  intros Hf. apply bool_decide_eq_false_2. intros Hin.
  apply keys_elem in Hin as [x Hx]. congruence.
Qed.

Lemma filter_cached (s : DataModel) f fk :
  filterkeys s !! f = Some fk →
  bool_decide (f ∈ Py.keys (filterkeys s)) = true.
Proof.
  intros Hf. apply bool_decide_eq_true_2. apply keys_elem. by eexists.
Qed.

(** A filtered lookup that finds the filter in the cache. *)
Lemma GetImagesInGroup_cached db p group groupKey f found fk w :
  IsEmpty (self w) = false →
  reverse_lookup (self w) group groupKey = Ok found →
  filterkeys (self w) !! f = Some fk →
  GetImagesInGroup db p group groupKey (Some f) w
  = (Ok (KeySet (list_to_set found ∩ fk)), w).
Proof.
  intros Hne Hfound Hf. unfold GetImagesInGroup.
  erewrite bindM_Ok by (by apply if_empty_populate_nonempty).
  erewrite bindM_Ok by reflexivity.
  rewrite Hfound, (filter_cached _ _ _ Hf).
  erewrite bindM_Ok by reflexivity.
  erewrite bindM_Ok by reflexivity.
  erewrite bindM_Ok by (unfold lift; rewrite (dictitem_Some _ _ _ Hf);
                        reflexivity).
  reflexivity.
Qed.

(** X12: the first lookup with a filter executes the filter's query once,
    stores the keys it returns and intersects the images of the group with
    them.  Every later lookup with this filter is answered from the stored
    keys, without a database call and without looking at [p._filters],
    whatever the database holds by then (even without a connection). *)
Theorem filter_query_runs_once d p group groupKey f q ks found w :
  IsEmpty (self w) = false →
  reverse_lookup (self w) group groupKey = Ok found →
  filterkeys (self w) !! f = None →
  _filters p !! f = Some q → db_execute d q = Ok ks →
  ∃ w1,
    GetImagesInGroup (Some d) p group groupKey (Some f) w
    = (Ok (KeySet (list_to_set found ∩ list_to_set ks)), w1)
    ∧ db_log w1 = db_log w ++ [CallExecute q]
    ∧ filterkeys (self w1) = <[f := list_to_set ks]> (filterkeys (self w))
    ∧ ∀ db' p' group' groupKey' found',
        reverse_lookup (self w) group' groupKey' = Ok found' →
        GetImagesInGroup db' p' group' groupKey' (Some f) w1
        = (Ok (KeySet (list_to_set found' ∩ list_to_set ks)), w1).
Proof.
  intros Hne Hfound Hf Hq Hks.
  set (w1 := with_self (λ s, set_filterkeys
                 (<[f := list_to_set ks]> (filterkeys s)) s)
               {| self := self w; entropy := entropy w; drawn := drawn w;
                  db_log := db_log w ++ [CallExecute q] |}).
  exists w1. split; [|split; [done|split; [done|]]].
  - unfold GetImagesInGroup.
    erewrite bindM_Ok by (by apply if_empty_populate_nonempty).
    erewrite bindM_Ok by reflexivity.
    rewrite Hfound, (filter_not_cached _ _ Hf).
    erewrite (bindM_Ok _ _ w w1 ()); cycle 1.
    { erewrite bindM_Ok
        by (unfold lift; rewrite (dictitem_Some _ _ _ Hq); reflexivity).
      erewrite bindM_Ok by (unfold on_db, call; rewrite Hks; reflexivity).
      reflexivity. }
    erewrite bindM_Ok by reflexivity.
    erewrite bindM_Ok; cycle 1.
    { unfold lift. subst w1. cbn [self with_self filterkeys set_filterkeys].
      unfold Py.dictitem. rewrite lookup_insert_eq. reflexivity. }
    reflexivity.
  - intros db' p' group' groupKey' found' Hfound'.
    apply GetImagesInGroup_cached.
    + exact Hne.
    + exact Hfound'.
    + subst w1. cbn [self with_self filterkeys set_filterkeys].
      by rewrite lookup_insert_eq.
Qed.

Lemma filter_query_runs_once_witness :
  ∃ w1,
    GetImagesInGroup (Some Example.db) Example.p "Plate" Example.g0
      (Some "f") Example.populated
    = (Ok (KeySet (list_to_set [Example.e1; Example.e2]
                   ∩ list_to_set [Example.e1; Example.e2])), w1)
    ∧ db_log w1 = db_log Example.populated ++ [CallExecute "SELECT 1"]
    ∧ filterkeys (self w1)
      = <["f" := list_to_set [Example.e1; Example.e2]]>
          (filterkeys (self Example.populated))
    ∧ ∀ db' p' group' groupKey' found',
        reverse_lookup (self Example.populated) group' groupKey'
        = Ok found' →
        GetImagesInGroup db' p' group' groupKey' (Some "f") w1
        = (Ok (KeySet (list_to_set found'
                       ∩ list_to_set [Example.e1; Example.e2])), w1).
Proof.
  apply (filter_query_runs_once Example.db Example.p "Plate" Example.g0
           "f" "SELECT 1" [Example.e1; Example.e2]
           [Example.e1; Example.e2] Example.populated).
  - by_vm.
  - by_vm.
  - by_vm.
  - by_vm.
  - reflexivity.
Defined.

(** X13: a filtered lookup that cannot fill the cache raises and stores
    nothing, so the next lookup tries again: KeyError, before any database
    call, when [p._filters] does not have the filter; the error of
    [db.execute] when the query fails.  (The lookup of the group key comes
    first: for a group key that is not found, the result is the empty list,
    whatever the filter.) *)
Theorem filter_errors_not_cached d p group groupKey f found w :
  IsEmpty (self w) = false →
  reverse_lookup (self w) group groupKey = Ok found →
  filterkeys (self w) !! f = None →
  (_filters p !! f = None →
   GetImagesInGroup (Some d) p group groupKey (Some f) w
   = (Raise KeyError, w))
  ∧ (∀ q e, _filters p !! f = Some q → db_execute d q = Raise e →
       ∃ w1,
         GetImagesInGroup (Some d) p group groupKey (Some f) w
         = (Raise e, w1)
         ∧ self w1 = self w
         ∧ db_log w1 = db_log w ++ [CallExecute q]).
Proof.
  intros Hne Hfound Hf. split.
  - intros Hq. unfold GetImagesInGroup.
    erewrite bindM_Ok by (by apply if_empty_populate_nonempty).
    erewrite bindM_Ok by reflexivity.
    rewrite Hfound, (filter_not_cached _ _ Hf).
    rewrite !bindM_unfold. unfold lift, Py.dictitem. by rewrite Hq.
  - intros q e Hq He.
    exists {| self := self w; entropy := entropy w; drawn := drawn w;
              db_log := db_log w ++ [CallExecute q] |}.
    split; [|done].
    unfold GetImagesInGroup.
    erewrite bindM_Ok by (by apply if_empty_populate_nonempty).
    erewrite bindM_Ok by reflexivity.
    rewrite Hfound, (filter_not_cached _ _ Hf).
    rewrite bindM_unfold.
    erewrite bindM_Ok
      by (unfold lift; rewrite (dictitem_Some _ _ _ Hq); reflexivity).
    rewrite bindM_unfold. unfold on_db, call. by rewrite He.
Qed.

Lemma filter_errors_not_cached_witness :
  (_filters Example.p !! "g" = None →
   GetImagesInGroup (Some Example.db) Example.p "Plate" Example.g0
     (Some "g") Example.populated
   = (Raise KeyError, Example.populated))
  ∧ (∀ q e, _filters Example.p !! "g" = Some q →
       db_execute Example.db q = Raise e →
       ∃ w1,
         GetImagesInGroup (Some Example.db) Example.p "Plate" Example.g0
           (Some "g") Example.populated
         = (Raise e, w1)
         ∧ self w1 = self Example.populated
         ∧ db_log w1 = db_log Example.populated ++ [CallExecute q]).
Proof.
  apply (filter_errors_not_cached Example.db Example.p "Plate" Example.g0
           "g" [Example.e1; Example.e2] Example.populated).
  - by_vm.
  - by_vm.
  - by_vm.
Defined.

(** ** Wildcard lookups at the edges *)

Lemma matches_all_wildcards stored query :
  Forall (λ b, b = ANY) query → matches stored query = true.
Proof.
  intros Hq. unfold matches. apply forallb_forall.
  intros [a b] Hin%list_elem_of_In. apply elem_of_zip_r in Hin.
  rewrite Forall_forall in Hq. rewrite (Hq b Hin). cbn.
  rewrite (bool_decide_eq_true_2 (ANY = ANY)) by done.
  by rewrite orb_true_r.
Qed.

Lemma accumulate_all groupKey (items : list (list pyval * list (list Z))) :
  Forall (λ b, b = ANY) groupKey → ∀ acc,
  foldl (λ acc gi, if matches gi.1 groupKey then acc ++ gi.2 else acc)
        acc items
  = acc ++ concat items.*2.
Proof.
  intros Hq. induction items as [|[g ikeys] items IH]; intros acc.
  - cbn. by rewrite app_nil_r.
  - cbn [foldl fmap list_fmap concat fst snd].
    rewrite (matches_all_wildcards g _ Hq), IH. by rewrite <- app_assoc.
Qed.

(** X14: a group key made of wildcards only selects the whole group: the
    result is the concatenation of the image lists of all its group keys, in
    the order of the items of the reverse map, and so holds every image of
    the group.  The stored keys may be of any length. *)
Theorem wildcard_only_selects_group db p group groupKey filter w rm :
  IsEmpty (self w) = false →
  revGroupMaps (self w) !! group = Some rm →
  groupKey ≠ [] → Forall (λ b, b = ANY) groupKey →
  GetImagesInGroupWithWildcards db p group groupKey filter w
  = (Ok (KeyList (concat (Py.values rm))), w)
  ∧ ∀ g ikeys imKey,
      rm !! g = Some ikeys → imKey ∈ ikeys →
      imKey ∈ concat (Py.values rm).
Proof.
  intros Hne Hrm Hnil Hany. split.
  - unfold GetImagesInGroupWithWildcards.
    erewrite bindM_Ok by (by apply if_empty_populate_nonempty).
    assert (has_wildcard groupKey = true) as ->.
    { apply has_wildcard_elem. destruct groupKey as [|b bs]; [done|].
      apply Forall_cons in Hany as [-> _]. by left. }
    erewrite bindM_Ok by reflexivity.
    erewrite bindM_Ok
      by (unfold lift; rewrite (dictitem_Some _ _ _ Hrm); reflexivity).
    by rewrite (accumulate_all _ _ Hany).
  - intros g ikeys imKey Hg Hin. apply list_elem_of_In, in_concat.
    exists ikeys. split; [|by apply list_elem_of_In].
    apply list_elem_of_In.
    unfold Py.values. apply list_elem_of_fmap. exists (g, ikeys).
    split; [done|]. by apply items_elem.
Qed.

Lemma wildcard_only_selects_group_witness :
  GetImagesInGroupWithWildcards (Some Example.db) Example.p "Well" [ANY]
    None Example.populated
  = (Ok (KeyList (concat (Py.values
       ({[ Example.gA := [Example.e1]; Example.gB := [Example.e2];
           Example.gC := [Example.e3] ]}
          : gmap (list pyval) (list (list Z)))))),
     Example.populated)
  ∧ ∀ g ikeys imKey,
      ({[ Example.gA := [Example.e1]; Example.gB := [Example.e2];
          Example.gC := [Example.e3] ]}
         : gmap (list pyval) (list (list Z))) !! g = Some ikeys →
      imKey ∈ ikeys →
      imKey ∈ concat (Py.values
        ({[ Example.gA := [Example.e1]; Example.gB := [Example.e2];
            Example.gC := [Example.e3] ]}
           : gmap (list pyval) (list (list Z)))).
Proof.
  apply wildcard_only_selects_group.
  - by_vm.
  - by_vm.
  - discriminate.
  - repeat constructor.
Defined.

(** X15: for a group the model does not have, a lookup with a wildcard
    raises KeyError, while the lookup of a key without wildcard returns the
    empty list. *)
Theorem wildcard_unknown_group_raises db p group filter w :
  IsEmpty (self w) = false →
  revGroupMaps (self w) !! group = None →
  ∀ groupKey,
    GetImagesInGroupWithWildcards db p group groupKey filter w
    = (if has_wildcard groupKey then Raise KeyError else Ok (KeyList []),
       w).
Proof.
  intros Hne Hrm groupKey. unfold GetImagesInGroupWithWildcards.
  erewrite bindM_Ok by (by apply if_empty_populate_nonempty).
  destruct (has_wildcard groupKey).
  - erewrite bindM_Ok by reflexivity.
    rewrite bindM_unfold. unfold lift, Py.dictitem. by rewrite Hrm.
  - apply GetImagesInGroup_KeyError; [done|].
    by apply reverse_lookup_unknown_group.
Qed.

Lemma wildcard_unknown_group_raises_witness :
  GetImagesInGroupWithWildcards (Some Example.db) Example.p "Gene"
    [ANY; PStr "A01"] None Example.populated
  = (if has_wildcard [ANY; PStr "A01"]
     then Raise KeyError else Ok (KeyList []),
     Example.populated)
  ∧ GetImagesInGroupWithWildcards (Some Example.db) Example.p "Gene"
      [PInt 0; PStr "A01"] None Example.populated
    = (if has_wildcard [PInt 0; PStr "A01"]
       then Raise KeyError else Ok (KeyList []),
       Example.populated).
Proof.
  split; apply wildcard_unknown_group_raises; by_vm.
Defined.

(** X16: [GetGroupKeysInGroup(group)] on a populated model returns every
    group key that some image of the group has, each once; for a group the
    model does not have it raises KeyError. *)
Theorem GetGroupKeysInGroup_distinct db p group w :
  IsEmpty (self w) = false →
  (∀ gm, groupMaps (self w) !! group = Some gm →
     ∃ gkeys,
       GetGroupKeysInGroup db p group w = (Ok gkeys, w)
       ∧ NoDup gkeys
       ∧ ∀ g, g ∈ gkeys ↔ ∃ imKey, gm !! imKey = Some g)
  ∧ (groupMaps (self w) !! group = None →
     GetGroupKeysInGroup db p group w = (Raise KeyError, w)).
Proof.
  intros Hne. unfold GetGroupKeysInGroup.
  erewrite bindM_Ok by (by apply if_empty_populate_nonempty).
  erewrite bindM_Ok by reflexivity.
  rewrite bindM_unfold. unfold lift, Py.dictitem. split.
  - intros gm ->.
    eexists. split; [reflexivity|]. split; [apply NoDup_elements|].
    intros g. rewrite elem_of_elements, elem_of_list_to_set.
    unfold Py.values. rewrite list_elem_of_fmap. split.
    + intros ([k g'] & -> & Hin). exists k. by apply items_elem.
    + intros [k Hk]. exists (k, g). split; [done|]. by apply items_elem.
  - by intros ->.
Qed.

Lemma GetGroupKeysInGroup_distinct_witness :
  (∀ gm, groupMaps (self Example.populated) !! "Plate" = Some gm →
     ∃ gkeys,
       GetGroupKeysInGroup (Some Example.db) Example.p "Plate"
         Example.populated = (Ok gkeys, Example.populated)
       ∧ NoDup gkeys
       ∧ ∀ g, g ∈ gkeys ↔ ∃ imKey, gm !! imKey = Some g)
  ∧ (groupMaps (self Example.populated) !! "Plate" = None →
     GetGroupKeysInGroup (Some Example.db) Example.p "Plate"
       Example.populated = (Raise KeyError, Example.populated)).
Proof. apply GetGroupKeysInGroup_distinct. by_vm. Defined.

(** * Profiles: reading a table *)

Lemma index_throw x l e : Prof.index x l = Prof.Throw e →
  e = Prof.ValueError ∧ x ∉ l.
Proof.
  induction l as [|y l IH]; cbn.
  - intros [= <-]. split; [done|]. apply not_elem_of_nil.
  - destruct (bool_decide_reflect (y = x)) as [->|Hne]; [done|].
    destruct (Prof.index x l) as [i|e'] eqn:E; cbn; [done|].
    intros [= <-]. destruct (IH eq_refl) as [-> Hnin]. split; [done|].
    by apply not_elem_of_cons.
Qed.

Lemma index_return x l j : Prof.index x l = Prof.Return j →
  l !! j = Some x ∧ Forall (λ y, y ≠ x) (take j l).
Proof.
  revert j. induction l as [|y l IH]; intros j; cbn; [done|].
  destruct (bool_decide_reflect (y = x)) as [->|Hne].
  - intros [= <-]. split; [done|]. constructor.
  - destruct (Prof.index x l) as [i|e'] eqn:E; cbn; [|done].
    intros [= <-]. destruct (IH i eq_refl) as [Hi Hbefore].
    split; [done|]. cbn. by constructor.
Qed.

Lemma index_skip x l1 l2 :
  Forall (λ y, y ≠ x) l1 → Prof.index x (l1 ++ x :: l2) = Prof.Return (length l1).
Proof.
  induction 1 as [|y l1 Hy _ IH]; cbn.
  - by rewrite bool_decide_eq_true_2.
  - rewrite bool_decide_eq_false_2 by done. by rewrite IH.
Qed.

Lemma index_elem x l : x ∈ l → ∃ i, Prof.index x l = Prof.Return i.
Proof.
  intros Hin. destruct (Prof.index x l) as [i|e] eqn:E; [by exists i|].
  by apply index_throw in E as [_ Hnin].
Qed.

(** The loop over the headers of the key columns. *)
Lemma header_check_pass filename n l :
  Forall (λ h, h = "") l →
  mapM (λ h : string,
          if bool_decide (h ≠ "")
          then Prof.Throw (Prof.InputError filename Prof.header_message
                             (Some n))
          else Prof.Return ()) l
  = Prof.Return (replicate (length l) ()).
Proof.
  induction 1 as [|h l -> _ IH]; [done|].
  cbn [mapM]. rewrite bool_decide_eq_false_2 by (by intros ?).
  cbn. rewrite IH. reflexivity.
Qed.

Lemma header_check_fail filename n l h :
  h ∈ l → h ≠ "" →
  mapM (λ h : string,
          if bool_decide (h ≠ "")
          then Prof.Throw (Prof.InputError filename Prof.header_message
                             (Some n))
          else Prof.Return ()) l
  = Prof.Throw (Prof.InputError filename Prof.header_message (Some n)).
Proof.
  intros Hin Hne. induction l as [|x l IH]; [by apply elem_of_nil in Hin|].
  cbn [mapM]. destruct (bool_decide_reflect (x ≠ "")) as [|Hx]; [done|].
  apply elem_of_cons in Hin as [->|Hin]; [done|].
  cbn. rewrite IH by done. reflexivity.
Qed.

Lemma header_check_inv filename n l us :
  mapM (λ h : string,
          if bool_decide (h ≠ "")
          then Prof.Throw (Prof.InputError filename Prof.header_message
                             (Some n))
          else Prof.Return ()) l
  = Prof.Return us →
  Forall (λ h, h = "") l.
Proof.
  intros Hrun. apply Forall_forall. intros h Hin.
  destruct (decide (h = "")) as [|Hne]; [done|].
  by rewrite (header_check_fail filename n l h Hin Hne) in Hrun.
Qed.

(** The key size of a header row: read off what the first round computes. *)
Lemma read_header_canonical filename i g ks vs :
  1 ≤ ks → Forall (λ v, v ≠ "") vs →
  Prof.read_header filename i (header_cells g ks vs)
  = Prof.Return (ks, vs, g).
Proof.
  intros Hks Hvs. unfold Prof.read_header, header_cells.
  set (headers := g :: replicate (ks - 1) "" ++ vs).
  assert (length headers = ks + length vs) as Hlen.
  { unfold headers. cbn. rewrite length_app, length_replicate. lia. }
  assert (match (_ ← Prof.index "" headers;
                 j ← Prof.index "" (reverse headers);
                 Prof.Return (length headers - j))
          with
          | Prof.Throw Prof.ValueError => Prof.Return 1
          | r => r
          end = Prof.Return ks) as ->.
  { destruct (Prof.index "" headers) as [i0|e] eqn:E.
    - cbn [mbind Prof.result_bind]. apply index_return in E as [Hi0 _].
      apply list_elem_of_lookup_2 in Hi0.
      assert (∃ l2, reverse headers = reverse vs ++ "" :: l2) as [l2 Hrev].
      { unfold headers in *. rewrite reverse_cons, reverse_app.
        destruct (ks - 1) as [|n] eqn:En.
        - cbn in Hi0. rewrite app_nil_r.
          apply elem_of_cons in Hi0 as [<-|Hin]; [by exists []|].
          rewrite Forall_forall in Hvs. by destruct (Hvs "" Hin).
        - cbn [replicate]. rewrite reverse_cons, <- !app_assoc.
          rewrite reverse_replicate.
          destruct n as [|n]; cbn; eauto. }
      rewrite Hrev, index_skip by (by apply Forall_reverse).
      cbn [mbind Prof.result_bind]. rewrite length_reverse.
      assert (ks - 1 = 0 → ks = 1) by lia.
      f_equal. unfold headers in Hrev.
      apply (f_equal length) in Hrev.
      rewrite length_reverse in Hrev. cbn in Hrev.
      rewrite !length_app, length_replicate in Hrev.
      rewrite length_reverse in Hrev. cbn in Hrev.
      lia.
    - cbn [mbind Prof.result_bind]. apply index_throw in E as [-> Hnin].
      f_equal. destruct (decide (ks = 1)) as [|Hne]; [done|].
      exfalso. apply Hnin. unfold headers.
      replace (ks - 1) with (S (ks - 2)) by lia. cbn. right. by left. }
  cbn [mbind Prof.result_bind].
  assert (Prof.slice 1 ks headers = replicate (ks - 1) "") as ->.
  { unfold Prof.slice, headers. destruct ks as [|n]; [lia|].
    cbn [take drop]. replace (S n - 1) with n by lia.
    rewrite take_app_le by (rewrite length_replicate; lia).
    rewrite take_ge by (rewrite length_replicate; lia). reflexivity. }
  rewrite header_check_pass by (apply Forall_replicate; done).
  cbn [mbind Prof.result_bind].
  assert (drop ks headers = vs) as ->.
  { unfold headers. destruct ks as [|n]; [lia|]. cbn [drop].
    replace (S n - 1) with n by lia.
    rewrite drop_app_length'; [done|]. by rewrite length_replicate. }
  reflexivity.
Qed.

Lemma key_size_spec (headers : list string) k :
  match (_ ← Prof.index "" headers;
         j ← Prof.index "" (reverse headers);
         Prof.Return (length headers - j))
  with
  | Prof.Throw Prof.ValueError => Prof.Return 1
  | r => r
  end = Prof.Return k →
  headers ≠ [] →
  1 ≤ k ≤ length headers ∧ Forall (λ v, v ≠ "") (drop k headers).
Proof.
  intros Hk Hne.
  assert (1 ≤ length headers) as Hlen.
  { destruct headers; [done | cbn; lia]. }
  assert ("" ∉ headers → Forall (λ v : string, v ≠ "") (drop 1 headers))
    as Hnone.
  { intros Hnin. apply Forall_forall. intros v Hv ->. apply Hnin.
    apply list_elem_of_lookup in Hv as [i Hi].
    rewrite lookup_drop in Hi. by eapply list_elem_of_lookup_2. }
  destruct (Prof.index "" headers) as [i0|e] eqn:E;
    cbn [mbind Prof.result_bind] in Hk.
  - destruct (Prof.index "" (reverse headers)) as [j|e] eqn:E';
      cbn [mbind Prof.result_bind] in Hk.
    + injection Hk as <-.
      apply index_return in E' as [Hj Hbefore].
      apply lookup_lt_Some in Hj. rewrite length_reverse in Hj.
      split; [lia|].
      rewrite take_reverse in Hbefore. apply Forall_reverse in Hbefore.
      by rewrite reverse_involutive in Hbefore.
    + apply index_throw in E' as [-> Hnin]. injection Hk as <-.
      split; [lia|]. apply Hnone. intros Hin. apply Hnin.
      by apply elem_of_reverse.
  - apply index_throw in E as [-> Hnin]. injection Hk as <-.
    split; [lia|]. by apply Hnone.
Qed.

Lemma read_header_inv filename i headers ks vs g :
  Prof.read_header filename i headers = Prof.Return (ks, vs, g) →
  headers = header_cells g ks vs ∧ 1 ≤ ks ∧ Forall (λ v, v ≠ "") vs.
Proof.
  unfold Prof.read_header.
  destruct (match (_ ← Prof.index "" headers;
                   j ← Prof.index "" (reverse headers);
                   Prof.Return (length headers - j))
            with
            | Prof.Throw Prof.ValueError => Prof.Return 1
            | r => r
            end) as [k|e] eqn:EK; cbn [mbind Prof.result_bind]; [|done].
  destruct (mapM _ (Prof.slice 1 k headers)) as [us|e] eqn:EC;
    cbn [mbind Prof.result_bind]; [|done].
  destruct headers as [|h t]; [done|]. cbn [Prof.first mbind Prof.result_bind].
  intros [= <- <- <-].
  destruct (key_size_spec _ _ EK ltac:(done)) as [[Hk1 Hk2] Hvs].
  apply header_check_inv in EC.
  split; [|done]. unfold header_cells. f_equal.
  destruct k as [|n]; [lia|]. cbn in Hk2.
  unfold Prof.slice in EC. cbn [take drop] in *.
  replace (S n - 1) with n by lia.
  rewrite <- (take_drop n t) at 1. f_equal.
  symmetry. apply replicate_as_Forall_2; [rewrite length_take; lia|].
  eapply Forall_impl; [exact EC|]. by intros v ->.
Qed.

Section ProfilesProofs.

Context {F : Type} (float : string → option F).

Local Abbreviation to_float :=
  (λ v, match float v with
        | Some x => Prof.Return x
        | None => Prof.Throw Prof.ValueError
        end).

Local Abbreviation step filename :=
  (λ (st : Prof.locals) (ir : nat * list string),
     Prof.read float filename st ir.1 ir.2).

Lemma floats_ok strs xs : reads float strs xs → mapM to_float strs = Prof.Return xs.
Proof.
  induction 1 as [|s x strs xs Hs _ IH]; [done|].
  cbn [mapM]. rewrite Hs. cbn. rewrite IH. reflexivity.
Qed.

Lemma floats_inv strs xs : mapM to_float strs = Prof.Return xs → reads float strs xs.
Proof.
  revert xs. induction strs as [|s strs IH]; intros xs; cbn [mapM].
  - intros [= <-]. constructor.
  - destruct (float s) as [x|] eqn:Hs; cbn; [|done].
    destruct (mapM _ strs) as [xs'|e] eqn:E; cbn; [|done].
    intros [= <-]. constructor; [done|]. by apply IH.
Qed.

Lemma read_row_ok filename i ks vs key strs xs :
  length key = ks → length strs = length vs → reads float strs xs →
  Prof.read_row float filename i ks vs (key ++ strs) = Prof.Return (key, xs).
Proof.
  intros Hk Hs Hx. unfold Prof.read_row.
  rewrite take_app_length', drop_app_length' by done.
  rewrite bool_decide_eq_false_2 by (intros H; by apply H).
  rewrite (floats_ok _ _ Hx). reflexivity.
Qed.

Lemma read_row_bad filename i ks vs row :
  length (drop ks row) ≠ length vs →
  Prof.read_row float filename i ks vs row
  = Prof.Throw (Prof.InputError filename
      (Prof.values_message (length vs) (length (drop ks row)))
      (Some (i + 1))).
Proof.
  intros Hne. unfold Prof.read_row. by rewrite bool_decide_eq_true_2.
Qed.

Lemma read_row_inv filename i ks vs row key xs :
  Prof.read_row float filename i ks vs row = Prof.Return (key, xs) →
  key = take ks row
  ∧ length (drop ks row) = length vs
  ∧ reads float (drop ks row) xs.
Proof.
  unfold Prof.read_row.
  destruct (bool_decide_reflect (length (drop ks row) ≠ length vs))
    as [|Heq]; [done|].
  destruct (mapM _ (drop ks row)) as [xs'|e] eqn:E; cbn; [|done].
  intros [= <- <-]. split; [done|]. split.
  - destruct (decide (length (drop ks row) = length vs)); [done|].
    by destruct Heq.
  - by apply floats_inv.
Qed.

Lemma enumerate_from_cons {A} base (x : A) l :
  imap (λ i y, (base + i, y)) (x :: l)
  = (base, x) :: imap (λ i y, (S base + i, y)) l.
Proof.
  rewrite imap_cons, Nat.add_0_r. f_equal.
  apply imap_ext. intros i y _. cbn. f_equal. lia.
Qed.

Lemma foldM_app {A B} (f : B → A → Prof.result B) l1 l2 acc :
  Prof.foldM f acc (l1 ++ l2)
  = (acc' ← Prof.foldM f acc l1; Prof.foldM f acc' l2).
Proof.
  revert acc. induction l1 as [|x l1 IH]; intros acc; [done|].
  cbn [app Prof.foldM]. destruct (f acc x) as [acc'|e]; cbn; [|done].
  apply IH.
Qed.

Lemma read_later filename st i ks vs g row :
  1 ≤ i → Prof.l_header st = Some (ks, vs, g) →
  Prof.read float filename st i row
  = (kd ← Prof.read_row float filename i ks vs row;
     Prof.Return {| Prof.l_header := Prof.l_header st;
                    Prof.l_keys := Prof.l_keys st ++ [kd.1];
                    Prof.l_data := Prof.l_data st ++ [kd.2] |}).
Proof.
  intros Hi Hst. unfold Prof.read.
  destruct (Nat.eqb_spec i 0) as [|_]; [lia|]. by rewrite Hst.
Qed.

(** The rounds after the first, on rows that are a key and as many values
    as there are variables. *)
Lemma rows_loop_ok filename ks vs g cells parsed :
  Forall2 (λ strs xs, length strs = length vs ∧ reads float strs xs)
    cells parsed →
  ∀ keys base st,
  1 ≤ base → Prof.l_header st = Some (ks, vs, g) →
  Forall (λ k, length k = ks) keys → length keys = length cells →
  Prof.foldM (step filename) st
    (imap (λ i x, (base + i, x)) (zip_with app keys cells))
  = Prof.Return {| Prof.l_header := Prof.l_header st;
                   Prof.l_keys := Prof.l_keys st ++ keys;
                   Prof.l_data := Prof.l_data st ++ parsed |}.
Proof.
  induction 1 as [|strs xs cells parsed [Hlen Hx] _ IH];
    intros keys base st Hbase Hst Hkeys Hlk.
  - destruct keys; [|done]. cbn. rewrite !app_nil_r. by destruct st.
  - destruct keys as [|key keys]; [done|].
    apply Forall_cons in Hkeys as [Hkey Hkeys].
    cbn [zip_with]. rewrite enumerate_from_cons. cbn [Prof.foldM fst snd].
    rewrite (read_later _ _ _ _ _ _ _ Hbase Hst).
    rewrite (read_row_ok _ _ _ _ _ _ _ Hkey Hlen Hx).
    cbn [mbind Prof.result_bind fst snd].
    rewrite IH; [|lia|done|done|by injection Hlk].
    cbn [Prof.l_header Prof.l_keys Prof.l_data].
    by rewrite <- !app_assoc.
Qed.

Lemma rows_loop_inv filename ks vs g rows :
  ∀ base st st',
  1 ≤ base → Prof.l_header st = Some (ks, vs, g) →
  Prof.foldM (step filename) st (imap (λ i x, (base + i, x)) rows)
  = Prof.Return st' →
  Prof.l_header st' = Prof.l_header st
  ∧ Prof.l_keys st' = Prof.l_keys st ++ (take ks <$> rows)
  ∧ ∃ parsed,
      Prof.l_data st' = Prof.l_data st ++ parsed
      ∧ Forall2 (λ row xs, length (drop ks row) = length vs
                           ∧ reads float (drop ks row) xs) rows parsed.
Proof.
  induction rows as [|row rows IH]; intros base st st' Hbase Hst.
  - cbn. intros [= <-]. rewrite app_nil_r. split; [done|]. split; [done|].
    exists []. rewrite app_nil_r. split; [done|constructor].
  - rewrite enumerate_from_cons. cbn [Prof.foldM fst snd].
    rewrite (read_later _ _ _ _ _ _ _ Hbase Hst).
    destruct (Prof.read_row float filename base ks vs row)
      as [[key xs]|e] eqn:Hrow; cbn [mbind Prof.result_bind fst snd];
      [|done].
    apply read_row_inv in Hrow as (-> & Hlen & Hx).
    intros Hrest. apply IH in Hrest as (H1 & H2 & parsed & H3 & H4);
      [|lia|done].
    cbn [Prof.l_header Prof.l_keys Prof.l_data] in *.
    split; [done|]. split; [by rewrite H2, <- app_assoc|].
    exists (xs :: parsed). split; [by rewrite H3, <- app_assoc|].
    by constructor.
Qed.

Lemma load_csv_unfold filename headers rows :
  Prof.load_csv float filename (headers :: rows)
  = (h ← Prof.read_header filename 0 headers;
     st ← Prof.foldM (step filename)
            {| Prof.l_header := Some h; Prof.l_keys := [];
               Prof.l_data := [] |}
            (imap (λ i x, (1 + i, x)) rows);
     Prof.finish st).
Proof.
  unfold Prof.load_csv, Py.enumerate. rewrite imap_cons.
  cbn [Prof.foldM fst snd].
  change (Prof.read float filename Prof.start 0 headers)
    with (h ← Prof.read_header filename 0 headers;
          Prof.Return {| Prof.l_header := Some h; Prof.l_keys := [];
                         Prof.l_data := @nil (list F) |}).
  destruct (Prof.read_header filename 0 headers) as [h|e]; reflexivity.
Qed.

Lemma shape_1_uniform (data : list (list F)) m :
  data ≠ [] → Forall (λ r, length r = m) data →
  Prof.shape_1 data = Prof.Return m.
Proof.
  intros Hne Hall. destruct data as [|r rs]; [done|].
  apply Forall_cons in Hall as [<- Hall]. unfold Prof.shape_1.
  rewrite (proj2 (forallb_forall _ _)); [done|].
  intros r' Hin%list_elem_of_In. rewrite Forall_forall in Hall.
  apply Nat.eqb_eq. by apply Hall.
Qed.

Lemma reads_length strs xs : reads float strs xs → length xs = length strs.
Proof. intros H. symmetry. by eapply Forall2_length. Qed.

(** What a table that loads looks like, and what was read from it. *)
Lemma load_csv_inv filename headers rows pr :
  Prof.load_csv float filename (headers :: rows) = Prof.Return pr →
  ∃ g,
    Prof.group_name pr = Some g
    ∧ headers = header_cells g (Prof.key_size pr) (Prof.variables pr)
    ∧ 1 ≤ Prof.key_size pr
    ∧ Forall (λ v, v ≠ "") (Prof.variables pr)
    ∧ Prof._keys pr = take (Prof.key_size pr) <$> rows
    ∧ Forall2 (λ row xs,
         length (drop (Prof.key_size pr) row) = length (Prof.variables pr)
         ∧ reads float (drop (Prof.key_size pr) row) xs)
        rows (Prof.data pr).
Proof.
  rewrite load_csv_unfold.
  destruct (Prof.read_header filename 0 headers) as [[[ks vs] g]|e] eqn:Hh;
    cbn [mbind Prof.result_bind]; [|done].
  apply read_header_inv in Hh as (Hheaders & Hks & Hvs).
  destruct (Prof.foldM _ _ _) as [st|e] eqn:Hloop;
    cbn [mbind Prof.result_bind]; [|done].
  apply (rows_loop_inv filename ks vs g) in Hloop
    as (H1 & H2 & parsed & H3 & H4); [|lia|done].
  cbn [Prof.l_header Prof.l_keys Prof.l_data app] in *.
  unfold Prof.finish. rewrite H1. cbn. intros [= <-]. cbn.
  exists g. rewrite H2, H3. done.
Qed.

End ProfilesProofs.

(** X17: [load_csv] reads a well-formed table: under a header row of the
    group name, [ks - 1] empty cells and the names of the variables (none of
    them empty), rows made of a key of [ks] cells and one number per
    variable give a profile per row, in the order of the file, with the key
    size, the variables and the group name of the header. *)
Theorem load_csv_reads_table {F} (float : string → option F) filename
    g ks vs keys cells (parsed : list (list F)) :
  1 ≤ ks → Forall (λ v, v ≠ "") vs →
  Forall (λ k, length k = ks) keys →
  Forall2 (λ strs xs, length strs = length vs ∧ reads float strs xs)
    cells parsed →
  length keys = length cells →
  Prof.load_csv float filename
    (header_cells g ks vs :: zip_with app keys cells)
  = Prof.Return {| Prof._keys := keys; Prof.data := parsed;
                   Prof.variables := vs; Prof.key_size := ks;
                   Prof.group_name := Some g |}.
Proof.
  intros Hks Hvs Hkeys Hcells Hlen.
  rewrite load_csv_unfold, read_header_canonical by done.
  cbn [mbind Prof.result_bind].
  erewrite (rows_loop_ok float filename ks vs g cells parsed Hcells);
    [|lia|reflexivity|done|done].
  reflexivity.
Qed.

Lemma load_csv_reads_table_witness :
  Prof.load_csv Prof.number "profiles.csv"
    (header_cells "Well" 2 ["area"; "count"]
     :: zip_with app [["p1"; "A01"]; ["p1"; "A02"]]
                     [["10"; "3"]; ["12"; "5"]])
  = Prof.Return {| Prof._keys := [["p1"; "A01"]; ["p1"; "A02"]];
                   Prof.data := [[10; 3]; [12; 5]]%Z;
                   Prof.variables := ["area"; "count"];
                   Prof.key_size := 2;
                   Prof.group_name := Some "Well" |}.
Proof.
  apply load_csv_reads_table.
  - lia.
  - repeat constructor; discriminate.
  - repeat constructor.
  - repeat constructor.
  - reflexivity.
Defined.

(** X18: the header of a loaded table is the header row of the file:
    [header()] of the profiles that [load_csv] returns gives back, cell by
    cell, the first row it read, provided the file has at least one profile.
    A file with a header row only loads as well, but [header()] of the
    result, and so saving it, raises IndexError. *)
Theorem header_of_loaded_table {F} (float : string → option F) filename
    headers rows pr :
  Prof.load_csv float filename (headers :: rows) = Prof.Return pr →
  Prof.header pr
  = match rows with
    | [] => Prof.Throw Prof.IndexError
    | _ => Prof.Return headers
    end.
Proof.
  intros Hload.
  destruct (load_csv_inv float filename headers rows pr Hload)
    as (g & Hg & Hh & Hks & _ & _ & Hdata).
  unfold Prof.header. rewrite Hg.
  destruct rows as [|row rows].
  - apply Forall2_nil_inv_l in Hdata. by rewrite Hdata.
  - rewrite (shape_1_uniform _ (length (Prof.variables pr))); cycle 1.
    { apply Forall2_cons_inv_l in Hdata as (xs & ? & _ & _ & ->). done. }
    { eapply Forall2_Forall_r; [exact Hdata|]. apply Forall_forall.
      intros row' _ xs [Hlen Hx]. rewrite <- Hlen.
      by apply (reads_length float). }
    cbn [mbind Prof.result_bind].
    rewrite bool_decide_eq_true_2; [by rewrite Hh|].
    cbn. rewrite length_app, length_replicate. lia.
Qed.

Lemma header_of_loaded_table_witness :
  Prof.header
    {| Prof._keys := [["p1"; "A01"]; ["p1"; "A02"]];
       Prof.data := [[10; 3]; [12; 5]]%Z;
       Prof.variables := ["area"; "count"];
       Prof.key_size := 2;
       Prof.group_name := Some "Well" |}
  = Prof.Return ["Well"; ""; "area"; "count"].
Proof.
  apply (header_of_loaded_table Prof.number "profiles.csv"
           ["Well"; ""; "area"; "count"]
           [["p1"; "A01"; "10"; "3"]; ["p1"; "A02"; "12"; "5"]]).
  reflexivity.
Defined.

(** X19: the first row that does not have one value per variable stops
    [load_csv] with an InputError that names the file, both counts and the
    line of the row, counted from 1 with the header as line 1; the rows
    after it are not looked at. *)
Theorem load_csv_wrong_value_count {F} (float : string → option F) filename
    g ks vs keys cells (parsed : list (list F)) bad rest :
  1 ≤ ks → Forall (λ v, v ≠ "") vs →
  Forall (λ k, length k = ks) keys →
  Forall2 (λ strs xs, length strs = length vs ∧ reads float strs xs)
    cells parsed →
  length keys = length cells →
  length (drop ks bad) ≠ length vs →
  Prof.load_csv float filename
    (header_cells g ks vs :: zip_with app keys cells ++ bad :: rest)
  = Prof.Throw (Prof.InputError filename
      ("Expected " +:+ pretty (length vs) +:+ " feature values, found "
       +:+ pretty (length (drop ks bad)))
      (Some (length cells + 2))).
Proof.
  intros Hks Hvs Hkeys Hcells Hlen Hbad.
  rewrite load_csv_unfold, read_header_canonical by done.
  cbn [mbind Prof.result_bind].
  rewrite imap_app, foldM_app.
  erewrite (rows_loop_ok float filename ks vs g cells parsed Hcells);
    [|lia|reflexivity|done|done].
  cbn [mbind Prof.result_bind].
  rewrite imap_cons. cbn [Prof.foldM fst snd].
  erewrite read_later; [|lia|reflexivity].
  rewrite read_row_bad by done. cbn [mbind Prof.result_bind].
  unfold Prof.values_message. do 3 f_equal.
  rewrite length_zip_with, Hlen. lia.
Qed.

Lemma load_csv_wrong_value_count_witness :
  Prof.load_csv Prof.number "profiles.csv"
    (header_cells "Well" 2 ["area"; "count"]
     :: zip_with app [["p1"; "A01"]] [["10"; "3"]]
        ++ ["p1"; "A02"; "12"] :: [["p1"; "A03"; "7"; "1"]])
  = Prof.Throw (Prof.InputError "profiles.csv"
      ("Expected " +:+ pretty (length ["area"; "count"])
       +:+ " feature values, found "
       +:+ pretty (length (drop 2 ["p1"; "A02"; "12"])))
      (Some (length [["10"; "3"]] + 2))).
Proof.
  apply (load_csv_wrong_value_count Prof.number "profiles.csv" "Well" 2
           ["area"; "count"] [["p1"; "A01"]] [["10"; "3"]] [[10; 3]]%Z).
  - lia.
  - repeat constructor; discriminate.
  - repeat constructor.
  - repeat constructor.
  - reflexivity.
  - cbn. lia.
Defined.

Example load_csv_wrong_value_count_example :
  Prof.load_csv Prof.number "profiles.csv"
    [ ["Well"; ""; "area"; "count"];
      ["p1"; "A01"; "10"; "3"];
      ["p1"; "A02"; "12"] ]
  = Prof.Throw (Prof.InputError "profiles.csv"
      "Expected 2 feature values, found 1" (Some 3)).
Proof. vm_compute. reflexivity. Qed.

Lemma key_size_total (headers : list string) :
  ∃ k, match (_ ← Prof.index "" headers;
              j ← Prof.index "" (reverse headers);
              Prof.Return (length headers - j))
       with
       | Prof.Throw Prof.ValueError => Prof.Return 1
       | r => r
       end = Prof.Return k.
Proof.
  destruct (Prof.index "" headers) as [i0|e] eqn:E;
    cbn [mbind Prof.result_bind].
  - destruct (Prof.index "" (reverse headers)) as [j|e] eqn:E';
      cbn [mbind Prof.result_bind]; [by eexists|].
    apply index_throw in E' as [-> _]. by eexists.
  - apply index_throw in E as [-> _]. by eexists.
Qed.

(** X20: a header row with a name in a key column other than the first,
    that is, a non-empty cell that is followed somewhere by an empty one,
    stops [load_csv] with the InputError of the header, at line 1.  An empty
    variable name is such a case: every column up to the last empty header
    cell counts as a key column. *)
Theorem load_csv_misplaced_header {F} (float : string → option F) filename
    headers rows i j h :
  1 ≤ i < j → headers !! i = Some h → h ≠ "" → headers !! j = Some "" →
  Prof.load_csv float filename (headers :: rows)
  = Prof.Throw (Prof.InputError filename
      "Header should be empty for the key columns, except for the first, which should contain the group name"
      (Some 1)).
Proof.
  intros Hij Hi Hh Hj. rewrite load_csv_unfold. unfold Prof.read_header.
  destruct (key_size_total headers) as [k Hk]. rewrite Hk.
  cbn [mbind Prof.result_bind].
  assert (headers ≠ []) as Hne by (by intros ->).
  destruct (key_size_spec headers k Hk Hne) as [_ Hvs].
  assert (j < k) as Hjk.
  { destruct (decide (j < k)) as [|Hge]; [done|]. exfalso.
    rewrite Forall_forall in Hvs. apply (Hvs ""); [|done].
    apply (list_elem_of_lookup_2 _ (j - k)). rewrite lookup_drop.
    by replace (k + (j - k)) with j by lia. }
  rewrite (header_check_fail filename (0 + 1) _ h); [done| |done].
  unfold Prof.slice. apply (list_elem_of_lookup_2 _ (i - 1)).
  rewrite lookup_drop. replace (1 + (i - 1)) with i by lia.
  rewrite lookup_take_lt by lia. done.
Qed.

Lemma load_csv_misplaced_header_witness :
  Prof.load_csv Prof.number "profiles.csv"
    (["Well"; ""; "area"; ""; "count"] :: [["p1"; "A01"; "10"; "3"; "4"]])
  = Prof.Throw (Prof.InputError "profiles.csv"
      "Header should be empty for the key columns, except for the first, which should contain the group name"
      (Some 1)).
Proof.
  apply (load_csv_misplaced_header Prof.number "profiles.csv"
           ["Well"; ""; "area"; ""; "count"] _ 2 3 "area").
  - lia.
  - reflexivity.
  - discriminate.
  - reflexivity.
Defined.

(** X21: what [load_csv] returns, for any file it accepts: one profile per
    row after the header, in the order of the file; the key of a profile is
    the first [key_size] cells of its row, and its data are the numbers read
    from the other cells, one per variable.  [key_size] is at least 1, no
    variable has an empty name, and when there is a variable every key has
    exactly [key_size] components. *)
Theorem load_csv_profiles {F} (float : string → option F) filename
    headers rows pr :
  Prof.load_csv float filename (headers :: rows) = Prof.Return pr →
  let ks := Prof.key_size pr in
  let vs := Prof.variables pr in
  1 ≤ ks
  ∧ Forall (λ v, v ≠ "") vs
  ∧ length (Prof._keys pr) = length rows
  ∧ length (Prof.data pr) = length rows
  ∧ (∀ n row, rows !! n = Some row →
       ∃ xs, Prof._keys pr !! n = Some (take ks row)
             ∧ Prof.data pr !! n = Some xs
             ∧ length xs = length vs
             ∧ reads float (drop ks row) xs)
  ∧ (vs ≠ [] → Forall (λ k, length k = ks) (Prof._keys pr)).
Proof.
  intros Hload. cbv zeta.
  destruct (load_csv_inv float filename headers rows pr Hload)
    as (g & Hg & Hh & Hks & Hvs & Hkeys & Hdata).
  split; [done|]. split; [done|].
  split; [by rewrite Hkeys, length_fmap|].
  split; [symmetry; by eapply Forall2_length|].
  split.
  - intros n row Hrow.
    destruct (Forall2_lookup_l _ _ _ _ _ Hdata Hrow) as (xs & Hxs & Hlen & Hx).
    exists xs. rewrite Hkeys, list_lookup_fmap, Hrow.
    repeat split; try done.
    rewrite <- Hlen. by apply (reads_length float).
  - intros Hne. rewrite Hkeys. apply Forall_fmap, Forall_forall.
    intros row Hrow. cbn.
    apply list_elem_of_lookup in Hrow as [n Hrow].
    destruct (Forall2_lookup_l _ _ _ _ _ Hdata Hrow) as (xs & _ & Hlen & _).
    rewrite length_drop in Hlen. rewrite length_take.
    destruct (Prof.variables pr); [done|]. cbn in Hlen. lia.
Qed.

Lemma load_csv_profiles_witness :
  1 ≤ 2
  ∧ Forall (λ v, v ≠ "") ["area"; "count"]
  ∧ length [["p1"; "A01"]; ["p1"; "A02"]]
    = length [["p1"; "A01"; "10"; "3"]; ["p1"; "A02"; "12"; "5"]]
  ∧ length [[10; 3]; [12; 5]]%Z
    = length [["p1"; "A01"; "10"; "3"]; ["p1"; "A02"; "12"; "5"]]
  ∧ (∀ n row,
       [["p1"; "A01"; "10"; "3"]; ["p1"; "A02"; "12"; "5"]] !! n
       = Some row →
       ∃ xs, [["p1"; "A01"]; ["p1"; "A02"]] !! n = Some (take 2 row)
             ∧ [[10; 3]; [12; 5]]%Z !! n = Some xs
             ∧ length xs = length ["area"; "count"]
             ∧ reads Prof.number (drop 2 row) xs)
  ∧ (["area"; "count"] ≠ [] →
     Forall (λ k, length k = 2) [["p1"; "A01"]; ["p1"; "A02"]]).
Proof.
  apply (load_csv_profiles Prof.number "profiles.csv"
           ["Well"; ""; "area"; "count"]
           [["p1"; "A01"; "10"; "3"]; ["p1"; "A02"; "12"; "5"]]
           {| Prof._keys := [["p1"; "A01"]; ["p1"; "A02"]];
              Prof.data := [[10; 3]; [12; 5]]%Z;
              Prof.variables := ["area"; "count"];
              Prof.key_size := 2;
              Prof.group_name := Some "Well" |}).
  reflexivity.
Defined.

(** ** Lines and cells *)

Lemma append_nil (t : string) : "" +:+ t = t.
Proof. reflexivity. Qed.

Lemma append_cons c (s t : string) : String c s +:+ t = String c (s +:+ t).
Proof. reflexivity. Qed.

Lemma rstrip_app_space s c :
  Prof.is_space c = true → Prof.rstrip (s +:+ String c "") = Prof.rstrip s.
Proof.
  intros Hc. induction s as [|a s IH].
  - rewrite append_nil. cbn [Prof.rstrip]. by rewrite Hc.
  - rewrite append_cons. cbn [Prof.rstrip]. by rewrite IH.
Qed.

Lemma rstrip_clean s : ends_clean s = true → Prof.rstrip s = s.
Proof.
  induction s as [|c s IH]; [done|].
  destruct s as [|c' s'].
  - cbn [ends_clean Prof.rstrip]. by intros ->%negb_true_iff.
  - intros Hs. change (ends_clean (String c' s') = true) in Hs.
    cbn [Prof.rstrip]. cbn [Prof.rstrip] in IH. by rewrite (IH Hs).
Qed.

Lemma ends_clean_app s t : ends_clean t = true → ends_clean (s +:+ t) = true.
Proof.
  intros Ht. induction s as [|c s IH]; [done|].
  rewrite append_cons.
  destruct (s +:+ t) as [|c' r] eqn:E; [done|]. exact IH.
Qed.

Lemma ends_clean_join row cell :
  last row = Some cell → ends_clean cell = true →
  ends_clean (Prof.join_tab row) = true.
Proof.
  intros Hlast Hcell. induction row as [|x row IH]; [done|].
  destruct row as [|y row].
  - cbn in Hlast. by injection Hlast as ->.
  - change (Prof.join_tab (x :: y :: row))
      with (x +:+ String Prof.tab (Prof.join_tab (y :: row))).
    apply ends_clean_app.
    specialize (IH Hlast).
    destruct (Prof.join_tab (y :: row)) as [|c r] eqn:E; [done|].
    exact IH.
Qed.

Lemma split_tab_cell s : no_tab s = true → Prof.split_tab s = [s].
Proof.
  induction s as [|c s IH]; [done|].
  cbn [no_tab Prof.split_tab]. intros [Hc Hs]%andb_true_iff.
  apply negb_true_iff in Hc. by rewrite Hc, (IH Hs).
Qed.

Lemma split_tab_app x r :
  no_tab x = true →
  Prof.split_tab (x +:+ String Prof.tab r) = x :: Prof.split_tab r.
Proof.
  induction x as [|c x IH].
  - intros _. rewrite append_nil.
    cbn [Prof.split_tab]. by rewrite Ascii.eqb_refl.
  - cbn [no_tab]. intros [Hc Hx]%andb_true_iff. apply negb_true_iff in Hc.
    rewrite append_cons.
    cbn [Prof.split_tab]. by rewrite Hc, (IH Hx).
Qed.

Lemma split_join row :
  row ≠ [] → Forall (λ cell, no_tab cell = true) row →
  Prof.split_tab (Prof.join_tab row) = row.
Proof.
  intros Hne Hrow. induction Hrow as [|x row Hx Hrow IH]; [done|].
  destruct row as [|y row].
  - by apply split_tab_cell.
  - change (Prof.join_tab (x :: y :: row))
      with (x +:+ String Prof.tab (Prof.join_tab (y :: row))).
    rewrite split_tab_app by done. by rewrite IH.
Qed.

(** What [load] makes of a written line. *)
Lemma read_written row :
  plain_row row → Prof.split_tab (Prof.rstrip (written row)) = row.
Proof.
  intros [Hcells (cell & Hlast & Hcell)]. unfold written.
  rewrite rstrip_app_space by reflexivity.
  rewrite rstrip_clean by (by eapply ends_clean_join).
  apply split_join; [|done]. by intros ->.
Qed.

Lemma foldM_lines {F} (float : string → option F) filename rows :
  Forall plain_row rows →
  ∀ (k : nat → nat) st,
  Prof.foldM (λ st il, Prof.read float filename st il.1
                         (Prof.split_tab (Prof.rstrip il.2)))
    st (imap (λ i x, (k i, x)) (written <$> rows))
  = Prof.foldM (λ st ir, Prof.read float filename st ir.1 ir.2)
      st (imap (λ i x, (k i, x)) rows).
Proof.
  induction 1 as [|row rows Hrow _ IH]; intros k st; [done|].
  cbn [fmap list_fmap]. rewrite !imap_cons. cbn [Prof.foldM fst snd].
  rewrite (read_written _ Hrow).
  destruct (Prof.read float filename st (k 0) row) as [st'|e];
    cbn [mbind Prof.result_bind]; [|done].
  apply (IH (k ∘ S)).
Qed.

(** X22: [load] on a file of lines as [save] prints them, the cells joined
    by tabs and ended by a newline, is [load_csv] on the rows of these
    cells, when no cell holds a tab and the last cell of every line is not
    empty and does not end with white space. *)
Theorem load_reads_written_lines {F} (float : string → option F) filename
    rows :
  Forall plain_row rows →
  Prof.load float filename (written <$> rows)
  = Prof.load_csv float filename rows.
Proof.
  intros Hrows. unfold Prof.load, Prof.load_csv, Py.enumerate.
  by rewrite (foldM_lines float filename rows Hrows (λ i, i)).
Qed.

Lemma load_reads_written_lines_witness :
  Prof.load Prof.number "profiles.txt" (written <$> Prof.table)
  = Prof.load_csv Prof.number "profiles.txt" Prof.table.
Proof.
  apply load_reads_written_lines.
  repeat constructor; by eexists.
Defined.

(** The white space that [load] strips from the end of a line takes the
    trailing empty cells with it; [load_csv] keeps them. *)
Example load_drops_trailing_cells :
  Prof.split_tab (Prof.rstrip (written ["p1"; "A01"; "10"; ""; ""]))
  = ["p1"; "A01"; "10"].
Proof. vm_compute. reflexivity. Qed.

(** * The loop over repeated sums ends *)

Lemma first_of_repeated_raises fuel sums imIdx e :
  first_of_repeated fuel sums imIdx = Raise e →
  e = IndexError ∨ e = LoopBound.
Proof.
  revert imIdx. induction fuel as [|fuel IH]; intros imIdx; cbn.
  - intros [= <-]. by right.
  - destruct (Py.getitem sums imIdx) as [a|e1] eqn:Ea; res_simpl.
    + destruct (Py.getitem sums (imIdx - 1)) as [b|e2] eqn:Eb; res_simpl.
      * destruct (a =? b)%Z; [apply IH | done].
      * intros [= <-]. left. by eapply getitem_Raise.
    + intros [= <-]. left. by eapply getitem_Raise.
Qed.

(** X23: the loops [while sums[i] == sums[i-1]: i -= 1] of both sampling
    methods end, whatever the array of sums and the drawn number: the index
    computation returns an image key and a rank, or raises IndexError.  (The
    bound that the model gives the loop is never what stops it.) *)
Theorem sampling_index_ends sums (ks : list (list Z)) t e :
  (locate_object sums ks t = Raise e → e = IndexError)
  ∧ (locate_in_subset sums ks t = Raise e → e = IndexError).
Proof.
  split.
  - intros Hr. pose proof (locate_object_total sums ks t) as Hnot.
    rewrite Hr in Hnot. revert Hr. unfold locate_object. cbv zeta.
    destruct (first_of_repeated _ _ _) as [i|e1] eqn:E; res_simpl.
    + destruct (Py.getitem ks (i - 1)) as [k|e2] eqn:E1; res_simpl.
      * destruct (Py.getitem sums (i - 1)) as [c|e3] eqn:E2; res_simpl;
          [done|].
        intros [= <-]. by eapply getitem_Raise.
      * intros [= <-]. by eapply getitem_Raise.
    + intros [= <-].
      apply first_of_repeated_raises in E as [->| ->]; [done|].
      by destruct Hnot.
  - intros Hr. pose proof (locate_in_subset_total sums ks t) as Hnot.
    rewrite Hr in Hnot. revert Hr. unfold locate_in_subset. cbv zeta.
    destruct (_ =? 0)%Z; res_simpl.
    + destruct (Py.getitem ks _) as [k|e2] eqn:E1; res_simpl; [done|].
      intros [= <-]. by eapply getitem_Raise.
    + destruct (first_of_repeated _ _ _) as [i|e1] eqn:E; res_simpl.
      * destruct (Py.getitem sums (i - 1)) as [c|e3] eqn:E2; res_simpl.
        -- destruct (Py.getitem ks i) as [k|e2] eqn:E1; res_simpl; [done|].
           intros [= <-]. by eapply getitem_Raise.
        -- intros [= <-]. by eapply getitem_Raise.
      * intros [= <-].
        apply first_of_repeated_raises in E as [->| ->]; [done|].
        by destruct Hnot.
Qed.


(** On sums without any object the search runs off the array. *)
Example locate_object_all_zero :
  locate_object [0; 0; 0]%Z [[0; 1]; [0; 2]]%Z 1 = Raise IndexError.
Proof. vm_compute. reflexivity. Qed.

(** * Without a database connection *)



(** * The filter cache outlives the model *)

(** X25: the keys stored for a filter survive every re-population, also
    [PopulateModel(delete_model=True)]: a filtered lookup after it still
    intersects with the keys of the first execution of the filter's query,
    and does not execute the query again. *)
Theorem filter_cache_survives_repopulation db p delete_model f fk w w' :
  filterkeys (self w) !! f = Some fk →
  PopulateModel db p delete_model w = (Ok (), w') →
  filterkeys (self w') !! f = Some fk
  ∧ ∀ group groupKey found,
      IsEmpty (self w') = false →
      reverse_lookup (self w') group groupKey = Ok found →
      GetImagesInGroup db p group groupKey (Some f) w'
      = (Ok (KeySet (list_to_set found ∩ fk)), w').
Proof.
  intros Hf Hpop.
  pose proof (PopulateModel_same_cache db p delete_model w) as [Hsame _].
  rewrite Hpop in Hsame. cbn in Hsame.
  assert (filterkeys (self w') !! f = Some fk) as Hf' by (by rewrite Hsame).
  split; [done|].
  intros group groupKey found Hne Hfound.
  by apply GetImagesInGroup_cached.
Qed.

Lemma filter_cache_survives_repopulation_witness :
  filterkeys
    (self (PopulateModel (Some Example.db) Example.p true
             Example.filtered).2) !! "f"
  = Some (list_to_set [Example.e1; Example.e2])
  ∧ ∀ group groupKey found,
      IsEmpty (self (PopulateModel (Some Example.db) Example.p true
                       Example.filtered).2) = false →
      reverse_lookup
        (self (PopulateModel (Some Example.db) Example.p true
                 Example.filtered).2) group groupKey = Ok found →
      GetImagesInGroup (Some Example.db) Example.p group groupKey
        (Some "f")
        (PopulateModel (Some Example.db) Example.p true Example.filtered).2
      = (Ok (KeySet (list_to_set found
                     ∩ list_to_set [Example.e1; Example.e2])),
         (PopulateModel (Some Example.db) Example.p true
            Example.filtered).2).
Proof.
  apply (filter_cache_survives_repopulation (Some Example.db) Example.p
           true "f" (list_to_set [Example.e1; Example.e2])
           Example.filtered).
  - by_vm.
  - assert ((PopulateModel (Some Example.db) Example.p true
               Example.filtered).1 = Ok ()) as H by by_vm.
    destruct (PopulateModel (Some Example.db) Example.p true
                Example.filtered) as [r w1].
    cbn in H. by rewrite H.
Defined.
